(** * speak-mintlify: narration text extraction, change detection,
      component injection and orphan reconciliation

    A shallow embedding of the TypeScript sources (extractor, injector,
    S3 uploader, generate and cleanup commands) together with the
    properties stated about them.

    Strings are JavaScript strings: sequences of UTF-16 code units.
    Third-party libraries and services (the remark/MDX parser,
    gray-matter, the remark text pipeline, the SHA-256 digest, JSON.parse,
    URL, toLowerCase, the speech and storage clients) are not part of the
    repository; they enter through the [Libraries] interface and every
    statement below holds for each implementation of it.  So do two
    services of the language that the sources reach only on unusual
    input: the pattern engine, for a component name that holds pattern
    syntax, and the conversion to a number of a value that is a string, an
    array or an object. *)

From Stdlib Require Import ZArith NArith Lia List Ascii String DecimalString.
From stdpp Require Import base gmap list strings.
Import ListNotations.

Set Warnings "-register-all".
Local Open Scope N_scope.

(* ===================================================================== *)
(** * JavaScript strings and arrays                                        *)
(* ===================================================================== *)

Abbreviation char := N.
Abbreviation jsstring := (list N).

(** An ASCII literal as a JavaScript string. *)
Definition js (s : string) : jsstring := map N_of_ascii (list_ascii_of_string s).

(** A call either returns a value or throws. *)
Inductive Result (A : Type) : Type :=
| Returns (a : A)
| Throws.
Arguments Returns {A} a.
Arguments Throws {A}.

#[global] Instance Result_ret : MRet Result := fun _ a => Returns a.
#[global] Instance Result_bind : MBind Result := fun _ _ k r =>
  match r with
  | Returns a => k a
  | Throws => Throws
  end.

(** ECMAScript WhiteSpace and LineTerminator code units: what [\s] matches
    and what [String.prototype.trim] strips. *)
Definition whiteSpaceCodes : list N :=
  [9; 10; 11; 12; 13; 32; 160; 5760;
   8192; 8193; 8194; 8195; 8196; 8197; 8198; 8199; 8200; 8201; 8202;
   8232; 8233; 8239; 8287; 12288; 65279].

Definition isWhiteSpace (c : char) : bool := existsb (N.eqb c) whiteSpaceCodes.

Definition LF : char := 10.
Definition COMMA : char := 44.
Definition DOT : char := 46.
Definition COLON : char := 58.
Definition BACKSLASH : char := 92.

Definition memberOf (c : char) (set : jsstring) : bool := existsb (N.eqb c) set.

Fixpoint eqStr (a b : jsstring) : bool :=
  match a, b with
  | [], [] => true
  | x :: a', y :: b' => (x =? y) && eqStr a' b'
  | _, _ => false
  end.

(** [s.startsWith(p)] *)
Fixpoint startsWith (s p : jsstring) {struct p} : bool :=
  match p, s with
  | [], _ => true
  | x :: p', y :: s' => (x =? y) && startsWith s' p'
  | _ :: _, [] => false
  end.

(** [s.endsWith(p)] *)
Definition endsWith (s p : jsstring) : bool := startsWith (rev s) (rev p).

(** [s.includes(sub)] *)
Fixpoint includes (s sub : jsstring) : bool :=
  startsWith s sub ||
  match s with
  | [] => false
  | _ :: t => includes t sub
  end.

(** Length of the longest prefix whose code units satisfy [p]. *)
Fixpoint countWhile (p : char -> bool) (s : jsstring) : nat :=
  match s with
  | c :: t => if p c then S (countWhile p t) else O
  | [] => O
  end.

Fixpoint skipWhile (p : char -> bool) (s : jsstring) : jsstring :=
  match s with
  | c :: t => if p c then skipWhile p t else s
  | [] => []
  end.

(** [s.trim()] *)
Definition trimStart (s : jsstring) : jsstring := skipWhile isWhiteSpace s.
Definition trimEnd (s : jsstring) : jsstring := rev (skipWhile isWhiteSpace (rev s)).
Definition trim (s : jsstring) : jsstring := trimEnd (trimStart s).

(** [s.split(sep)] for a one-character separator: never empty, one more
    piece than there are separators. *)
Fixpoint split (sep : char) (s : jsstring) : list jsstring :=
  match s with
  | [] => [[]]
  | c :: t =>
      if c =? sep then [] :: split sep t
      else match split sep t with
           | piece :: rest => (c :: piece) :: rest
           | [] => [[c]]
           end
  end.

(** [parts.join(sep)] *)
Fixpoint join (sep : jsstring) (parts : list jsstring) : jsstring :=
  match parts with
  | [] => []
  | [p] => p
  | p :: rest => p ++ sep ++ join sep rest
  end.

(** [arr.slice(-n)]: the last [n] elements. *)
Definition sliceLast {A} (n : nat) (l : list A) : list A := drop (length l - n) l.

(** [arr.slice(from, to)] for non-negative bounds. *)
Definition slice {A} (from to : nat) (l : list A) : list A := take (to - from) (drop from l).

(** [arr[i]] with a possibly negative or out-of-range index: [None] is
    [undefined]. *)
Definition at_index {A} (l : list A) (i : Z) : option A :=
  if (i <? 0)%Z then None else l !! Z.to_nat i.

(** [arr.splice(start, deleteCount, ...items)], the array after the call. *)
Definition splice {A} (l : list A) (start deleteCount : Z) (items : list A) : list A :=
  let len := Z.of_nat (length l) in
  let actualStart := if (start <? 0)%Z then Z.max (len + start) 0 else Z.min start len in
  let actualDelete := Z.min (Z.max deleteCount 0) (len - actualStart) in
  take (Z.to_nat actualStart) l ++ items ++ drop (Z.to_nat (actualStart + actualDelete)) l.

(** Decimal rendering of a number in a template literal. *)
Definition digitsOf (n : nat) : jsstring := js (NilEmpty.string_of_uint (Nat.to_uint n)).

(* --------------------------------------------------------------------- *)
(** ** [String.prototype.replace] with a global pattern                    *)
(* --------------------------------------------------------------------- *)

(** A pattern is given by its matcher at the current position: the
    replacement text and the length of the match, which is at least one
    for every pattern used here.  The scan goes left to right; after a
    match it resumes behind the matched text, otherwise it copies one code
    unit and moves on.  [skip] counts the code units of the last match
    still to be passed over. *)
Definition matcher := jsstring -> option (jsstring * nat).

Fixpoint replaceAll (m : matcher) (skip : nat) (s : jsstring) : jsstring :=
  match s with
  | [] => []
  | c :: t =>
      match skip with
      | S k => replaceAll m k t
      | O =>
          match m s with
          | Some (replacement, n) => replacement ++ replaceAll m (pred n) t
          | None => c :: replaceAll m O t
          end
      end
  end.

Definition replaceGlobal (m : matcher) (s : jsstring) : jsstring := replaceAll m O s.

(* ===================================================================== *)
(** * extractor.ts: post-processing of the stringified tree                *)
(* ===================================================================== *)

(** The punctuation of [/\\([*_`~\[\](){}#+\-.!|])/g]. *)
Definition escapable : jsstring := js "*_`~[](){}#+-.!|".

(** [/\\([*_`~\[\](){}#+\-.!|])/g] replaced by ['$1']. *)
Definition rxEscape : matcher := fun s =>
  match s with
  | b :: c :: _ => if (b =? BACKSLASH) && memberOf c escapable then Some ([c], 2%nat) else None
  | _ => None
  end.

(** [/[:,]\s*,/g] replaced by [',']. *)
Definition rxOrphanComma : matcher := fun s =>
  match s with
  | c :: t =>
      if (c =? COLON) || (c =? COMMA) then
        let w := countWhile isWhiteSpace t in
        match drop w t with
        | d :: _ => if d =? COMMA then Some ([COMMA], (2 + w)%nat) else None
        | [] => None
        end
      else None
  | [] => None
  end.

(** Length of the longest prefix of the form [(\s*,)+]; [0] when there is
    none.  [pending] counts the white space read since the last comma. *)
Fixpoint commaGroups (s : jsstring) (pending done : nat) : nat :=
  match s with
  | c :: t =>
      if c =? COMMA then commaGroups t O (done + pending + 1)%nat
      else if isWhiteSpace c then commaGroups t (S pending) done
      else done
  | [] => done
  end.

(** [/,(\s*,)+/g] replaced by [',']. *)
Definition rxCommaRun : matcher := fun s =>
  match s with
  | c :: t =>
      if c =? COMMA then
        match commaGroups t O O with
        | O => None
        | S g => Some ([COMMA], (2 + g)%nat)
        end
      else None
  | [] => None
  end.

(** [/:\s*,+\s*/g] replaced by [': ']. *)
Definition rxColonComma : matcher := fun s =>
  match s with
  | c :: t =>
      if c =? COLON then
        let w1 := countWhile isWhiteSpace t in
        let t1 := drop w1 t in
        let k := countWhile (N.eqb COMMA) t1 in
        match k with
        | O => None
        | S _ =>
            let w2 := countWhile isWhiteSpace (drop k t1) in
            Some (js ": ", (1 + w1 + k + w2)%nat)
        end
      else None
  | [] => None
  end.

(** [/:\s*\./g] replaced by ['.']. *)
Definition rxColonDot : matcher := fun s =>
  match s with
  | c :: t =>
      if c =? COLON then
        let w := countWhile isWhiteSpace t in
        match drop w t with
        | d :: _ => if d =? DOT then Some ([DOT], (2 + w)%nat) else None
        | [] => None
        end
      else None
  | [] => None
  end.

(** [/\n{3,}/g] replaced by ['\n\n']. *)
Definition rxBlankLines : matcher := fun s =>
  let k := countWhile (N.eqb LF) s in
  if (3 <=? k)%nat then Some ([LF; LF], k) else None.

(** The statements of [extractCleanText] after [String(result)], in the
    order of the source. *)
Definition postProcess (result : jsstring) : jsstring :=
  let cleanedText := result in
  let cleanedText := replaceGlobal rxEscape cleanedText in
  let cleanedText := replaceGlobal rxOrphanComma cleanedText in
  let cleanedText := replaceGlobal rxCommaRun cleanedText in
  let cleanedText := replaceGlobal rxColonComma cleanedText in
  let cleanedText := replaceGlobal rxColonDot cleanedText in
  let cleanedText := replaceGlobal rxBlankLines cleanedText in
  trim cleanedText.

(** The rewrites the specification lists for this stage (unescape, stray
    commas, colon followed by punctuation becoming [': '], blank lines,
    trim), each with the pattern the source uses for it.  Compared with
    [postProcess] below. *)
Definition postProcess_listed (result : jsstring) : jsstring :=
  let cleanedText := replaceGlobal rxEscape result in
  let cleanedText := replaceGlobal rxOrphanComma cleanedText in
  let cleanedText := replaceGlobal rxCommaRun cleanedText in
  let cleanedText := replaceGlobal rxColonComma cleanedText in
  let cleanedText := replaceGlobal rxBlankLines cleanedText in
  trim cleanedText.

(* ===================================================================== *)
(** * types/index.ts and the syntax tree of the MDX parser                 *)
(* ===================================================================== *)

(** [interface Voice { id: string; name: string; url?: string }] *)
Record Voice := {
  voice_id : jsstring;
  voice_name : jsstring;
  voice_url : option jsstring
}.

(** A number as [JSON.parse] gives it: a finite double, written
    [mantissa * 2 ^ exponent], or an infinity (a literal out of range). *)
Inductive JsNumber :=
| Finite (mantissa exponent : Z)
| Infinite (negative : bool).

(** A value as [JSON.parse] gives it.  The members of an object are its
    own properties in the order of their creation, each key once. *)
Inductive Json :=
| JNull
| JBool (b : bool)
| JNumber (n : JsNumber)
| JString (s : jsstring)
| JArray (elements : list Json)
| JObject (members : list (jsstring * Json)).

(** A voice object of the program as a value: the one its serialisation
    parses to. *)
Definition voiceJson (v : Voice) : Json :=
  JObject ([(js "id", JString (voice_id v)); (js "name", JString (voice_name v))] ++
           match voice_url v with
           | Some u => [(js "url", JString u)]
           | None => []
           end).

Definition numberPositive (n : JsNumber) : bool :=
  match n with
  | Finite mantissa _ => (0 <? mantissa)%Z
  | Infinite negative => negb negative
  end.

Definition numberTruthy (n : JsNumber) : bool :=
  match n with
  | Finite mantissa _ => negb (mantissa =? 0)%Z
  | Infinite _ => true
  end.

(** The own property [key] of an object; [None] is [undefined]. *)
Fixpoint ownProperty (members : list (jsstring * Json)) (key : jsstring) : option Json :=
  match members with
  | [] => None
  | (k, v) :: rest => if eqStr k key then Some v else ownProperty rest key
  end.

(** [value.key] for a key that no prototype defines ([id], [url]):
    a [TypeError] on [null], the own property on an object, [undefined]
    on every other value. *)
Definition getMember (value : Json) (key : jsstring) : Result (option Json) :=
  match value with
  | JNull => Throws
  | JObject members => Returns (ownProperty members key)
  | _ => Returns None
  end.

(** [value.length] *)
Definition lengthOf (value : Json) : Result (option Json) :=
  match value with
  | JNull => Throws
  | JString s => Returns (Some (JNumber (Finite (Z.of_nat (length s)) 0)))
  | JArray elements => Returns (Some (JNumber (Finite (Z.of_nat (length elements)) 0)))
  | JObject members => Returns (ownProperty members (js "length"))
  | JBool _ | JNumber _ => Returns None
  end.

(** The truth value of [value] in a condition. *)
Definition truthyValue (value : option Json) : bool :=
  match value with
  | None | Some JNull => false
  | Some (JBool b) => b
  | Some (JNumber n) => numberTruthy n
  | Some (JString s) => negb (eqStr s [])
  | Some (JArray _) | Some (JObject _) => true
  end.

(** [array.map(f)] for a callback that may throw. *)
Fixpoint mapResult {A B} (f : A -> Result B) (l : list A) : Result (list B) :=
  match l with
  | [] => Returns []
  | x :: rest =>
      match f x with
      | Throws => Throws
      | Returns y =>
          match mapResult f rest with
          | Throws => Throws
          | Returns ys => Returns (y :: ys)
          end
      end
  end.

(** [interface S3Config] *)
Record S3Config := {
  bucket : jsstring;
  region : jsstring;
  endpoint : option jsstring;
  accessKeyId : jsstring;
  secretAccessKey : jsstring;
  publicUrl : jsstring;
  pathPrefix : option jsstring
}.

(** Node kinds of mdast with the MDX extensions; the sources test for the
    first ten by name. *)
Inductive NodeType :=
| root | yaml | toml | mdxjsEsm
| mdxFlowExpression | mdxTextExpression
| mdxJsxFlowElement | mdxJsxTextElement
| heading | paragraph
| otherType (kind : jsstring).

Record Point := { line : nat; column : nat }.

(** [node.position]: [start] and [end]. *)
Record Position := { pos_start : option Point; pos_end : option Point }.

(** The value of a JSX attribute: a string literal, an expression in
    braces ([mdxJsxAttributeValueExpression]) or some other object. *)
Inductive AttributeValue :=
| AttrString (s : jsstring)
| AttrExpression (source : jsstring)
| AttrOther.

Record Attribute := { attr_name : option jsstring; attr_value : option AttributeValue }.

(** A unist node with the fields the sources read.  A node without a
    [children] array has the empty list. *)
Inductive Node :=
| MkNode (type : NodeType) (value : option jsstring) (name : option jsstring)
         (attributes : list Attribute) (children : list Node)
         (position : option Position).

Definition node_type (n : Node) : NodeType := let (t, _, _, _, _, _) := n in t.
Definition node_value (n : Node) : option jsstring := let (_, v, _, _, _, _) := n in v.
Definition node_name (n : Node) : option jsstring := let (_, _, m, _, _, _) := n in m.
Definition node_attributes (n : Node) : list Attribute := let (_, _, _, a, _, _) := n in a.
Definition node_children (n : Node) : list Node := let (_, _, _, _, c, _) := n in c.
Definition node_position (n : Node) : option Position := let (_, _, _, _, _, p) := n in p.

(** [node.position?.start?.line] and [node.position?.end?.line]; [0]
    stands for a missing (falsy) value. *)
Definition startLine (n : Node) : nat :=
  match node_position n with
  | Some p => match pos_start p with Some pt => line pt | None => O end
  | None => O
  end.

Definition endLine (n : Node) : nat :=
  match node_position n with
  | Some p => match pos_end p with Some pt => line pt | None => O end
  | None => O
  end.

(** The third-party functions the sources call.
    - [parseMDX]: [unified().use(remarkParse).use(remarkGfm).use(remarkMdx)
      .use(remarkFrontmatter).parse(content)];
    - [JSON_parse]: [JSON.parse]; [None] is the exception the caller
      swallows;
    - [ToNumber]: the conversion to a number that a comparison applies to
      a string, an array or an object; [None] is [NaN], and the conversion
      of an object may throw;
    - [sha256_hex]: [crypto.createHash('sha256').update(s).digest('hex')];
    - [toLowerCase]: [String.prototype.toLowerCase];
    - [matter_content]: the [content] field of gray-matter's result;
    - [remarkMdxRemoveEsm]: the transformer of remark-mdx-remove-esm;
    - [renderPlainText]: remark-unlink, strip-markdown and
      remark-stringify, up to [String(result)];
    - [URL_pathname]: [new URL(url).pathname], [None] when the constructor
      throws;
    - [RegExp_test]: [new RegExp(source, 'g').test(text)] for a source that
      holds pattern syntax; it throws when the source is no pattern;
    - [textToSpeech]: the Fish Audio client, [generateTTS(text, voiceId)];
    - [putObject]: the [PutObjectCommand] sent for a key and a body. *)
Class Libraries := {
  parseMDX : jsstring -> Result Node;
  JSON_parse : jsstring -> option Json;
  ToNumber : Json -> Result (option JsNumber);
  sha256_hex : jsstring -> jsstring;
  toLowerCase : jsstring -> jsstring;
  matter_content : jsstring -> Result jsstring;
  remarkMdxRemoveEsm : Node -> Node;
  renderPlainText : Node -> Result jsstring;
  URL_pathname : jsstring -> option jsstring;
  RegExp_test : jsstring -> jsstring -> Result bool;
  textToSpeech : jsstring -> jsstring -> Result (list N);
  putObject : jsstring -> list N -> Result unit
}.

(* ===================================================================== *)
(** * extractor.ts and hash-tracker.ts                                     *)
(* ===================================================================== *)

(** The test of the visitor of [remarkRemoveJSX]. *)
Definition isJSX (t : NodeType) : bool :=
  match t with
  | mdxJsxFlowElement | mdxJsxTextElement | mdxFlowExpression | mdxTextExpression => true
  | _ => false
  end.

(** [remarkRemoveJSX]: [visit] calls the visitor on the nodes in document
    order; a node of one of the four kinds that has a parent is spliced
    out of the children of its parent, its subtree is skipped and the visit
    goes on with the node that took its place. *)
Fixpoint remarkRemoveJSX (tree : Node) : Node :=
  match tree with
  | MkNode type value name attributes children position =>
      MkNode type value name attributes
        ((fix visitChildren (cs : list Node) : list Node :=
            match cs with
            | [] => []
            | child :: later =>
                if isJSX (node_type child) then visitChildren later
                else remarkRemoveJSX child :: visitChildren later
            end) children)
        position
  end.

Section Extraction.
Context `{Libraries}.

(** [processor.process(content)] and [String(result)]: the parser, then
    the transformers in the order of their [use], then the compiler. *)
Definition remarkProcess (content : jsstring) : Result jsstring :=
  tree ← parseMDX content;
  renderPlainText (remarkRemoveJSX (remarkMdxRemoveEsm tree)).

(** [extractCleanText(mdxContent)] *)
Definition extractCleanText (mdxContent : jsstring) : Result jsstring :=
  content ← matter_content mdxContent;
  result ← remarkProcess content;
  mret (postProcess result).

(** [generateHash(content)] *)
Definition generateHash (content : jsstring) : jsstring := sha256_hex content.
End Extraction.

(* ===================================================================== *)
(** * s3-upload.ts                                                         *)
(* ===================================================================== *)

(** [a || b] on an optional string: [undefined] and [''] are falsy. *)
Definition orElse (a : option jsstring) (b : jsstring) : jsstring :=
  match a with
  | Some (c :: s) => c :: s
  | _ => b
  end.

(** [filePath.replace(/\.mdx$/, '')] *)
Definition dropMdxSuffix (filePath : jsstring) : jsstring :=
  if endsWith filePath (js ".mdx") then take (length filePath - 4) filePath else filePath.

(** [s.replace(/\/$/, '')] *)
Definition dropTrailingSlash (s : jsstring) : jsstring :=
  if endsWith s (js "/") then take (length s - 1) s else s.

Section Uploader.
Context `{Libraries}.
Variable config : S3Config.

(** The slug of [generateKey] (and of the dry-run preview). *)
Definition slugOf (filePath : jsstring) : jsstring :=
  toLowerCase (join (js "-") (sliceLast 2 (split 47 (dropMdxSuffix filePath)))).

(** [generateKey(filePath, voiceId)] of the uploader. *)
Definition generateKey (filePath voiceId : jsstring) : jsstring :=
  let slug := slugOf filePath in
  let prefix := orElse (pathPrefix config) (js "audio") in
  prefix ++ js "/" ++ slug ++ js "/" ++ voiceId ++ js ".mp3".

(** [generateKey(filePath, voiceId)] of the uploader that carries the git
    branch. *)
Definition generateKey_branch (branch filePath voiceId : jsstring) : jsstring :=
  let slug := slugOf filePath in
  let prefix := orElse (pathPrefix config) (js "audio") in
  prefix ++ js "/" ++ branch ++ js "/" ++ slug ++ js "/" ++ voiceId ++ js ".mp3".

(** The public URL [uploadAudio] returns for an uploaded object. *)
Definition uploadedUrl (filePath voiceId : jsstring) : jsstring :=
  dropTrailingSlash (publicUrl config) ++ js "/" ++ generateKey filePath voiceId.

(** [extractKeyFromUrl(url, publicUrl)] *)
Definition extractKeyFromUrl (url : jsstring) (publicUrlArg : option jsstring) : jsstring :=
  let baseUrl := dropTrailingSlash (orElse publicUrlArg (publicUrl config)) in
  if startsWith url baseUrl then drop (length baseUrl + 1) url
  else match URL_pathname url with
       | Some pathname => drop 1 pathname
       | None => url
       end.
End Uploader.

(** One answer to a [ListObjectsV2Command]. *)
Record ListObjectsV2Output := {
  Contents : option (list (option jsstring));
  NextContinuationToken : option jsstring
}.

Definition truthy (s : option jsstring) : bool :=
  match s with
  | Some (_ :: _) => true
  | _ => false
  end.

(** The keys one answer adds to [allKeys]. *)
Definition keysOfResponse (response : ListObjectsV2Output) : list jsstring :=
  match Contents response with
  | Some objects => omap (fun k => k) objects
  | None => []
  end.

(** The [do ... while (continuationToken)] loop of [listAllAudioFiles]
    over the answers of the backend, in the order they arrive. *)
Fixpoint listLoop (responses : list ListObjectsV2Output) (allKeys : list jsstring)
  : list jsstring :=
  match responses with
  | [] => allKeys
  | response :: later =>
      let allKeys := allKeys ++ keysOfResponse response in
      if truthy (NextContinuationToken response) then listLoop later allKeys else allKeys
  end.

Definition listAllAudioFiles (responses : list ListObjectsV2Output) : list jsstring :=
  listLoop responses [].

Definition batchSize : nat := 1000.

(** The [for (let i = 0; i < keys.length; i += batchSize)] loop of
    [deleteMultiple]: the batches sent so far are in [sent].  The loop
    runs at most [keys.length] times, which [fuel] counts down. *)
Fixpoint deleteLoop (fuel : nat) (keys : list jsstring) (i : nat)
  (sent : list (list jsstring)) : list (list jsstring) :=
  match fuel with
  | O => sent
  | S fuel =>
      if (i <? length keys)%nat then
        let batch := slice i (i + batchSize) keys in
        deleteLoop fuel keys (i + batchSize)%nat (sent ++ [batch])
      else sent
  end.

(** [deleteMultiple(keys)]: the [DeleteObjectsCommand]s sent, each with its
    list of keys, in order. *)
Definition deleteMultiple (keys : list jsstring) : list (list jsstring) :=
  if (length keys =? 0)%nat then [] else deleteLoop (length keys) keys O [].

(** The storage backend: the object keys of the bucket.  A delete request
    removes the objects it names. *)
Definition deleteObjects (objects : list jsstring) (batch : list jsstring) : list jsstring :=
  List.filter (fun k => negb (bool_decide (k ∈ batch))) objects.

Definition applyRequests (objects : list jsstring) (requests : list (list jsstring))
  : list jsstring :=
  fold_left deleteObjects requests objects.



(* ===================================================================== *)
(** * injector.ts                                                          *)
(* ===================================================================== *)

Definition isHex (c : char) : bool :=
  ((48 <=? c) && (c <=? 57)) || ((97 <=? c) && (c <=? 102)).

Definition isUpper (c : char) : bool := (65 <=? c) && (c <=? 90).

(** [\w] *)
Definition isWord (c : char) : bool :=
  isUpper c || ((97 <=? c) && (c <=? 122)) || ((48 <=? c) && (c <=? 57)) || (c =? 95).

Definition hashMarker : jsstring := js "speak-mintlify-hash:".

(** [/\/\*\s*speak-mintlify-hash:\s*([a-f0-9]+)\s*\*\//] tried at the start
    of [s]: the text of group 1. *)
Definition hashMatchAt (s : jsstring) : option jsstring :=
  if startsWith s (js "/*") then
    let s1 := skipWhile isWhiteSpace (drop 2 s) in
    if startsWith s1 hashMarker then
      let s2 := skipWhile isWhiteSpace (drop (length hashMarker) s1) in
      let digits := take (countWhile isHex s2) s2 in
      let s3 := skipWhile isWhiteSpace (skipWhile isHex s2) in
      match digits with
      | [] => None
      | _ :: _ => if startsWith s3 (js "*/") then Some digits else None
      end
    else None
  else None.

(** [value.match(...)]: the leftmost match in [value]. *)
Fixpoint hashMatch (value : jsstring) : option jsstring :=
  match hashMatchAt value with
  | Some digits => Some digits
  | None =>
      match value with
      | [] => None
      | _ :: t => hashMatch t
      end
  end.

(** What [extractExistingAudioData] returns when it finds a component:
    the recorded hash, the [id] of each element of the parsed array
    ([None] is [undefined]) and the array itself. *)
Record ExistingData := {
  hash : option jsstring;
  voiceIds : list (option Json);
  voices : list Json
}.

(** The two variables [walkTree] assigns in [extractExistingAudioData];
    [foundVoices] holds whatever the last payload parsed to. *)
Record Found := { foundHash : option jsstring; foundVoices : Json }.

Definition isExpressionNode (t : NodeType) : bool :=
  match t with
  | mdxFlowExpression | mdxTextExpression => true
  | _ => false
  end.

Definition isJsxElement (t : NodeType) : bool :=
  match t with
  | mdxJsxFlowElement | mdxJsxTextElement => true
  | _ => false
  end.

Definition nameIs (o : option jsstring) (s : jsstring) : bool :=
  match o with
  | Some m => eqStr m s
  | None => false
  end.

(** [voicesAttr.value] is truthy: not [null], not the empty string. *)
Definition valueTruthy (v : option AttributeValue) : bool :=
  match v with
  | None => false
  | Some (AttrString []) => false
  | Some _ => true
  end.

(** The text handed to [JSON.parse]. *)
Definition jsonStrOf (v : option AttributeValue) : jsstring :=
  match v with
  | Some (AttrString s) => s
  | Some (AttrExpression source) => source
  | _ => []
  end.

(** The code units that are syntax in a pattern (SyntaxCharacter in the
    grammar of the language); every other code unit matches itself. *)
Definition syntaxCharacters : jsstring := js "^$\.*+?()[]{}|".

(** A text without pattern syntax. *)
Definition literalPattern (s : jsstring) : bool :=
  forallb (fun c => negb (memberOf c syntaxCharacters)) s.

Section Injector.
Context `{Libraries}.

(** The body of [walkTree] in [extractExistingAudioData], before it
    descends into the children. *)
Definition visitExisting (componentName : jsstring) (node : Node) (st : Found) : Found :=
  let st :=
    if isExpressionNode (node_type node) then
      match hashMatch (default [] (node_value node)) with
      | Some digits => {| foundHash := Some digits; foundVoices := foundVoices st |}
      | None => st
      end
    else st in
  if isJsxElement (node_type node) && nameIs (node_name node) componentName then
    match List.find (fun attr => nameIs (attr_name attr) (js "voices")) (node_attributes node) with
    | Some voicesAttr =>
        if valueTruthy (attr_value voicesAttr) then
          match JSON_parse (jsonStrOf (attr_value voicesAttr)) with
          | Some parsed => {| foundHash := foundHash st; foundVoices := parsed |}
          | None => st
          end
        else st
    | None => st
    end
  else st.

Fixpoint walkExisting (componentName : jsstring) (node : Node) (st : Found) : Found :=
  let st := visitExisting componentName node st in
  (fix visitChildren (cs : list Node) (st : Found) : Found :=
     match cs with
     | [] => st
     | child :: later => visitChildren later (walkExisting componentName child st)
     end) (node_children node) st.

(** [value > 0]: [undefined] and what does not convert to a number
    compare as [NaN]. *)
Definition greaterThanZero (value : option Json) : Result bool :=
  match value with
  | None | Some JNull => Returns false
  | Some (JBool b) => Returns b
  | Some (JNumber n) => Returns (numberPositive n)
  | Some other =>
      n ← ToNumber other;
      Returns (match n with
               | Some n => numberPositive n
               | None => false
               end)
  end.

(** The statements after the walk: [foundVoices.length > 0], then
    [foundVoices.map(v => v.id)], which only an array has. *)
Definition existingOf (st : Found) : Result (option ExistingData) :=
  len ← lengthOf (foundVoices st);
  positive ← greaterThanZero len;
  if (positive : bool) then
    match foundVoices st with
    | JArray elements =>
        ids ← mapResult (fun v => getMember v (js "id")) elements;
        Returns (Some {| hash := foundHash st; voiceIds := ids; voices := elements |})
    | _ => Throws
    end
  else Returns None.

(** [extractExistingAudioData(content, componentName)] *)
Definition extractExistingAudioData (content componentName : jsstring)
  : Result (option ExistingData) :=
  ast ← parseMDX content;
  existingOf (walkExisting componentName ast
                {| foundHash := None; foundVoices := JArray [] |}).

(** [hasAudioComponent(content, componentName)]: the pattern is built
    from the name as it stands, [new RegExp(`<${componentName}[^>]*`, 'g')].
    For a name without pattern syntax it reads [<], the code units of the
    name, then any number of code units other than [>], so it matches
    wherever [<Name] occurs.  A name with pattern syntax is a pattern of
    its own, or none at all: the answer is the engine's. *)
Definition hasAudioComponent (content componentName : jsstring) : Result bool :=
  if literalPattern componentName
  then mret (includes content (js "<" ++ componentName))
  else RegExp_test (js "<" ++ componentName ++ js "[^>]*") content.

(** The three variables [walkTree] assigns in [findInsertionPoints]. *)
Record Marks := {
  frontmatterEndLine : nat;
  lastImportEndLine : nat;
  firstContentLine : nat
}.

Definition isFrontmatter (t : NodeType) : bool :=
  match t with yaml | toml => true | _ => false end.

Definition isEsm (t : NodeType) : bool :=
  match t with mdxjsEsm => true | _ => false end.

Definition isContent (t : NodeType) : bool :=
  match t with heading | paragraph | mdxJsxFlowElement => true | _ => false end.

Definition visitInsertion (node : Node) (m : Marks) : Marks :=
  let m :=
    if isFrontmatter (node_type node) && (0 <? endLine node)%nat then
      {| frontmatterEndLine := endLine node;
         lastImportEndLine := lastImportEndLine m;
         firstContentLine := firstContentLine m |}
    else m in
  let m :=
    if isEsm (node_type node) && (0 <? endLine node)%nat then
      {| frontmatterEndLine := frontmatterEndLine m;
         lastImportEndLine := Nat.max (lastImportEndLine m) (endLine node);
         firstContentLine := firstContentLine m |}
    else m in
  if (firstContentLine m =? 0)%nat && isContent (node_type node) && (0 <? startLine node)%nat then
    {| frontmatterEndLine := frontmatterEndLine m;
       lastImportEndLine := lastImportEndLine m;
       firstContentLine := startLine node |}
  else m.

Fixpoint walkInsertion (node : Node) (m : Marks) : Marks :=
  let m := visitInsertion node m in
  (fix visitChildren (cs : list Node) (m : Marks) : Marks :=
     match cs with
     | [] => m
     | child :: later => visitChildren later (walkInsertion child m)
     end) (node_children node) m.

Record InsertionPoints := { importPos : nat; componentPos : nat }.

Definition pointsOf (m : Marks) : InsertionPoints :=
  let importPos :=
    if (0 <? lastImportEndLine m)%nat then lastImportEndLine m else frontmatterEndLine m in
  let componentPos :=
    if (0 <? firstContentLine m)%nat then (firstContentLine m - 1)%nat else importPos in
  {| importPos := importPos; componentPos := componentPos |}.

(** [findInsertionPoints(content)] *)
Definition findInsertionPoints (content : jsstring) : Result InsertionPoints :=
  ast ← parseMDX content;
  mret (pointsOf (walkInsertion ast
                    {| frontmatterEndLine := 0; lastImportEndLine := 0;
                       firstContentLine := 0 |})).
End Injector.

(* --------------------------------------------------------------------- *)
(** ** [JSON.stringify(voices, null, 2)]                                   *)
(* --------------------------------------------------------------------- *)

Definition hexDigit (n : N) : char := if n <? 10 then 48 + n else 87 + n.

(** [\uXXXX] with lower-case digits. *)
Definition unicodeEscape (c : char) : jsstring :=
  js "\u" ++ [hexDigit (c / 4096 mod 16); hexDigit (c / 256 mod 16);
              hexDigit (c / 16 mod 16); hexDigit (c mod 16)].

Definition isLeadSurrogate (c : char) : bool := (55296 <=? c) && (c <=? 56319).
Definition isTrailSurrogate (c : char) : bool := (56320 <=? c) && (c <=? 57343).

Definition escapeUnit (c : char) : jsstring :=
  if c =? 8 then js "\b"
  else if c =? 9 then js "\t"
  else if c =? 10 then js "\n"
  else if c =? 12 then js "\f"
  else if c =? 13 then js "\r"
  else if c =? 34 then [BACKSLASH; 34]
  else if c =? BACKSLASH then [BACKSLASH; BACKSLASH]
  else if c <? 32 then unicodeEscape c
  else [c].

(** The body of QuoteJSONString: lone surrogates are escaped, pairs kept. *)
Fixpoint escapeJSON (s : jsstring) : jsstring :=
  match s with
  | [] => []
  | c :: t =>
      if isLeadSurrogate c then
        match t with
        | d :: t' =>
            if isTrailSurrogate d then c :: d :: escapeJSON t'
            else unicodeEscape c ++ escapeJSON t
        | [] => unicodeEscape c
        end
      else if isTrailSurrogate c then unicodeEscape c ++ escapeJSON t
      else escapeUnit c ++ escapeJSON t
  end.

Definition quoteJSON (s : jsstring) : jsstring := [34] ++ escapeJSON s ++ [34].

(** The lines of one voice object at nesting depth one; a missing [url]
    is left out. *)
Definition voiceLines (v : Voice) : list jsstring :=
  let member (key value : jsstring) :=
    js "    " ++ quoteJSON key ++ js ": " ++ quoteJSON value in
  let members :=
    [member (js "id") (voice_id v); member (js "name") (voice_name v)] ++
    match voice_url v with
    | Some u => [member (js "url") u]
    | None => []
    end in
  [js "  {"] ++
  (fix commas (ms : list jsstring) : list jsstring :=
     match ms with
     | [] => []
     | [m] => [m]
     | m :: rest => (m ++ js ",") :: commas rest
     end) members ++
  [js "  }"].

Fixpoint voiceBlocks (vs : list Voice) : list jsstring :=
  match vs with
  | [] => []
  | [v] => voiceLines v
  | v :: rest =>
      match rev (voiceLines v) with
      | closing :: body => rev body ++ [closing ++ js ","] ++ voiceBlocks rest
      | [] => voiceBlocks rest
      end
  end.

Definition JSON_stringify (vs : list Voice) : jsstring :=
  match vs with
  | [] => js "[]"
  | _ => join [LF] ([js "["] ++ voiceBlocks vs ++ [js "]"])
  end.

(* --------------------------------------------------------------------- *)
(** ** [injectAudioComponent]                                              *)
(* --------------------------------------------------------------------- *)

(** [options] of [injectAudioComponent]; a missing field takes its
    default. *)
Record InjectOptions := {
  componentImport : option jsstring;
  componentName : option jsstring
}.

Definition defaultComponentImport : jsstring := js "/snippets/audio-transcript.jsx".
Definition defaultComponentName : jsstring := js "AudioTranscript".

(** [`import { ${componentName} }`] *)
Definition importHead (componentName : jsstring) : jsstring :=
  js "import { " ++ componentName ++ js " }".

(** [`import { ${componentName} } from '${componentImport}';`] *)
Definition importStatementOf (componentName componentImport : jsstring) : jsstring :=
  importHead componentName ++ js " from '" ++ componentImport ++ js "';".

(** [`{/* speak-mintlify-hash: ${hash} */}`] *)
Definition hashCommentOf (hash : jsstring) : jsstring :=
  js "{/* speak-mintlify-hash: " ++ hash ++ js " */}".

(** [JSON.stringify(voices, null, 2).split('\n')
      .map((line, idx) => (idx === 0 ? line : '  ' + line)).join('\n')] *)
Definition voicesFormatted (voices : list Voice) : jsstring :=
  join [LF]
    (match split LF (JSON_stringify voices) with
     | [] => []
     | first :: others => first :: map (fun line => js "  " ++ line) others
     end).

(** [`<${componentName} voices={${voicesFormatted}} />`] *)
Definition componentCodeOf (componentName : jsstring) (voices : list Voice) : jsstring :=
  js "<" ++ componentName ++ js " voices={" ++ voicesFormatted voices ++ js "} />".

(** [line.match(/^<[A-Z]\w+/)] and [line.match(/^<\/[A-Z]\w+/)] *)
Definition opensComponent (line : jsstring) : bool :=
  match line with
  | lt :: c :: w :: _ => (lt =? 60) && isUpper c && isWord w
  | _ => false
  end.

Definition closesComponent (line : jsstring) : bool :=
  match line with
  | lt :: sl :: c :: w :: _ => (lt =? 60) && (sl =? 47) && isUpper c && isWord w
  | _ => false
  end.

(** The variables of the line scan. *)
Record Scan := {
  inOtherComponent : bool;
  componentStart : Z;
  componentEnd : Z;
  hashLine : Z;
  lastImportLine : Z
}.

Definition scanStart : Scan :=
  {| inOtherComponent := false; componentStart := -1; componentEnd := -1;
     hashLine := -1; lastImportLine := -1 |}.

(** The [for] loop over the lines, from line [i] on; it stops at the first
    line that holds ['/>'] once a component start is known. *)
Fixpoint scanLines (componentName : jsstring) (rest : list jsstring) (i : Z) (st : Scan)
  : Scan :=
  match rest with
  | [] => st
  | raw :: later =>
      let line := trim raw in
      let lastImport := if startsWith line (js "import ") then i else lastImportLine st in
      let inOther :=
        if opensComponent line && negb (includes line (js "<" ++ componentName))
        then true else inOtherComponent st in
      let inOther := if inOther && closesComponent line then false else inOther in
      let hashAt := if includes line hashMarker then i else hashLine st in
      let startAt := if includes raw (js "<" ++ componentName) then i else componentStart st in
      let st := {| inOtherComponent := inOther; componentStart := startAt;
                   componentEnd := componentEnd st; hashLine := hashAt;
                   lastImportLine := lastImport |} in
      if (0 <=? startAt)%Z && includes raw (js "/>") then
        {| inOtherComponent := inOther; componentStart := startAt;
           componentEnd := i; hashLine := hashAt; lastImportLine := lastImport |}
      else scanLines componentName later (i + 1)%Z st
  end.

(** [line?.trim() !== ''], true for a missing line too. *)
Definition lineNotBlank (l : option jsstring) : bool :=
  match l with
  | Some l => negb (eqStr (trim l) [])
  | None => true
  end.

(** [lines[i]?.trim() !== ''] *)
Definition notBlankAt (lines : list jsstring) (i : Z) : bool :=
  lineNotBlank (at_index lines i).

(** The splices that place the block at [adjustedComponentPos]. *)
Definition placeBlock (lines : list jsstring) (adjustedComponentPos : Z)
  (hashComment componentCode : jsstring) : list jsstring :=
  let lines :=
    if notBlankAt lines (adjustedComponentPos - 1)
    then splice lines adjustedComponentPos 0 [[]] else lines in
  let lines := splice lines adjustedComponentPos 0 [hashComment] in
  let lines := splice lines (adjustedComponentPos + 1) 0 [componentCode] in
  if notBlankAt lines (adjustedComponentPos + 2)
  then splice lines (adjustedComponentPos + 2) 0 [[]] else lines.

Section Inject.
Context `{Libraries}.

(** The part of [injectAudioComponent] that removes an existing
    component and re-inserts it after the imports; [None] when the scan
    finds no complete component and control falls through. *)
Definition relocate (mdxContent : jsstring) (voices : list Voice) (hash : jsstring)
  (componentName : jsstring) : option jsstring :=
  let lines := split LF mdxContent in
  let st := scanLines componentName lines 0 scanStart in
  if (0 <=? componentStart st)%Z && (0 <=? componentEnd st)%Z then
    let lines :=
      if (0 <=? hashLine st)%Z && (hashLine st <? componentStart st)%Z
      then splice lines (hashLine st) (componentEnd st - hashLine st + 1) []
      else splice lines (componentStart st) (componentEnd st - componentStart st + 1) [] in
    let insertPos := (lastImportLine st + 1)%Z in
    let newHashComment := hashCommentOf hash in
    let newComponent := componentCodeOf componentName voices in
    let lines := splice lines insertPos 0 [[]; newHashComment; newComponent] in
    Some (join [LF] lines)
  else None.

(** The part of [injectAudioComponent] after the existing-component
    branch: insertion at the points found in the tree. *)
Definition insertFresh (mdxContent : jsstring) (voices : list Voice) (hash : jsstring)
  (componentName componentImport : jsstring) : Result jsstring :=
  let lines := split LF mdxContent in
  let importStatement := importStatementOf componentName componentImport in
  let hasImport := existsb (fun line => includes line (importHead componentName)) lines in
  points ← findInsertionPoints mdxContent;
  let hashComment := hashCommentOf hash in
  let componentCode := componentCodeOf componentName voices in
  let lines :=
    if hasImport then lines
    else splice lines (Z.of_nat (importPos points)) 0 [importStatement] in
  let adjustedComponentPos :=
    if hasImport then Z.of_nat (componentPos points)
    else (Z.of_nat (componentPos points) + 1)%Z in
  mret (join [LF] (placeBlock lines adjustedComponentPos hashComment componentCode)).

(** [injectAudioComponent(mdxContent, voices, hash, options)] *)
Definition injectAudioComponent (mdxContent : jsstring) (voices : list Voice)
  (hash : jsstring) (options : InjectOptions) : Result jsstring :=
  let componentImport := default defaultComponentImport (componentImport options) in
  let componentName := default defaultComponentName (componentName options) in
  present ← hasAudioComponent mdxContent componentName;
  let relocated :=
    if (present : bool) then relocate mdxContent voices hash componentName else None in
  match relocated with
  | Some updated => Returns updated
  | None => insertFresh mdxContent voices hash componentName componentImport
  end.
End Inject.

(* ===================================================================== *)
(** * commands/generate.ts                                                 *)
(* ===================================================================== *)

(** The fields of [ResolvedConfig] the commands read. *)
Record ResolvedConfig := {
  cfg_voiceIds : list jsstring;
  cfg_voiceNames : list jsstring;
  cfg_s3Bucket : jsstring;
  cfg_s3Region : jsstring;
  cfg_s3Endpoint : option jsstring;
  cfg_s3AccessKeyId : jsstring;
  cfg_s3SecretAccessKey : jsstring;
  cfg_s3PublicUrl : jsstring;
  cfg_s3PathPrefix : jsstring;
  cfg_componentImport : jsstring;
  cfg_componentName : jsstring;
  cfg_dryRun : bool
}.

(** The argument of [createS3Uploader]. *)
Definition uploaderConfig (config : ResolvedConfig) : S3Config :=
  {| bucket := cfg_s3Bucket config;
     region := cfg_s3Region config;
     endpoint := cfg_s3Endpoint config;
     accessKeyId := cfg_s3AccessKeyId config;
     secretAccessKey := cfg_s3SecretAccessKey config;
     publicUrl := cfg_s3PublicUrl config;
     pathPrefix := Some (cfg_s3PathPrefix config) |}.

Definition injectOptionsOf (config : ResolvedConfig) : InjectOptions :=
  {| componentImport := Some (cfg_componentImport config);
     componentName := Some (cfg_componentName config) |}.

(** What becomes of one file. *)
Inductive FileOutcome :=
| NoExtractableText
| ContentUnchanged (existingVoices : list Json)
| DryRunPreview (mockVoices : list Voice) (updatedContent : jsstring)
| Generated (newVoices : list Voice) (writtenContent : jsstring)
| Failed.

(** [existingData.hash === hash] *)
Definition hashMatches (existingData : ExistingData) (newHash : jsstring) : bool :=
  match hash existingData with
  | Some recorded => eqStr recorded newHash
  | None => false
  end.

(** [value] is the string [id]: the comparison of [includes]. *)
Definition isString (id : jsstring) (value : option Json) : bool :=
  match value with
  | Some (JString s) => eqStr id s
  | _ => false
  end.

(** [existingData.voiceIds.length === config.voiceIds.length &&
     config.voiceIds.every(id => existingData.voiceIds.includes(id))] *)
Definition voicesMatch (existingData : ExistingData) (requested : list jsstring) : bool :=
  (length (voiceIds existingData) =? length requested)%nat &&
  forallb (fun id => existsb (isString id) (voiceIds existingData)) requested.

(** [config.voiceNames[idx] || `Voice ${idx + 1}`] *)
Definition voiceNameAt (config : ResolvedConfig) (idx : nat) : jsstring :=
  orElse (cfg_voiceNames config !! idx) (js "Voice " ++ digitsOf (idx + 1)).

Section Generate.
Context `{Libraries}.
Variable config : ResolvedConfig.

(** The [mockVoices] of a dry run. *)
Definition mockVoicesFor (file : jsstring) : list Voice :=
  let slug := slugOf file in
  imap (fun idx id =>
          {| voice_id := id;
             voice_name := voiceNameAt config idx;
             voice_url :=
               Some (dropTrailingSlash (cfg_s3PublicUrl config) ++ js "/" ++
                     cfg_s3PathPrefix config ++ js "/" ++ slug ++ js "/" ++ id ++
                     js ".mp3") |})
       (cfg_voiceIds config).

(** The loop that synthesises and uploads voice by voice and fills
    [audioUrls]. *)
Fixpoint synthesizeAll (cleanText file : jsstring) (ids : list jsstring)
  (audioUrls : gmap jsstring jsstring) : Result (gmap jsstring jsstring) :=
  match ids with
  | [] => mret audioUrls
  | voiceId :: later =>
      buffer ← textToSpeech cleanText voiceId;
      _ ← putObject (generateKey (uploaderConfig config) file voiceId) buffer;
      synthesizeAll cleanText file later
        (<[voiceId := uploadedUrl (uploaderConfig config) file voiceId]> audioUrls)
  end.

(** The [voices] array built from [audioUrls]. *)
Definition voicesFrom (audioUrls : gmap jsstring jsstring) : list Voice :=
  imap (fun idx id =>
          {| voice_id := id;
             voice_name := voiceNameAt config idx;
             voice_url := Some (orElse (audioUrls !! id) []) |})
       (cfg_voiceIds config).

(** The body of the [try] block for one file; an exception is caught by
    the enclosing [catch] and recorded as a failure. *)
Definition processFileBody (file content : jsstring) : Result FileOutcome :=
  cleanText ← extractCleanText content;
  if eqStr (trim cleanText) [] then mret NoExtractableText else
  let newHash := generateHash cleanText in
  existingData ← extractExistingAudioData content (cfg_componentName config);
  let unchanged :=
    match existingData with
    | Some d => if hashMatches d newHash && voicesMatch d (cfg_voiceIds config)
                then Some (voices d) else None
    | None => None
    end in
  match unchanged with
  | Some existingVoices => mret (ContentUnchanged existingVoices)
  | None =>
      if cfg_dryRun config then
        let mockVoices := mockVoicesFor file in
        updatedContent ← injectAudioComponent content mockVoices newHash
                           (injectOptionsOf config);
        mret (DryRunPreview mockVoices updatedContent)
      else
        audioUrls ← synthesizeAll cleanText file (cfg_voiceIds config) ∅;
        let newVoices := voicesFrom audioUrls in
        updatedContent ← injectAudioComponent content newVoices newHash
                           (injectOptionsOf config);
        mret (Generated newVoices updatedContent)
  end.

Definition processFile (file content : jsstring) : FileOutcome :=
  match processFileBody file content with
  | Returns outcome => outcome
  | Throws => Failed
  end.
End Generate.

(* ===================================================================== *)
(** * commands/cleanup.ts                                                  *)
(* ===================================================================== *)

Inductive CleanupOutcome :=
| NoFilesFound
| NoOrphans
| DryRunReport (orphanedKeys : list jsstring)
| Deleted (orphanedKeys : list jsstring) (requests : list (list jsstring))
| CleanupFailed.

Section Cleanup.
Context `{Libraries}.
Variable config : ResolvedConfig.

(** The inner loop over the voices of one document: [voice.url] is read,
    and when it is truthy [extractKeyFromUrl] calls its [startsWith],
    which only a string has. *)
Fixpoint addVoiceKeys (found : list Json) (expectedKeys : gset jsstring)
  : Result (gset jsstring) :=
  match found with
  | [] => mret expectedKeys
  | voice :: later =>
      url ← getMember voice (js "url");
      if truthyValue url then
        match url with
        | Some (JString u) =>
            addVoiceKeys later
              ({[ extractKeyFromUrl (uploaderConfig config) u
                    (Some (cfg_s3PublicUrl config)) ]} ∪ expectedKeys)
        | _ => Throws
        end
      else addVoiceKeys later expectedKeys
  end.

(** The loop over the files (given by their contents) that fills
    [expectedKeys]. *)
Fixpoint scanFiles (contents : list jsstring) (expectedKeys : gset jsstring)
  : Result (gset jsstring) :=
  match contents with
  | [] => mret expectedKeys
  | content :: later =>
      existingData ← extractExistingAudioData content (cfg_componentName config);
      expectedKeys ←
        match existingData with
        | Some d =>
            if (0 <? length (voices d))%nat
            then addVoiceKeys (voices d) expectedKeys else mret expectedKeys
        | None => mret expectedKeys
        end;
      scanFiles later expectedKeys
  end.

(** [allS3Keys.filter((key) => !expectedKeys.has(key))] *)
Definition orphansOf (allS3Keys : list jsstring) (expectedKeys : gset jsstring)
  : list jsstring :=
  List.filter (fun key => negb (bool_decide (key ∈ expectedKeys))) allS3Keys.

(** [cleanupCommand]: the files by their contents, the answers of the
    storage listing; the storage calls themselves are taken to succeed. *)
Definition cleanupCommand (contents : list jsstring)
  (responses : list ListObjectsV2Output) : CleanupOutcome :=
  if (length contents =? 0)%nat then NoFilesFound else
  match scanFiles contents ∅ with
  | Throws => CleanupFailed
  | Returns expectedKeys =>
      let allS3Keys := listAllAudioFiles responses in
      let orphanedKeys := orphansOf allS3Keys expectedKeys in
      if (length orphanedKeys =? 0)%nat then NoOrphans
      else if cfg_dryRun config then DryRunReport orphanedKeys
      else Deleted orphanedKeys (deleteMultiple orphanedKeys)
  end.
End Cleanup.

(** The bucket after a cleanup run. *)
Definition bucketAfter (objects : list jsstring) (outcome : CleanupOutcome) : list jsstring :=
  match outcome with
  | Deleted _ requests => applyRequests objects requests
  | _ => objects
  end.

(** The orphans a cleanup run reports. *)
Definition reportedOrphans (outcome : CleanupOutcome) : option (list jsstring) :=
  match outcome with
  | NoOrphans => Some []
  | DryRunReport orphanedKeys => Some orphanedKeys
  | Deleted orphanedKeys _ => Some orphanedKeys
  | NoFilesFound | CleanupFailed => None
  end.

(* ===================================================================== *)
(** * extractor.ts: the end of the front matter                            *)
(* ===================================================================== *)

(** The first position at which [sub] occurs in [s], as the scan of a
    pattern finds it. *)
Fixpoint indexOf (s sub : jsstring) : option nat :=
  if startsWith s sub then Some O
  else match s with
       | [] => None
       | _ :: t => option_map S (indexOf t sub)
       end.

(** The two fences of [/^---\n[\s\S]*?\n---\n/]. *)
Definition fenceOpen : jsstring := js "---" ++ [LF].
Definition fenceClose : jsstring := [LF] ++ js "---" ++ [LF].

(** [findFrontmatterEnd(content)]: the pattern is anchored at the start of
    the text; the lazy [[\s\S]*?] takes the fewest code units that let the
    closing fence follow, so the match ends with the first closing fence
    behind the opening one.  The result is [match[0].length], or [0]. *)
Definition findFrontmatterEnd (content : jsstring) : nat :=
  if startsWith content fenceOpen then
    match indexOf (drop (length fenceOpen) content) fenceClose with
    | Some j => (length fenceOpen + j + length fenceClose)%nat
    | None => O
    end
  else O.

(* ===================================================================== *)
(** * hash-tracker.ts: the metadata file                                   *)
(* ===================================================================== *)

(** [interface AudioMetadata] *)
Record AudioMetadata := {
  meta_hash : jsstring;
  meta_lastUpdated : jsstring;
  meta_voices : list Voice
}.

(** [interface MetadataFile]: an object used as a map from file paths to
    their metadata.  A path that is not a key of its own reads as
    [undefined] or as a member of [Object.prototype], which has no [hash];
    the two tests of [hasContentChanged] answer [true] in both cases. *)
Abbreviation MetadataFile := (gmap jsstring AudioMetadata).

(** [hasContentChanged(filePath, newHash, metadata)] *)
Definition hasContentChanged (filePath newHash : jsstring) (metadata : MetadataFile) : bool :=
  match metadata !! filePath with
  | None => true
  | Some entry => if negb (eqStr (meta_hash entry) newHash) then true else false
  end.

(** [updateMetadata(metadata, filePath, hash, voices)]: the object after
    the assignment; [now] is [new Date().toISOString()]. *)
Definition updateMetadata (now : jsstring) (metadata : MetadataFile)
  (filePath hash : jsstring) (voices : list Voice) : MetadataFile :=
  <[filePath :=
      {| meta_hash := hash;
         meta_lastUpdated := now;
         meta_voices :=
           map (fun v => {| voice_id := voice_id v; voice_name := voice_name v;
                            voice_url := voice_url v |}) voices |}]> metadata.

(** [getFileMetadata(metadata, filePath)] for a path that is no member of
    [Object.prototype]. *)
Definition getFileMetadata (metadata : MetadataFile) (filePath : jsstring)
  : option AudioMetadata :=
  metadata !! filePath.

(* ===================================================================== *)
(** * git-utils.ts and utils.ts                                            *)
(* ===================================================================== *)

(** [getCurrentBranch(cwd)]; [revparse] is what
    [simpleGit(cwd).revparse(['--abbrev-ref', 'HEAD'])] gives. *)
Definition getCurrentBranch (revparse : Result jsstring) : jsstring :=
  match revparse with
  | Returns branch => orElse (Some (trim branch)) (js "main")
  | Throws => js "main"
  end.

Definition DEFAULT_IGNORE_PATTERNS : list jsstring :=
  [js "node_modules/**"; js "dist/**"; js ".git/**"; js "snippets/**"].

(** [loadSpeakIgnore(cwd)]; [file] is what reading [.speakignore] gives. *)
Definition loadSpeakIgnore (file : Result jsstring) : list jsstring :=
  match file with
  | Returns content =>
      List.filter (fun line => negb (eqStr line []) && negb (startsWith line (js "#")))
        (map trim (split LF content))
  | Throws => []
  end.

(** The [ignore] option [findMDXFiles] hands to [glob]. *)
Definition ignorePatterns (file : Result jsstring) : list jsstring :=
  DEFAULT_IGNORE_PATTERNS ++ loadSpeakIgnore file.


(* ===================================================================== *)
(** * config.ts and validators.ts                                          *)
(* ===================================================================== *)

(** [interface GenerateOptions]: the options the command line parser hands
    over; a missing option is [undefined]. *)
Record GenerateOptions := {
  opt_apiKey : option jsstring;
  opt_voices : option jsstring;
  opt_voiceNames : option jsstring;
  opt_s3Bucket : option jsstring;
  opt_s3Region : option jsstring;
  opt_s3Endpoint : option jsstring;
  opt_s3AccessKeyId : option jsstring;
  opt_s3SecretAccessKey : option jsstring;
  opt_s3PublicUrl : option jsstring;
  opt_s3PathPrefix : option jsstring;
  opt_componentImport : option jsstring;
  opt_componentName : option jsstring;
  opt_pattern : option jsstring;
  opt_dryRun : option bool;
  opt_verbose : option bool
}.

(** The variables of [process.env] that [resolveConfig] reads. *)
Record Environment := {
  FISH_API_KEY : option jsstring;
  S3_BUCKET : option jsstring;
  S3_ACCESS_KEY_ID : option jsstring;
  S3_SECRET_ACCESS_KEY : option jsstring;
  S3_PUBLIC_URL : option jsstring;
  S3_REGION : option jsstring;
  S3_ENDPOINT : option jsstring
}.

(** [interface SpeakerConfig], what [loadSpeakerConfig] returns (the empty
    object when the file is missing or invalid): the voices as the
    properties of the [voices] object, in the order of [Object.keys]. *)
Record ComponentConfig := {
  component_import : option jsstring;
  component_name : option jsstring
}.

Record SpeakerConfig := {
  yaml_voices : option (list (jsstring * jsstring));
  yaml_component : option ComponentConfig
}.

(** [interface ResolvedConfig] as [resolveConfig] returns it, with its
    optional fields. *)
Record Resolved := {
  r_fishApiKey : option jsstring;
  r_voiceIds : option (list jsstring);
  r_voiceNames : option (list jsstring);
  r_s3Bucket : jsstring;
  r_s3Region : jsstring;
  r_s3Endpoint : option jsstring;
  r_s3AccessKeyId : jsstring;
  r_s3SecretAccessKey : jsstring;
  r_s3PublicUrl : jsstring;
  r_s3PathPrefix : jsstring;
  r_componentImport : jsstring;
  r_componentName : jsstring;
  r_pattern : jsstring;
  r_dryRun : bool;
  r_verbose : bool
}.

(** [a || b] where [b] may be [undefined] too. *)
Definition orUndefined (a b : option jsstring) : option jsstring :=
  match a with
  | Some (c :: s) => Some (c :: s)
  | _ => b
  end.

(** [s.split(',').map((v) => v.trim())] *)
Definition voiceList (s : jsstring) : list jsstring := map trim (split COMMA s).

(** [voiceIds.map((_, i) => `Voice ${i + 1}`)] *)
Definition defaultVoiceNames (voiceIds : list jsstring) : list jsstring :=
  imap (fun i _ => js "Voice " ++ digitsOf (i + 1)) voiceIds.

(** The [missing] array of [resolveConfig]. *)
Definition missingSettings (options : GenerateOptions) (env : Environment) : list jsstring :=
  let s3Bucket := orUndefined (opt_s3Bucket options) (S3_BUCKET env) in
  let s3AccessKeyId := orUndefined (opt_s3AccessKeyId options) (S3_ACCESS_KEY_ID env) in
  let s3SecretAccessKey :=
    orUndefined (opt_s3SecretAccessKey options) (S3_SECRET_ACCESS_KEY env) in
  let s3PublicUrl := orUndefined (opt_s3PublicUrl options) (S3_PUBLIC_URL env) in
  (if truthy s3Bucket then [] else [js "S3_BUCKET (--s3-bucket or env var)"]) ++
  (if truthy s3AccessKeyId then []
   else [js "S3_ACCESS_KEY_ID (--s3-access-key-id or env var)"]) ++
  (if truthy s3SecretAccessKey then []
   else [js "S3_SECRET_ACCESS_KEY (--s3-secret-access-key or env var)"]) ++
  (if truthy s3PublicUrl then [] else [js "S3_PUBLIC_URL (--s3-public-url or env var)"]).

(** [resolveConfig(options, directory)]; [env] is [process.env] and
    [yamlConfig] what [loadSpeakerConfig(directory)] returned. *)
Definition resolveConfig (options : GenerateOptions) (env : Environment)
  (yamlConfig : SpeakerConfig) : Result Resolved :=
  let '(voiceIds, voiceNames) :=
    if truthy (opt_voices options) then
      let voiceIds := voiceList (default [] (opt_voices options)) in
      let voiceNames :=
        if truthy (opt_voiceNames options)
        then voiceList (default [] (opt_voiceNames options))
        else defaultVoiceNames voiceIds in
      (Some voiceIds, Some voiceNames)
    else
      match yaml_voices yamlConfig with
      | Some voices => (Some (map fst voices), Some (map snd voices))
      | None => (None, None)
      end in
  let fishApiKey := orUndefined (opt_apiKey options) (FISH_API_KEY env) in
  let s3Bucket := orUndefined (opt_s3Bucket options) (S3_BUCKET env) in
  let s3AccessKeyId := orUndefined (opt_s3AccessKeyId options) (S3_ACCESS_KEY_ID env) in
  let s3SecretAccessKey :=
    orUndefined (opt_s3SecretAccessKey options) (S3_SECRET_ACCESS_KEY env) in
  let s3PublicUrl := orUndefined (opt_s3PublicUrl options) (S3_PUBLIC_URL env) in
  let missing := missingSettings options env in
  if (0 <? length missing)%nat then Throws
  else
    mret {| r_fishApiKey := fishApiKey;
            r_voiceIds := voiceIds;
            r_voiceNames := voiceNames;
            r_s3AccessKeyId := default [] s3AccessKeyId;
            r_s3SecretAccessKey := default [] s3SecretAccessKey;
            r_s3Bucket := default [] s3Bucket;
            r_s3PublicUrl := default [] s3PublicUrl;
            r_s3Region :=
              orElse (orUndefined (opt_s3Region options) (S3_REGION env)) (js "us-east-1");
            r_s3Endpoint := orUndefined (opt_s3Endpoint options) (S3_ENDPOINT env);
            r_s3PathPrefix := orElse (opt_s3PathPrefix options) (js "audio");
            r_componentImport :=
              orElse (orUndefined (opt_componentImport options)
                        (c ← yaml_component yamlConfig; component_import c))
                defaultComponentImport;
            r_componentName :=
              orElse (orUndefined (opt_componentName options)
                        (c ← yaml_component yamlConfig; component_name c))
                defaultComponentName;
            r_pattern := orElse (opt_pattern options) (js "**/*.mdx");
            r_dryRun := default false (opt_dryRun options);
            r_verbose := default false (opt_verbose options) |}.

(** The [errors] array of [validateGenerateConfig] in validators.ts. *)
Definition generateConfigErrors (config : Resolved) : list jsstring :=
  (if truthy (r_fishApiKey config) then [] else [js "FISH_API_KEY (--api-key or env var)"]) ++
  (match r_voiceIds config with
   | Some (_ :: _) => []
   | _ => [js "Voices (--voices flag or speaker-config.yaml)"]
   end) ++
  (match r_voiceNames config with
   | Some (_ :: _) => []
   | _ => [js "Voice names (--voice-names flag or speaker-config.yaml)"]
   end) ++
  (match r_voiceIds config, r_voiceNames config with
   | Some ids, Some names =>
       if negb (length ids =? length names)%nat
       then [js "Voice IDs and names must have the same length (got "
             ++ digitsOf (length ids) ++ js " IDs and "
             ++ digitsOf (length names) ++ js " names)"]
       else []
   | _, _ => []
   end).

(** [validateGenerateConfig(config)] of validators.ts *)
Definition validateGenerateConfig (config : Resolved) : Result unit :=
  if (0 <? length (generateConfigErrors config))%nat then Throws else mret tt.

(** [validateGenerateConfig(config)], the local function of generate.ts *)
Definition validateGenerateConfig_local (config : Resolved) : Result unit :=
  let missing :=
    (if truthy (r_fishApiKey config) then [] else [js "FISH_API_KEY (--api-key or env var)"]) ++
    (match r_voiceIds config with
     | Some (_ :: _) => []
     | _ => [js "Voices (--voices flag or speaker-config.yaml)"]
     end) in
  if (0 <? length missing)%nat then Throws else mret tt.

(** The configuration as the commands read it after validation:
    [config.voiceIds!] and [config.voiceNames!].  [resolveConfig] sets the
    two lists both or neither, and the validation refuses a configuration
    without voice ids, so the empty list stands for a value the command
    never reads. *)
Definition commandConfig (config : Resolved) : ResolvedConfig :=
  {| cfg_voiceIds := default [] (r_voiceIds config);
     cfg_voiceNames := default [] (r_voiceNames config);
     cfg_s3Bucket := r_s3Bucket config;
     cfg_s3Region := r_s3Region config;
     cfg_s3Endpoint := r_s3Endpoint config;
     cfg_s3AccessKeyId := r_s3AccessKeyId config;
     cfg_s3SecretAccessKey := r_s3SecretAccessKey config;
     cfg_s3PublicUrl := r_s3PublicUrl config;
     cfg_s3PathPrefix := r_s3PathPrefix config;
     cfg_componentImport := r_componentImport config;
     cfg_componentName := r_componentName config;
     cfg_dryRun := r_dryRun config |}.


(* ===================================================================== *)
(** * commands/generate.ts: the loop over the files and the summary        *)
(* ===================================================================== *)

(** [interface ProcessingResult]; a missing [skipped] is [false], the
    text of [error] is the message of the exception.  The voices are the
    array parsed from the document or the voice objects of the run. *)
Record ProcessingResult := {
  pr_file : jsstring;
  pr_success : bool;
  pr_voices : list Json;
  pr_skipped : bool;
  pr_reason : option jsstring
}.

(** The object pushed to [results] for each way a file can end. *)
Definition resultOf (file : jsstring) (outcome : FileOutcome) : ProcessingResult :=
  match outcome with
  | NoExtractableText =>
      {| pr_file := file; pr_success := true; pr_voices := [];
         pr_skipped := true; pr_reason := Some (js "No extractable text") |}
  | ContentUnchanged existingVoices =>
      {| pr_file := file; pr_success := true; pr_voices := existingVoices;
         pr_skipped := true; pr_reason := Some (js "Content unchanged") |}
  | DryRunPreview mockVoices _ =>
      {| pr_file := file; pr_success := true; pr_voices := map voiceJson mockVoices;
         pr_skipped := true; pr_reason := Some (js "Dry run") |}
  | Generated newVoices _ =>
      {| pr_file := file; pr_success := true; pr_voices := map voiceJson newVoices;
         pr_skipped := false; pr_reason := None |}
  | Failed =>
      {| pr_file := file; pr_success := false; pr_voices := [];
         pr_skipped := false; pr_reason := None |}
  end.

(** One file of the loop: its path relative to the directory, what
    [readFile] gives for it at its turn, and what [writeFile] gives for a
    text. *)
Record FileAccess := {
  fa_file : jsstring;
  fa_read : Result jsstring;
  fa_write : jsstring -> Result unit
}.

(** The body of the loop for one file, the enclosing [catch] included:
    the outcome and the texts handed to [writeFile]. *)
Definition processAccess `{Libraries} (config : ResolvedConfig) (access : FileAccess)
  : FileOutcome * list (jsstring * jsstring) :=
  match fa_read access with
  | Throws => (Failed, [])
  | Returns content =>
      match processFile config (fa_file access) content with
      | Generated newVoices updatedContent =>
          match fa_write access updatedContent with
          | Returns _ =>
              (Generated newVoices updatedContent, [(fa_file access, updatedContent)])
          | Throws => (Failed, [(fa_file access, updatedContent)])
          end
      | outcome => (outcome, [])
      end
  end.

(** The three counts of the summary. *)
Record Summary := { successful : nat; skipped : nat; failed : nat }.

Definition summaryOf (results : list ProcessingResult) : Summary :=
  {| successful := length (List.filter (fun r => pr_success r && negb (pr_skipped r)) results);
     skipped := length (List.filter (fun r => pr_skipped r) results);
     failed := length (List.filter (fun r => negb (pr_success r)) results) |}.

(** How [generateCommand] ends: with the outer [catch] (the process exits
    with status 1), with the warning that no file was found, or with the
    summary of the results; [writes] are the calls of [writeFile]. *)
Inductive GenerateReport :=
| GenerateFailed
| NoMdxFiles
| Report (results : list ProcessingResult) (summary : Summary)
    (writes : list (jsstring * jsstring)).

(** [generateCommand(directory, options)]; [found] is what the
    construction of the two clients and [findMDXFiles] give (an exception
    of either ends the command), each file with its access. *)
Definition generateCommand `{Libraries} (options : GenerateOptions) (env : Environment)
  (yamlConfig : SpeakerConfig) (found : Result (list FileAccess)) : GenerateReport :=
  match resolveConfig options env yamlConfig with
  | Throws => GenerateFailed
  | Returns config =>
      match validateGenerateConfig_local config with
      | Throws => GenerateFailed
      | Returns _ =>
          match found with
          | Throws => GenerateFailed
          | Returns files =>
              if (length files =? 0)%nat then NoMdxFiles
              else
                let results :=
                  map (fun access =>
                         resultOf (fa_file access)
                           (fst (processAccess (commandConfig config) access))) files in
                let writes :=
                  concat (map (fun access =>
                                 snd (processAccess (commandConfig config) access)) files) in
                Report results (summaryOf results) writes
          end
      end
  end.


(* ===================================================================== *)
(** * Notions used in the statements                                       *)
(* ===================================================================== *)

(** A run of three consecutive newlines somewhere in [s]. *)
Definition hasTripleLF (s : jsstring) : Prop :=
  exists pre post, s = pre ++ [LF; LF; LF] ++ post.

Fixpoint tripleFree (s : jsstring) : bool :=
  match s with
  | [] => true
  | _ :: t => negb (startsWith s [LF; LF; LF]) && tripleFree t
  end.

(** Newlines at the front of [s]. *)
Definition leadingLF (s : jsstring) : nat := countWhile (N.eqb LF) s.

(** The nodes of a tree in document order. *)
Fixpoint preorder (node : Node) : list Node :=
  node :: concat (map preorder (node_children node)).

(** The last ['.'] of a path segment and what follows it, when the segment
    does not start with that ['.']. *)
Definition dropExtension (segment : jsstring) : jsstring :=
  let tailLength := countWhile (fun c => negb (c =? DOT)) (rev segment) in
  if (S tailLength <? length segment)%nat
  then take (length segment - S tailLength) segment
  else segment.

(** A path without the extension of its file name. *)
Definition withoutExtension (filePath : jsstring) : jsstring :=
  match rev (split 47 filePath) with
  | fileName :: dirs => join (js "/") (rev (dropExtension fileName :: dirs))
  | [] => filePath
  end.

(** The storage key as the specification words it: the slug drops the
    file extension, takes the last two path segments, joins them with
    ['-'] and lower-cases.  Compared with [generateKey] below. *)
Definition generateKey_worded `{Libraries} (config : S3Config)
  (filePath voiceId : jsstring) : jsstring :=
  let slug := toLowerCase (join (js "-") (sliceLast 2 (split 47 (withoutExtension filePath)))) in
  orElse (pathPrefix config) (js "audio") ++ js "/" ++ slug ++ js "/" ++ voiceId ++ js ".mp3".


(** Lower-casing of the ASCII letters. *)
Definition asciiLower (s : jsstring) : jsstring :=
  map (fun c => if isUpper c then c + 32 else c) s.

(** A path segment: no ['/'] in it. *)
Definition slashFree (segment : jsstring) : Prop := 47 ∉ segment.

(** The string [s] as a value of the language. *)
Definition stringValue (s : jsstring) : option Json := Some (JString s).

(** The key a voice URL stands for in the cleanup command. *)
Definition keyOfUrl `{Libraries} (config : ResolvedConfig) (u : jsstring) : jsstring :=
  extractKeyFromUrl (uploaderConfig config) u (Some (cfg_s3PublicUrl config)).


(** [v.id] of an element that is not [null]. *)
Definition idOf (v : Json) : option Json :=
  match v with
  | JObject members => ownProperty members (js "id")
  | _ => None
  end.

Definition isNull (v : Json) : bool :=
  match v with
  | JNull => true
  | _ => false
  end.

(** What a node assigns to [foundVoices]: the parsed payload of a
    component of the given name that carries a non-empty, JSON-parseable
    [voices] attribute. *)
Definition carriesVoices `{Libraries} (componentName : jsstring) (node : Node)
  : option Json :=
  if isJsxElement (node_type node) && nameIs (node_name node) componentName then
    match List.find (fun attr => nameIs (attr_name attr) (js "voices")) (node_attributes node) with
    | Some voicesAttr =>
        if valueTruthy (attr_value voicesAttr)
        then JSON_parse (jsonStrOf (attr_value voicesAttr)) else None
    | None => None
    end
  else None.






(** A configuration with its [dryRun] flag set to [flag]. *)
Definition withDryRun (flag : bool) (config : ResolvedConfig) : ResolvedConfig :=
  {| cfg_voiceIds := cfg_voiceIds config;
     cfg_voiceNames := cfg_voiceNames config;
     cfg_s3Bucket := cfg_s3Bucket config;
     cfg_s3Region := cfg_s3Region config;
     cfg_s3Endpoint := cfg_s3Endpoint config;
     cfg_s3AccessKeyId := cfg_s3AccessKeyId config;
     cfg_s3SecretAccessKey := cfg_s3SecretAccessKey config;
     cfg_s3PublicUrl := cfg_s3PublicUrl config;
     cfg_s3PathPrefix := cfg_s3PathPrefix config;
     cfg_componentImport := cfg_componentImport config;
     cfg_componentName := cfg_componentName config;
     cfg_dryRun := flag |}.

(** The [voices] array of a run whose uploads all succeeded: one entry per
    requested id, in order, with the URL [uploadAudio] returned for it. *)
Definition uploadedVoices `{Libraries} (config : ResolvedConfig) (file : jsstring)
  : list Voice :=
  imap (fun idx id =>
          {| voice_id := id;
             voice_name := voiceNameAt config idx;
             voice_url := Some (uploadedUrl (uploaderConfig config) file id) |})
       (cfg_voiceIds config).

(** What a node assigns to [foundHash]: the digits of the hash annotation
    in the value of an expression node. *)
Definition carriesHash (node : Node) : option jsstring :=
  if isExpressionNode (node_type node) then hashMatch (default [] (node_value node))
  else None.

(** A line the scan of [injectAudioComponent] takes for an import:
    [line.trim().startsWith('import ')]. *)
Definition isImportLine (line : jsstring) : bool := startsWith (trim line) (js "import ").

(** The number of lines up to and including the last import line; [0]
    when there is none. *)
Fixpoint lastImportEnd (lines : list jsstring) : nat :=
  match lines with
  | [] => O
  | line :: later =>
      match lastImportEnd later with
      | O => if isImportLine line then 1%nat else O
      | S k => S (S k)
      end
  end.

(** The number of lines of the text that joins the elements of [lines]
    with newlines; an element may hold newlines of its own. *)
Definition textLines (lines : list jsstring) : nat :=
  length (concat (map (split LF) lines)).




(* --------------------------------------------------------------------- *)
(** ** A stand-in for the libraries, to run the code on sample documents   *)
(* --------------------------------------------------------------------- *)

Definition sampleVoices : list Voice :=
  [{| voice_id := js "v1"; voice_name := js "A";
      voice_url := Some (js "https://cdn.example.com/audio/docs-intro/v1.mp3") |}].

(** A document without narration: a heading directly on line 1. *)
Definition docFresh : jsstring := join [LF] [js "# Title"; []; js "Hello."; []].

(** The same document with its narration block, separated by blank
    lines. *)
Definition docNarrated : jsstring :=
  join [LF]
    [importStatementOf defaultComponentName defaultComponentImport; [];
     hashCommentOf (js "0a1b");
     componentCodeOf defaultComponentName sampleVoices; [];
     js "# Title"; []; js "Hello."; []].

(** Two recorded voices, with ids a and b. *)
Definition voicesAB : list Voice :=
  [{| voice_id := js "a"; voice_name := js "A";
      voice_url := Some (js "https://cdn.example.com/audio/docs-intro/a.mp3") |};
   {| voice_id := js "b"; voice_name := js "B";
      voice_url := Some (js "https://cdn.example.com/audio/docs-intro/b.mp3") |}].

(** The document narrated with these two voices. *)
Definition docTwoVoices : jsstring :=
  join [LF]
    [importStatementOf defaultComponentName defaultComponentImport; [];
     hashCommentOf (js "0a1b");
     componentCodeOf defaultComponentName voicesAB; [];
     js "# Title"; []; js "Hello."; []].

(** The document with a hash annotation left behind and no component. *)
Definition docAnnotated : jsstring :=
  join [LF] [hashCommentOf (js "0a1b"); []; js "# Title"; []; js "Hello."; []].

Definition sampleText : jsstring := js "Title" ++ [LF; LF] ++ js "Hello." ++ [LF].

Definition spanOf (from to : nat) : option Position :=
  Some {| pos_start := Some {| line := from; column := 1 |};
          pos_end := Some {| line := to; column := 1 |} |}.

Definition leaf (type : NodeType) (from to : nat) : Node :=
  MkNode type None None [] [] (spanOf from to).

(** A heading or paragraph holding one text node. *)
Definition block (type : NodeType) (text : jsstring) (at_line : nat) : Node :=
  MkNode type None None []
    [MkNode (otherType (js "text")) (Some text) None [] [] (spanOf at_line at_line)]
    (spanOf at_line at_line).

(** The text of a subtree. *)
Fixpoint textOf (node : Node) : jsstring :=
  default [] (node_value node) ++ concat (map textOf (node_children node)).

(** A plain rendering: the texts of the blocks under the root, a blank
    line between them and a newline at the end. *)
Definition sampleRender (tree : Node) : jsstring :=
  match node_children tree with
  | [] => []
  | blocks => join [LF; LF] (map textOf blocks) ++ [LF]
  end.

(** The root without its import/export statements. *)
Definition sampleRemoveEsm (tree : Node) : Node :=
  match tree with
  | MkNode type value name attributes children position =>
      MkNode type value name attributes
        (List.filter (fun child => negb (isEsm (node_type child))) children) position
  end.

Definition astFresh : Node :=
  MkNode root None None [] [block heading (js "Title") 1; block paragraph (js "Hello.") 3] (spanOf 1 4).

Definition astNarrated : Node :=
  MkNode root None None []
    [leaf mdxjsEsm 1 1;
     MkNode mdxFlowExpression (Some (js "/* speak-mintlify-hash: 0a1b */")) None [] []
       (spanOf 3 3);
     MkNode mdxJsxFlowElement None (Some defaultComponentName)
       [{| attr_name := Some (js "voices");
           attr_value := Some (AttrExpression (voicesFormatted sampleVoices)) |}]
       [] (spanOf 4 10);
     block heading (js "Title") 12; block paragraph (js "Hello.") 14]
    (spanOf 1 15).

Definition astTwoVoices : Node :=
  MkNode root None None []
    [leaf mdxjsEsm 1 1;
     MkNode mdxFlowExpression (Some (js "/* speak-mintlify-hash: 0a1b */")) None [] []
       (spanOf 3 3);
     MkNode mdxJsxFlowElement None (Some defaultComponentName)
       [{| attr_name := Some (js "voices");
           attr_value := Some (AttrExpression (voicesFormatted voicesAB)) |}]
       [] (spanOf 4 15);
     block heading (js "Title") 17; block paragraph (js "Hello.") 19]
    (spanOf 1 20).

Definition astAnnotated : Node :=
  MkNode root None None []
    [MkNode mdxFlowExpression (Some (js "/* speak-mintlify-hash: 0a1b */")) None [] []
       (spanOf 1 1);
     block heading (js "Title") 3; block paragraph (js "Hello.") 5]
    (spanOf 1 6).

(** A document that imports the component in another spelling, without
    blanks inside the braces. *)
Definition docImported : jsstring :=
  join [LF]
    [js "import {AudioTranscript} from '/snippets/audio-transcript.jsx';"; [];
     js "# Title"; []].

Definition astImported : Node :=
  MkNode root None None []
    [MkNode mdxjsEsm
       (Some (js "import {AudioTranscript} from '/snippets/audio-transcript.jsx';"))
       None [] [] (spanOf 1 1);
     block heading (js "Title") 3]
    (spanOf 1 4).

(** A document whose heading stands above its import. *)
Definition docHeadingFirst : jsstring :=
  join [LF] [js "# Title"; []; js "import a from 'a'"; []; js "Text"; []].

Definition astHeadingFirst : Node :=
  MkNode root None None []
    [block heading (js "Title") 1;
     MkNode mdxjsEsm (Some (js "import a from 'a'")) None [] [] (spanOf 3 3);
     block paragraph (js "Text") 5]
    (spanOf 1 6).

(** A block written by hand: the payload of the component is a string. *)
Definition docStringPayload : jsstring :=
  join [LF]
    [hashCommentOf (js "0a1b");
     js "<AudioTranscript voices={" ++ quoteJSON (js "abc") ++ js "} />"; [];
     js "# Title"; []; js "Hello."; []].

(** The tree of a document whose component carries the given payload. *)
Definition astWithPayload (payload : jsstring) : Node :=
  MkNode root None None []
    [MkNode mdxFlowExpression (Some (js "/* speak-mintlify-hash: 0a1b */")) None [] []
       (spanOf 1 1);
     MkNode mdxJsxFlowElement None (Some defaultComponentName)
       [{| attr_name := Some (js "voices");
           attr_value := Some (AttrExpression payload) |}]
       [] (spanOf 2 2);
     block heading (js "Title") 4; block paragraph (js "Hello.") 6]
    (spanOf 1 7).

(** The same block with an empty list of voices. *)
Definition docEmptyVoices : jsstring :=
  join [LF]
    [hashCommentOf (js "0a1b"); js "<AudioTranscript voices={[]} />"; [];
     js "# Title"; []; js "Hello."; []].

(** The trees of the sample documents and of the empty document, an
    exception for any other text (as the parser raises one on malformed
    markup); the plain rendering; ASCII lower-casing; a two-valued
    digest. *)
#[local] Instance sampleLibraries : Libraries := {|
  parseMDX content :=
    if eqStr content [] then Returns (MkNode root None None [] [] None)
    else if eqStr content docFresh then Returns astFresh
    else if eqStr content docNarrated then Returns astNarrated
    else if eqStr content docTwoVoices then Returns astTwoVoices
    else if eqStr content docAnnotated then Returns astAnnotated
    else if eqStr content docStringPayload
         then Returns (astWithPayload (quoteJSON (js "abc")))
    else if eqStr content docEmptyVoices then Returns (astWithPayload (js "[]"))
    else if eqStr content docImported then Returns astImported
    else if eqStr content docHeadingFirst then Returns astHeadingFirst
    else Throws;
  JSON_parse source :=
    if eqStr source (voicesFormatted sampleVoices) then Some (JArray (map voiceJson sampleVoices))
    else if eqStr source (voicesFormatted voicesAB) then Some (JArray (map voiceJson voicesAB))
    else if eqStr source (js "[]") then Some (JArray [])
    else if eqStr source (js "null") then Some JNull
    else if eqStr source (quoteJSON (js "abc")) then Some (JString (js "abc"))
    else None;
  ToNumber _ := Returns None;
  sha256_hex text := if eqStr text (trim sampleText) then js "0a1b" else js "ffff";
  toLowerCase := asciiLower;
  matter_content content := Returns content;
  remarkMdxRemoveEsm := sampleRemoveEsm;
  renderPlainText tree := Returns (sampleRender tree);
  URL_pathname _ := None;
  RegExp_test _ _ := Throws;
  textToSpeech _ _ := Returns [];
  putObject _ _ := Returns tt
|}.

Definition sampleConfig : ResolvedConfig :=
  {| cfg_voiceIds := [js "v1"];
     cfg_voiceNames := [js "A"];
     cfg_s3Bucket := js "docs-audio";
     cfg_s3Region := js "us-east-1";
     cfg_s3Endpoint := None;
     cfg_s3AccessKeyId := js "id";
     cfg_s3SecretAccessKey := js "secret";
     cfg_s3PublicUrl := js "https://cdn.example.com";
     cfg_s3PathPrefix := js "audio";
     cfg_componentImport := defaultComponentImport;
     cfg_componentName := defaultComponentName;
     cfg_dryRun := false |}.

(** The same configuration with the voice id a requested twice, as
    [--voices a,a] gives it. *)
Definition configRepeated : ResolvedConfig :=
  {| cfg_voiceIds := [js "a"; js "a"];
     cfg_voiceNames := [js "A"; js "A"];
     cfg_s3Bucket := js "docs-audio";
     cfg_s3Region := js "us-east-1";
     cfg_s3Endpoint := None;
     cfg_s3AccessKeyId := js "id";
     cfg_s3SecretAccessKey := js "secret";
     cfg_s3PublicUrl := js "https://cdn.example.com";
     cfg_s3PathPrefix := js "audio";
     cfg_componentImport := defaultComponentImport;
     cfg_componentName := defaultComponentName;
     cfg_dryRun := false |}.

(** What [extractExistingAudioData] finds in [docNarrated]. *)
Definition sampleData : ExistingData :=
  {| hash := Some (js "0a1b"); voiceIds := [Some (JString (js "v1"))];
     voices := map voiceJson sampleVoices |}.

(** One answer listing two objects, one of them referenced by
    [docNarrated]. *)
Definition sampleObjects : list jsstring :=
  [js "audio/docs-intro/v1.mp3"; js "audio/old-page/v1.mp3"].

Definition sampleListing (objects : list jsstring) : list ListObjectsV2Output :=
  [{| Contents := Some (map Some objects); NextContinuationToken := None |}].

(** What the first run writes for [docFresh]. *)
Definition docFirstRun : jsstring :=
  join [LF]
    ([importStatementOf defaultComponentName defaultComponentImport;
      hashCommentOf (js "0a1b");
      componentCodeOf defaultComponentName sampleVoices; []]
     ++ split LF docFresh).

(** Options, environment and YAML file that resolve to [sampleConfig]:
    the voice on the command line, the storage settings in the
    environment, the defaults the command line parser fills in. *)
Definition sampleOptions : GenerateOptions :=
  {| opt_apiKey := None;
     opt_voices := Some (js "v1");
     opt_voiceNames := Some (js "A");
     opt_s3Bucket := None;
     opt_s3Region := None;
     opt_s3Endpoint := None;
     opt_s3AccessKeyId := None;
     opt_s3SecretAccessKey := None;
     opt_s3PublicUrl := None;
     opt_s3PathPrefix := Some (js "audio");
     opt_componentImport := Some defaultComponentImport;
     opt_componentName := Some defaultComponentName;
     opt_pattern := Some (js "**/*.mdx");
     opt_dryRun := Some false;
     opt_verbose := Some false |}.

(** The same options with two padded voice ids and no names. *)
Definition optionsTwoVoices : GenerateOptions :=
  {| opt_apiKey := None;
     opt_voices := Some (js "v1, v2");
     opt_voiceNames := None;
     opt_s3Bucket := None;
     opt_s3Region := None;
     opt_s3Endpoint := None;
     opt_s3AccessKeyId := None;
     opt_s3SecretAccessKey := None;
     opt_s3PublicUrl := None;
     opt_s3PathPrefix := Some (js "audio");
     opt_componentImport := Some defaultComponentImport;
     opt_componentName := Some defaultComponentName;
     opt_pattern := Some (js "**/*.mdx");
     opt_dryRun := Some false;
     opt_verbose := Some false |}.

(** The sample options with [--dry-run]. *)
Definition optionsDryRun : GenerateOptions :=
  {| opt_apiKey := None;
     opt_voices := Some (js "v1");
     opt_voiceNames := Some (js "A");
     opt_s3Bucket := None;
     opt_s3Region := None;
     opt_s3Endpoint := None;
     opt_s3AccessKeyId := None;
     opt_s3SecretAccessKey := None;
     opt_s3PublicUrl := None;
     opt_s3PathPrefix := Some (js "audio");
     opt_componentImport := Some defaultComponentImport;
     opt_componentName := Some defaultComponentName;
     opt_pattern := Some (js "**/*.mdx");
     opt_dryRun := Some true;
     opt_verbose := Some false |}.

Definition sampleEnvironment : Environment :=
  {| FISH_API_KEY := Some (js "key");
     S3_BUCKET := Some (js "docs-audio");
     S3_ACCESS_KEY_ID := Some (js "id");
     S3_SECRET_ACCESS_KEY := Some (js "secret");
     S3_PUBLIC_URL := Some (js "https://cdn.example.com");
     S3_REGION := None;
     S3_ENDPOINT := None |}.

Definition sampleYaml : SpeakerConfig :=
  {| yaml_voices := Some [(js "y1", js "Yaml voice")]; yaml_component := None |}.

(** Three files: the fresh document, the narrated one and a malformed
    one; every write succeeds. *)
Definition sampleFiles : list FileAccess :=
  [{| fa_file := js "docs/intro.mdx"; fa_read := Returns docFresh;
      fa_write := fun _ => Returns tt |};
   {| fa_file := js "docs/done.mdx"; fa_read := Returns docNarrated;
      fa_write := fun _ => Returns tt |};
   {| fa_file := js "docs/bad.mdx"; fa_read := Returns (js "<Card>");
      fa_write := fun _ => Returns tt |}].

(** The narrated sample document after a regeneration with the two
    voices: the new block stands behind the import statement, the blank
    line that preceded the old block follows it. *)
Definition docRegenerated : jsstring :=
  join [LF]
    [importStatementOf defaultComponentName defaultComponentImport; [];
     hashCommentOf (js "ffff");
     componentCodeOf defaultComponentName voicesAB; []; [];
     js "# Title"; []; js "Hello."; []].

(** A configuration written by hand with an empty path prefix, which
    [resolveConfig] never returns. *)
Definition configNoPrefix : ResolvedConfig :=
  {| cfg_voiceIds := [js "v1"];
     cfg_voiceNames := [js "A"];
     cfg_s3Bucket := js "docs-audio";
     cfg_s3Region := js "us-east-1";
     cfg_s3Endpoint := None;
     cfg_s3AccessKeyId := js "id";
     cfg_s3SecretAccessKey := js "secret";
     cfg_s3PublicUrl := js "https://cdn.example.com";
     cfg_s3PathPrefix := [];
     cfg_componentImport := defaultComponentImport;
     cfg_componentName := defaultComponentName;
     cfg_dryRun := true |}.

(* ===================================================================== *)
(** * Properties of the batched deletion                                   *)
(* ===================================================================== *)

Lemma batchSize_pos : (0 < batchSize)%nat.
Proof. unfold batchSize. lia. Qed.

Section DeleteLoop.
Local Opaque batchSize.

Lemma slice_batch (keys : list jsstring) (i : nat) :
  slice i (i + batchSize) keys = take batchSize (drop i keys).
Proof. unfold slice. f_equal. lia. Qed.

(** With enough fuel the loop sends the rest of the keys, in order. *)
Lemma deleteLoop_concat (fuel : nat) :
  forall (keys : list jsstring) (i : nat) (sent : list (list jsstring)),
    (length keys - i <= fuel)%nat ->
    concat (deleteLoop fuel keys i sent) = concat sent ++ drop i keys.
Proof.
  induction fuel as [|fuel IH]; intros keys i sent Hfuel; simpl.
  - rewrite drop_ge by lia. now rewrite app_nil_r.
  - destruct (Nat.ltb_spec i (length keys)) as [Hlt|Hge].
    + rewrite IH by (pose proof batchSize_pos; lia).
      rewrite concat_app. simpl. rewrite app_nil_r, slice_batch, <- app_assoc.
      f_equal. rewrite <- (take_drop batchSize (drop i keys)) at 2.
      f_equal. rewrite drop_drop. reflexivity.
    + rewrite drop_ge by lia. now rewrite app_nil_r.
Qed.

Lemma deleteLoop_bounds (fuel : nat) :
  forall (keys : list jsstring) (i : nat) (sent : list (list jsstring)),
    Forall (fun batch => (0 < length batch <= batchSize)%nat) sent ->
    Forall (fun batch => (0 < length batch <= batchSize)%nat) (deleteLoop fuel keys i sent).
Proof.
  induction fuel as [|fuel IH]; intros keys i sent Hsent; simpl; [assumption|].
  destruct (Nat.ltb_spec i (length keys)) as [Hlt|Hge]; [|assumption].
  apply IH. apply Forall_app. split; [assumption|].
  constructor; [|constructor].
  rewrite slice_batch, length_take, length_drop.
  pose proof batchSize_pos. lia.
Qed.

(** The [j]-th request after the ones already sent is the [j]-th window
    of [batchSize] keys. *)
Lemma deleteLoop_lookup (fuel : nat) :
  forall (keys : list jsstring) (i : nat) (sent : list (list jsstring)) (j : nat) batch,
    deleteLoop fuel keys i sent !! (length sent + j)%nat = Some batch ->
    batch = slice (i + j * batchSize) (i + j * batchSize + batchSize) keys.
Proof.
  induction fuel as [|fuel IH]; intros keys i sent j batch; simpl.
  - intros Hl. apply lookup_lt_Some in Hl. lia.
  - destruct (Nat.ltb_spec i (length keys)) as [Hlt|Hge].
    + destruct j as [|j].
      * intros Hl.
        assert (Hpre : forall fuel' i' (sent' : list (list jsstring)) k b,
                   sent' !! k = Some b -> deleteLoop fuel' keys i' sent' !! k = Some b).
        { clear. induction fuel' as [|f IHf]; intros i' sent' k b Hk; simpl; [assumption|].
          destruct (i' <? length keys)%nat; [|assumption].
          apply IHf. now apply lookup_app_l_Some. }
        rewrite (Hpre fuel (i + batchSize)%nat (sent ++ [slice i (i + batchSize) keys])
                   (length sent + 0)%nat (slice i (i + batchSize) keys)) in Hl.
        -- injection Hl as <-. f_equal; lia.
        -- rewrite Nat.add_0_r, lookup_app_r by lia.
           now rewrite Nat.sub_diag.
      * intros Hl.
        specialize (IH keys (i + batchSize)%nat (sent ++ [slice i (i + batchSize) keys]) j batch).
        rewrite length_app in IH. simpl in IH.
        replace (length sent + 1 + j)%nat with (length sent + S j)%nat in IH by lia.
        rewrite (IH Hl). f_equal; lia.
    + intros Hl. apply lookup_lt_Some in Hl. lia.
Qed.

Lemma deleteLoop_length (fuel : nat) :
  forall (keys : list jsstring) (i : nat) (sent : list (list jsstring)),
    (length keys - i <= fuel)%nat ->
    length (deleteLoop fuel keys i sent) =
    (length sent + (length keys - i + batchSize - 1) / batchSize)%nat.
Proof.
  pose proof batchSize_pos as Hpos.
  induction fuel as [|fuel IH]; intros keys i sent Hfuel; simpl.
  - replace (length keys - i)%nat with 0%nat by lia.
    rewrite Nat.div_small by lia. lia.
  - destruct (Nat.ltb_spec i (length keys)) as [Hlt|Hge].
    + rewrite IH by lia. rewrite length_app. simpl.
      destruct (Nat.le_gt_cases (i + batchSize) (length keys)) as [Hfull|Hshort].
      * replace (length keys - i + batchSize - 1)%nat
          with ((length keys - (i + batchSize) + batchSize - 1) + 1 * batchSize)%nat by lia.
        rewrite Nat.div_add by lia. lia.
      * (* the last, short batch *)
        replace (length keys - (i + batchSize))%nat with 0%nat by lia.
        rewrite (Nat.div_small (0 + batchSize - 1)) by lia.
        assert (Hone : ((length keys - i + batchSize - 1) / batchSize = 1)%nat).
        { replace (length keys - i + batchSize - 1)%nat
            with ((length keys - i - 1) + 1 * batchSize)%nat by lia.
          rewrite Nat.div_add by lia. rewrite Nat.div_small by lia. reflexivity. }
        lia.
    + replace (length keys - i)%nat with 0%nat by lia.
      rewrite Nat.div_small by lia. lia.
Qed.
End DeleteLoop.

(** C8.  For every list of keys, [deleteMultiple] sends the keys in
    consecutive batches: the [j]-th request holds the keys at positions
    [j * 1000] to [j * 1000 + 999]; the requests put end to end are the input
    list, so every key is requested exactly once; no request is empty or
    holds more than 1000 keys; there are [ceil(n / 1000)] requests; and
    the empty list sends nothing. *)
Theorem deleteMultiple_batches (keys : list jsstring) :
  batchSize = 1000%nat /\
  concat (deleteMultiple keys) = keys /\
  Forall (fun batch => (0 < length batch <= batchSize)%nat) (deleteMultiple keys) /\
  (forall j batch, deleteMultiple keys !! j = Some batch ->
     batch = slice (j * batchSize) (j * batchSize + batchSize) keys) /\
  length (deleteMultiple keys) = ((length keys + batchSize - 1) / batchSize)%nat /\
  deleteMultiple [] = [].
Proof.
  split; [reflexivity|].
  pose proof batchSize_pos as Hpos.
  unfold deleteMultiple.
  destruct (Nat.eqb_spec (length keys) 0) as [Hz|Hnz].
  - apply length_zero_iff_nil in Hz. subst keys.
    split; [reflexivity|]. split; [constructor|]. split; [|split; [|reflexivity]].
    + intros j batch Hl. rewrite lookup_nil in Hl. discriminate.
    + vm_compute. reflexivity.
  - split; [|split; [|split; [|split]]].
    + rewrite deleteLoop_concat by lia. reflexivity.
    + apply deleteLoop_bounds. constructor.
    + intros j batch Hl.
      apply (deleteLoop_lookup (length keys) keys 0 [] j batch Hl).
    + rewrite deleteLoop_length by lia. rewrite Nat.sub_0_r. reflexivity.
    + reflexivity.
Qed.

Example deleteMultiple_2500 :
  map length (deleteMultiple (map (fun n => [N.of_nat n]) (seq 0 2500)))
  = [1000; 1000; 500]%nat.
Proof. vm_compute. reflexivity. Qed.

Example deleteMultiple_1000 :
  map length (deleteMultiple (map (fun n => [N.of_nat n]) (seq 0 1000))) = [1000]%nat.
Proof. vm_compute. reflexivity. Qed.

(* ===================================================================== *)
(** * Properties of the post-processing stage                              *)
(* ===================================================================== *)

#[local] Arguments N.eqb : simpl never.
#[local] Arguments N.leb : simpl never.
#[local] Arguments N.ltb : simpl never.

Lemma startsWith_app (s p : jsstring) :
  startsWith s p = true <-> exists rest, s = p ++ rest.
Proof.
  revert s. induction p as [|x p IH]; intros s; simpl.
  - split; [intros _; now exists s|reflexivity].
  - destruct s as [|y s]; simpl.
    + split; [discriminate|intros [rest Hr]; discriminate].
    + rewrite andb_true_iff, IH, N.eqb_eq. split.
      * intros [-> [rest ->]]. now exists rest.
      * intros [rest Hr]. injection Hr as -> ->. split; [reflexivity|now exists rest].
Qed.

Lemma tripleFree_sound (s : jsstring) : tripleFree s = true -> ~ hasTripleLF s.
Proof.
  intros Hfree [pre [post ->]].
  induction pre as [|c pre IH]; simpl in Hfree.
  - discriminate.
  - apply andb_true_iff in Hfree as [_ Hrest]. apply IH. exact Hrest.
Qed.

Lemma tripleFree_cons_other (c : char) (s : jsstring) :
  c <> LF -> tripleFree s = true -> tripleFree (c :: s) = true.
Proof.
  intros Hc Hs. simpl. rewrite Hs, andb_true_r.
  destruct (N.eqb_spec LF c) as [Heq|_]; [congruence|reflexivity].
Qed.

Lemma tripleFree_cons_LF (s : jsstring) :
  (leadingLF s <= 1)%nat -> tripleFree s = true -> tripleFree (LF :: s) = true.
Proof.
  intros Hrun Hs. simpl tripleFree. rewrite Hs, andb_true_r.
  unfold leadingLF in Hrun.
  destruct s as [|a [|b s]]; simpl in *; try reflexivity.
  - now rewrite andb_false_r.
  - destruct (N.eqb_spec LF a) as [Ha|_]; [|reflexivity].
    destruct (N.eqb_spec LF b) as [Hb|_]; [simpl in Hrun; lia|reflexivity].
Qed.

Lemma leadingLF_cons_other (c : char) (s : jsstring) : c <> LF -> leadingLF (c :: s) = 0%nat.
Proof.
  intros Hc. unfold leadingLF. simpl.
  destruct (N.eqb_spec LF c) as [Heq|_]; [congruence|reflexivity].
Qed.

Lemma replaceAll_match (m : matcher) (c : char) (t replacement : jsstring) (n : nat) :
  m (c :: t) = Some (replacement, n) ->
  replaceAll m 0 (c :: t) = replacement ++ replaceAll m (pred n) t.
Proof. intros Hm. simpl. now rewrite Hm. Qed.

Lemma replaceAll_copy (m : matcher) (c : char) (t : jsstring) :
  m (c :: t) = None -> replaceAll m 0 (c :: t) = c :: replaceAll m 0 t.
Proof. intros Hm. simpl. now rewrite Hm. Qed.

Lemma replaceAll_skip (m : matcher) (k : nat) (c : char) (t : jsstring) :
  replaceAll m (S k) (c :: t) = replaceAll m k t.
Proof. reflexivity. Qed.

Lemma rxBlankLines_eq (s : jsstring) :
  rxBlankLines s =
  if (3 <=? leadingLF s)%nat then Some ([LF; LF], leadingLF s) else None.
Proof. reflexivity. Qed.

Lemma leadingLF_cons_LF (s : jsstring) : leadingLF (LF :: s) = S (leadingLF s).
Proof. reflexivity. Qed.

Lemma leadingLF_pos (c : char) (t : jsstring) :
  (0 < leadingLF (c :: t))%nat -> c = LF.
Proof.
  unfold leadingLF. simpl.
  destruct (N.eqb_spec LF c) as [Heq|_]; [congruence|lia].
Qed.

(** The scan of [/\n{3,}/g]: outside a match the output keeps at most the
    newlines it read, and never more than two; while it passes over the
    rest of a matched run, what follows does not start with a newline. *)
Lemma blankLines_invariant (s : jsstring) :
  forall skip,
    (skip = 0 \/ leadingLF s = skip)%nat ->
    tripleFree (replaceAll rxBlankLines skip s) = true /\
    (skip = 0%nat ->
       (leadingLF (replaceAll rxBlankLines skip s) <= Nat.min (leadingLF s) 2)%nat) /\
    ((0 < skip)%nat -> leadingLF (replaceAll rxBlankLines skip s) = 0%nat).
Proof.
  induction s as [|c t IH]; intros skip Hskip.
  - simpl. split; [reflexivity|].
    split; [intros _; unfold leadingLF; simpl; lia|intros _; reflexivity].
  - destruct skip as [|k].
    + (* at a position where a match may start *)
      clear Hskip.
      pose proof (rxBlankLines_eq (c :: t)) as Hm.
      destruct (Nat.leb_spec 3 (leadingLF (c :: t))) as [Hlong|Hshort].
      * (* three or more newlines: two are written, the run is passed over *)
        assert (Hc : c = LF) by (apply (leadingLF_pos c t); lia).
        subst c. rewrite (replaceAll_match _ _ _ _ _ Hm).
        rewrite leadingLF_cons_LF in *. simpl pred.
        destruct (IH (leadingLF t)) as [Hfree [_ Hzero]]; [now right|].
        specialize (Hzero ltac:(lia)).
        split; [|split; [intros _|intros Hpos; lia]].
        -- simpl app. apply tripleFree_cons_LF.
           ++ rewrite leadingLF_cons_LF. lia.
           ++ apply tripleFree_cons_LF; [lia|assumption].
        -- simpl app. rewrite !leadingLF_cons_LF. lia.
      * (* no match here: the code unit is copied *)
        rewrite (replaceAll_copy _ _ _ Hm).
        destruct (IH 0%nat (or_introl eq_refl)) as [Hfree [Hle _]].
        specialize (Hle eq_refl).
        destruct (N.eq_dec c LF) as [->|Hother].
        -- rewrite leadingLF_cons_LF in *.
           split; [|split; [intros _|intros Hpos; lia]].
           ++ apply tripleFree_cons_LF; [lia|assumption].
           ++ rewrite leadingLF_cons_LF. lia.
        -- split; [|split; [intros _|intros Hpos; lia]].
           ++ apply tripleFree_cons_other; assumption.
           ++ rewrite leadingLF_cons_other by assumption. lia.
    + (* inside a matched run *)
      destruct Hskip as [Hskip|Hskip]; [discriminate|].
      assert (Hc : c = LF) by (apply (leadingLF_pos c t); lia).
      subst c. rewrite leadingLF_cons_LF in Hskip.
      assert (Hrun : leadingLF t = k) by lia.
      rewrite replaceAll_skip.
      destruct (IH k) as [Hfree [Hle Hzero]]; [now right|].
      split; [exact Hfree|split; [discriminate|intros _]].
      destruct k as [|k].
      * specialize (Hle eq_refl). rewrite Hrun in Hle. simpl in Hle. lia.
      * apply Hzero. lia.
Qed.

Lemma blankLines_tripleFree (s : jsstring) :
  ~ hasTripleLF (replaceGlobal rxBlankLines s).
Proof.
  apply tripleFree_sound. unfold replaceGlobal.
  apply (blankLines_invariant s 0%nat). now left.
Qed.

(** [skipWhile] returns a suffix that does not start with a skipped code
    unit. *)
Lemma skipWhile_suffix (p : char -> bool) (s : jsstring) :
  exists skipped, s = skipped ++ skipWhile p s.
Proof.
  induction s as [|c t [skipped IH]]; simpl.
  - now exists [].
  - destruct (p c).
    + exists (c :: skipped). simpl. now f_equal.
    + now exists [].
Qed.

Lemma skipWhile_head (p : char -> bool) (s : jsstring) (c : char) :
  head (skipWhile p s) = Some c -> p c = false.
Proof.
  induction s as [|a t IH]; simpl; [discriminate|].
  destruct (p a) eqn:Hpa; [exact IH|].
  simpl. intros [= <-]. exact Hpa.
Qed.

Lemma trimEnd_prefix (s : jsstring) : exists dropped, s = trimEnd s ++ dropped.
Proof.
  unfold trimEnd. destruct (skipWhile_suffix isWhiteSpace (rev s)) as [skipped Hs].
  exists (rev skipped).
  rewrite <- rev_app_distr, <- Hs, rev_involutive. reflexivity.
Qed.

Lemma trim_infix (s : jsstring) : exists before after, s = before ++ trim s ++ after.
Proof.
  unfold trim, trimStart.
  destruct (skipWhile_suffix isWhiteSpace s) as [before Hb].
  destruct (trimEnd_prefix (skipWhile isWhiteSpace s)) as [after Ha].
  exists before, after. rewrite <- Ha. exact Hb.
Qed.

Lemma trim_keeps_tripleFree (s : jsstring) : ~ hasTripleLF s -> ~ hasTripleLF (trim s).
Proof.
  intros Hs [pre [post Ht]]. apply Hs.
  destruct (trim_infix s) as [before [after Hinf]].
  exists (before ++ pre), (post ++ after).
  rewrite Hinf at 1. rewrite Ht. now rewrite <- !app_assoc.
Qed.

Lemma trim_head (s : jsstring) (c : char) : head (trim s) = Some c -> isWhiteSpace c = false.
Proof.
  unfold trim, trimStart. intros Hh.
  destruct (trimEnd_prefix (skipWhile isWhiteSpace s)) as [dropped Hd].
  apply (skipWhile_head isWhiteSpace s). rewrite Hd.
  destruct (trimEnd (skipWhile isWhiteSpace s)); [discriminate|exact Hh].
Qed.

Lemma last_rev {A} (l : list A) : last (rev l) = head l.
Proof. rewrite rev_alt. apply (last_reverse l). Qed.

Lemma trim_last (s : jsstring) (c : char) : last (trim s) = Some c -> isWhiteSpace c = false.
Proof.
  unfold trim, trimEnd. rewrite last_rev. apply skipWhile_head.
Qed.

(** The rewrites on sample texts. *)
Example unescape_sample : postProcess (js "a\*b \# c\d") = js "a*b # c\d".
Proof. vm_compute. reflexivity. Qed.

Example stray_commas_sample : postProcess (js "x:, y, , ,z") = js "x, y,z".
Proof. vm_compute. reflexivity. Qed.

Example colon_commas_sample : postProcess (js "key::, value") = js "key: value".
Proof. vm_compute. reflexivity. Qed.

Example colon_period_sample : postProcess (js "As follows: .") = js "As follows.".
Proof. vm_compute. reflexivity. Qed.

Example blank_lines_sample :
  postProcess ([LF] ++ js "a" ++ [LF; LF; LF; LF; LF] ++ js "b " ++ [LF; LF])
  = js "a" ++ [LF; LF] ++ js "b".
Proof. vm_compute. reflexivity. Qed.

(** C5, as stated, fails: the stage also rewrites a colon followed by a
    period into the period, which is none of the listed rewrites; on
    ["Note:."] the listed rewrites leave the text alone and the code
    returns ["Note."]. *)
Lemma postProcess_beyond_listed :
  postProcess (js "Note:.") = js "Note." /\
  postProcess_listed (js "Note:.") = js "Note:." /\
  postProcess (js "Note:.") <> postProcess_listed (js "Note:.").
Proof. vm_compute. repeat split; discriminate. Qed.

(** C5, amended.  The stage applies, in this order, the unescaping of
    the fixed punctuation set, the two stray-comma rewrites, the rewrite of
    a colon followed by commas into [': '], the rewrite of a colon followed
    by a period into ['.'], the collapse of three or more newlines into two,
    and the trim; for every input the returned text holds no run of three
    newlines and neither starts nor ends with white space. *)
Theorem postProcess_canonical (result : jsstring) :
  postProcess result =
    trim (replaceGlobal rxBlankLines
           (replaceGlobal rxColonDot
             (replaceGlobal rxColonComma
               (replaceGlobal rxCommaRun
                 (replaceGlobal rxOrphanComma
                   (replaceGlobal rxEscape result)))))) /\
  ~ hasTripleLF (postProcess result) /\
  (forall c, head (postProcess result) = Some c -> isWhiteSpace c = false) /\
  (forall c, last (postProcess result) = Some c -> isWhiteSpace c = false).
Proof.
  split; [reflexivity|]. unfold postProcess.
  split; [|split].
  - apply trim_keeps_tripleFree, blankLines_tripleFree.
  - apply trim_head.
  - apply trim_last.
Qed.

(** A blank pipeline output is post-processed to the empty string. *)
Lemma skipWhile_all (p : char -> bool) (s : jsstring) :
  Forall (fun c => p c = true) s -> skipWhile p s = [].
Proof.
  induction 1 as [|c t Hc _ IH]; simpl; [reflexivity|]. now rewrite Hc.
Qed.

Lemma trim_blank (s : jsstring) :
  Forall (fun c => isWhiteSpace c = true) s -> trim s = [].
Proof.
  intros Hs. unfold trim, trimStart, trimEnd.
  now rewrite (skipWhile_all _ _ Hs).
Qed.

Lemma replaceAll_untouched (m : matcher) (P : char -> Prop) (s : jsstring) :
  (forall c t, P c -> m (c :: t) = None) ->
  Forall P s -> replaceAll m 0 s = s.
Proof.
  intros Hm. induction 1 as [|c t Hc _ IH]; [reflexivity|].
  rewrite replaceAll_copy by (now apply Hm). now rewrite IH.
Qed.

Lemma replaceAll_Forall (m : matcher) (P : char -> Prop) (s : jsstring) :
  (forall u replacement n, m u = Some (replacement, n) -> Forall P replacement) ->
  Forall P s -> forall skip, Forall P (replaceAll m skip s).
Proof.
  intros Hm. induction 1 as [|c t Hc _ IH]; intros skip; simpl; [constructor|].
  destruct skip as [|k]; [|apply IH].
  destruct (m (c :: t)) as [[replacement n]|] eqn:Hmatch.
  - apply Forall_app. split; [exact (Hm _ _ _ Hmatch)|apply IH].
  - constructor; [assumption|apply IH].
Qed.

Lemma punctuation_not_blank (c : char) :
  isWhiteSpace c = true -> c <> BACKSLASH /\ c <> COLON /\ c <> COMMA.
Proof. intros Hc. repeat split; intros ->; discriminate. Qed.

Lemma postProcess_blank (result : jsstring) :
  Forall (fun c => isWhiteSpace c = true) result -> postProcess result = [].
Proof.
  intros Hblank. unfold postProcess, replaceGlobal.
  assert (Hq : forall m : matcher,
             (forall c t, isWhiteSpace c = true -> m (c :: t) = None) ->
             replaceAll m 0 result = result).
  { intros m Hm. now apply (replaceAll_untouched m (fun c => isWhiteSpace c = true)). }
  rewrite (Hq rxEscape), (Hq rxOrphanComma), (Hq rxCommaRun), (Hq rxColonComma),
    (Hq rxColonDot).
  - apply trim_blank.
    apply (replaceAll_Forall rxBlankLines (fun c => isWhiteSpace c = true)); [|assumption].
    intros u replacement n. rewrite rxBlankLines_eq.
    destruct (3 <=? leadingLF u)%nat; [|discriminate].
    intros [= <- _]. repeat constructor.
  - intros c t Hc. destruct (punctuation_not_blank c Hc) as (_ & Hcolon & _).
    unfold rxColonDot. now destruct (N.eqb_spec c COLON).
  - intros c t Hc. destruct (punctuation_not_blank c Hc) as (_ & Hcolon & _).
    unfold rxColonComma. now destruct (N.eqb_spec c COLON).
  - intros c t Hc. destruct (punctuation_not_blank c Hc) as (_ & _ & Hcomma).
    unfold rxCommaRun. now destruct (N.eqb_spec c COMMA).
  - intros c t Hc. destruct (punctuation_not_blank c Hc) as (_ & Hcolon & Hcomma).
    unfold rxOrphanComma.
    destruct (N.eqb_spec c COLON); [contradiction|].
    now destruct (N.eqb_spec c COMMA).
  - intros c t Hc. destruct (punctuation_not_blank c Hc) as (Hback & _ & _).
    unfold rxEscape. destruct t as [|d t]; [reflexivity|].
    now destruct (N.eqb_spec c BACKSLASH).
Qed.

(* ===================================================================== *)
(** * Properties of [extractCleanText]                                     *)
(* ===================================================================== *)

(** C4, as stated, fails: [extractCleanText] has no handler of its own.
    With the stand-in libraries, which (like the MDX parser on an unclosed
    tag) throw on a malformed document and give the empty text for the
    empty document, it throws on the first and returns the empty string on
    the second; so it is not the case that, whatever the libraries do, a
    non-empty string is returned. *)
Lemma extractCleanText_throws_or_empty :
  @extractCleanText sampleLibraries (js "<Card>") = Throws /\
  @extractCleanText sampleLibraries [] = Returns [] /\
  ~ (forall (L : Libraries) (mdxContent : jsstring),
       exists text, @extractCleanText L mdxContent = Returns text /\ text <> []).
Proof.
  split; [reflexivity|]. split; [reflexivity|].
  intros Hall. destruct (Hall sampleLibraries []) as [text [Hret Hne]].
  vm_compute in Hret. injection Hret as <-. now apply Hne.
Qed.

Section ExtractionFacts.
Context `{Libraries}.

(** C4, amended.  [extractCleanText] throws exactly when the front-matter
    parser, the MDX parser or the rendering of the stripped tree throws;
    when all three return, it returns the post-processed rendering of the
    tree without its import/export statements, components and expressions,
    which is the empty string when that rendering is blank. *)
Theorem extractCleanText_outcome (mdxContent : jsstring) :
  (extractCleanText mdxContent = Throws <->
     matter_content mdxContent = Throws \/
     exists content, matter_content mdxContent = Returns content /\
       (parseMDX content = Throws \/
        exists tree, parseMDX content = Returns tree /\
          renderPlainText (remarkRemoveJSX (remarkMdxRemoveEsm tree)) = Throws)) /\
  (forall content tree result,
     matter_content mdxContent = Returns content ->
     parseMDX content = Returns tree ->
     renderPlainText (remarkRemoveJSX (remarkMdxRemoveEsm tree)) = Returns result ->
     extractCleanText mdxContent = Returns (postProcess result) /\
     (Forall (fun c => isWhiteSpace c = true) result ->
      extractCleanText mdxContent = Returns [])).
Proof.
  unfold extractCleanText, remarkProcess, mbind, Result_bind, mret, Result_ret. split.
  - destruct (matter_content mdxContent) as [content|] eqn:Hm.
    + destruct (parseMDX content) as [tree|] eqn:Hp.
      * destruct (renderPlainText (remarkRemoveJSX (remarkMdxRemoveEsm tree)))
          as [result|] eqn:Hr.
        -- split; [discriminate|].
           intros [Hthrow|[content' [[= <-] [Hthrow|[tree' [Htree Hthrow]]]]]];
             congruence.
        -- split; [|reflexivity]. intros _. right. exists content.
           split; [reflexivity|]. right. now exists tree.
      * split; [|reflexivity]. intros _. right. exists content. now split; [|left].
    + split; [|reflexivity]. intros _. now left.
  - intros content tree result -> -> ->. split; [reflexivity|].
    intros Hblank. now rewrite postProcess_blank.
Qed.
End ExtractionFacts.

(** The amended C4 at the sample document. *)
Lemma extractCleanText_outcome_sample :
  @extractCleanText sampleLibraries docFresh = Returns (js "Title" ++ [LF; LF] ++ js "Hello.").
Proof.
  destruct (@extractCleanText_outcome sampleLibraries docFresh) as [_ Hret].
  destruct (Hret docFresh astFresh sampleText eq_refl eq_refl eq_refl) as [-> _].
  vm_compute. reflexivity.
Defined.

(* ===================================================================== *)
(** * Properties of the storage keys                                       *)
(* ===================================================================== *)

Lemma eqStr_eq (a b : jsstring) : eqStr a b = true <-> a = b.
Proof.
  revert b. induction a as [|x a IH]; intros [|y b]; simpl; try (split; congruence).
  rewrite andb_true_iff, N.eqb_eq, IH. split; [intros [-> ->]; reflexivity|].
  intros [= -> ->]. now split.
Qed.

Lemma eqStr_refl (a : jsstring) : eqStr a a = true.
Proof. now apply eqStr_eq. Qed.

Lemma split_slashFree (sep : char) (segment : jsstring) :
  sep ∉ segment -> split sep segment = [segment].
Proof.
  induction segment as [|c t IH]; intros Hfree; simpl; [reflexivity|].
  apply not_elem_of_cons in Hfree as [Hc Ht].
  destruct (N.eqb_spec c sep) as [->|_]; [contradiction|].
  now rewrite (IH Ht).
Qed.

Lemma split_app_sep (sep : char) (segment rest : jsstring) :
  sep ∉ segment -> split sep (segment ++ sep :: rest) = segment :: split sep rest.
Proof.
  induction segment as [|c t IH]; intros Hfree; simpl.
  - now rewrite N.eqb_refl.
  - apply not_elem_of_cons in Hfree as [Hc Ht].
    destruct (N.eqb_spec c sep) as [->|_]; [contradiction|].
    now rewrite (IH Ht).
Qed.

(** Splitting a path at ['/'] gives back its segments. *)
Lemma split_join (sep : char) (segments : list jsstring) :
  segments <> [] -> Forall (fun segment => sep ∉ segment) segments ->
  split sep (join [sep] segments) = segments.
Proof.
  induction segments as [|a rest IH]; intros Hne Hfree; [contradiction|].
  apply Forall_cons in Hfree as [Ha Hrest].
  destruct rest as [|b rest].
  - simpl. now apply split_slashFree.
  - change (join [sep] (a :: b :: rest)) with (a ++ [sep] ++ join [sep] (b :: rest)).
    simpl app. rewrite split_app_sep by assumption.
    f_equal. now apply IH.
Qed.

Lemma join_snoc (sep : jsstring) (parts : list jsstring) (final : jsstring) :
  join sep (parts ++ [final]) =
  match parts with
  | [] => final
  | _ => join sep parts ++ sep ++ final
  end.
Proof.
  induction parts as [|a rest IH]; [reflexivity|].
  destruct rest as [|b rest]; [reflexivity|].
  change (join sep ((a :: b :: rest) ++ [final]))
    with (a ++ sep ++ join sep ((b :: rest) ++ [final])).
  rewrite IH.
  change (join sep (a :: b :: rest)) with (a ++ sep ++ join sep (b :: rest)).
  now rewrite <- !app_assoc.
Qed.

Lemma endsWith_app (s suffix : jsstring) : endsWith (s ++ suffix) suffix = true.
Proof.
  unfold endsWith. rewrite rev_app_distr. apply startsWith_app. now exists (rev s).
Qed.

Lemma dropMdxSuffix_mdx (stem : jsstring) : dropMdxSuffix (stem ++ js ".mdx") = stem.
Proof.
  unfold dropMdxSuffix. rewrite endsWith_app, length_app.
  change (length (js ".mdx")) with 4%nat.
  rewrite take_app_length'; [reflexivity|lia].
Qed.

Lemma dropMdxSuffix_other (filePath : jsstring) :
  endsWith filePath (js ".mdx") = false -> dropMdxSuffix filePath = filePath.
Proof. unfold dropMdxSuffix. now intros ->. Qed.

Lemma sliceLast_two {A} (front : list A) (a b : A) : sliceLast 2 (front ++ [a; b]) = [a; b].
Proof.
  unfold sliceLast. rewrite length_app. simpl length.
  replace (length front + 2 - 2)%nat with (length front) by lia.
  now rewrite drop_app_length.
Qed.

(** The path [dirs/a/b.mdx] without its suffix. *)
Lemma dropMdxSuffix_path (dirs : list jsstring) (a b : jsstring) :
  dropMdxSuffix (join (js "/") (dirs ++ [a; b ++ js ".mdx"])) = join (js "/") (dirs ++ [a; b]).
Proof.
  replace (dirs ++ [a; b ++ js ".mdx"]) with ((dirs ++ [a]) ++ [b ++ js ".mdx"])
    by now rewrite <- app_assoc.
  replace (dirs ++ [a; b]) with ((dirs ++ [a]) ++ [b]) by now rewrite <- app_assoc.
  rewrite !join_snoc.
  destruct (dirs ++ [a]) as [|d ds] eqn:Hd; [now destruct dirs|].
  rewrite !app_assoc. apply dropMdxSuffix_mdx.
Qed.

(** C9, as stated, fails: only a trailing [.mdx] is dropped.  For the
    document path [guide/intro.md] the key keeps the extension in its
    slug, while the key worded by the specification has the slug
    [guide-intro]. *)
Lemma generateKey_keeps_other_extension :
  @generateKey sampleLibraries (uploaderConfig sampleConfig) (js "guide/intro.md") (js "v1")
    = js "audio/guide-intro.md/v1.mp3" /\
  @generateKey_worded sampleLibraries (uploaderConfig sampleConfig) (js "guide/intro.md") (js "v1")
    = js "audio/guide-intro/v1.mp3" /\
  @generateKey sampleLibraries (uploaderConfig sampleConfig) (js "guide/intro.md") (js "v1")
    <> @generateKey_worded sampleLibraries (uploaderConfig sampleConfig) (js "guide/intro.md") (js "v1").
Proof. vm_compute. repeat split; discriminate. Qed.

Section KeyFacts.
Context `{Libraries}.
Variable config : S3Config.

Lemma slugOf_path (dirs : list jsstring) (a b : jsstring) :
  Forall slashFree (dirs ++ [a; b]) ->
  slugOf (join (js "/") (dirs ++ [a; b ++ js ".mdx"])) = toLowerCase (a ++ js "-" ++ b).
Proof.
  intros Hfree. unfold slugOf. rewrite dropMdxSuffix_path.
  change (js "/") with [47]. rewrite split_join.
  - now rewrite sliceLast_two.
  - now destruct dirs.
  - exact Hfree.
Qed.

Lemma slugOf_file (b : jsstring) : slashFree b -> slugOf (b ++ js ".mdx") = toLowerCase b.
Proof.
  intros Hfree. unfold slugOf. rewrite dropMdxSuffix_mdx.
  now rewrite split_slashFree.
Qed.

(** C9, amended.  The key is [prefix/slug/voiceId.mp3], the prefix being
    ['audio'] when none (or the empty one) is configured.  For a path
    [dirs/a/b.mdx] the slug is the lower-cased [a-b]; for a single segment
    [b.mdx] it is the lower-cased [b]; a path that does not end in [.mdx]
    keeps its extension: its slug is the lower-cased join of its last two
    segments.  The branch variant puts [branch/] between prefix and
    slug. *)
Theorem generateKey_layout (dirs : list jsstring) (a b branch voiceId : jsstring) :
  Forall slashFree (dirs ++ [a; b]) ->
  let filePath := join (js "/") (dirs ++ [a; b ++ js ".mdx"]) in
  let prefix := orElse (pathPrefix config) (js "audio") in
  generateKey config filePath voiceId
    = prefix ++ js "/" ++ toLowerCase (a ++ js "-" ++ b) ++ js "/" ++ voiceId ++ js ".mp3" /\
  generateKey_branch config branch filePath voiceId
    = prefix ++ js "/" ++ branch ++ js "/" ++ toLowerCase (a ++ js "-" ++ b) ++ js "/"
      ++ voiceId ++ js ".mp3" /\
  generateKey config (b ++ js ".mdx") voiceId
    = prefix ++ js "/" ++ toLowerCase b ++ js "/" ++ voiceId ++ js ".mp3" /\
  (forall other,
     endsWith other (js ".mdx") = false ->
     generateKey config other voiceId
       = prefix ++ js "/" ++ toLowerCase (join (js "-") (sliceLast 2 (split 47 other)))
         ++ js "/" ++ voiceId ++ js ".mp3") /\
  (pathPrefix config = None \/ pathPrefix config = Some [] -> prefix = js "audio").
Proof.
  intros Hfree filePath prefix. unfold generateKey, generateKey_branch.
  fold prefix. subst filePath.
  rewrite (slugOf_path dirs a b Hfree).
  assert (Hb : slashFree b).
  { apply Forall_app in Hfree as [_ Hab]. now inversion Hab as [|? ? _ [|? ? Hb' _]]. }
  rewrite (slugOf_file b Hb).
  repeat split.
  - intros other Hother. unfold slugOf. now rewrite dropMdxSuffix_other.
  - subst prefix. now intros [-> | ->].
Qed.
End KeyFacts.

(** The amended C9 at the path of the source comment:
    [developer-guide/getting-started/introduction.mdx]. *)
Lemma generateKey_layout_sample :
  Forall slashFree ([js "developer-guide"] ++ [js "getting-started"; js "introduction"]) /\
  @generateKey sampleLibraries (uploaderConfig sampleConfig)
    (js "developer-guide/getting-started/introduction.mdx") (js "v1")
  = js "audio/getting-started-introduction/v1.mp3".
Proof.
  assert (Hfree : Forall slashFree
            ([js "developer-guide"] ++ [js "getting-started"; js "introduction"])).
  { repeat constructor; unfold slashFree; intros Hin;
      apply list_elem_of_In in Hin; vm_compute in Hin; intuition discriminate. }
  split; [exact Hfree|].
  destruct (@generateKey_layout sampleLibraries (uploaderConfig sampleConfig)
              [js "developer-guide"] (js "getting-started") (js "introduction")
              (js "main") (js "v1") Hfree) as [Hkey _].
  exact Hkey.
Defined.

(* ===================================================================== *)
(** * Properties of the change detector                                    *)
(* ===================================================================== *)

Lemma isString_spec (id : jsstring) (value : option Json) :
  isString id value = true <-> value = stringValue id.
Proof.
  unfold isString, stringValue.
  destruct value as [[| | |s| |]|]; try (split; discriminate).
  rewrite eqStr_eq. split; congruence.
Qed.

Lemma includes_id (ids : list (option Json)) (id : jsstring) :
  existsb (isString id) ids = true <-> stringValue id ∈ ids.
Proof.
  rewrite existsb_exists. split.
  - intros [x [Hin Heq]]. apply isString_spec in Heq as ->. now apply list_elem_of_In.
  - intros Hin. exists (stringValue id). split; [now apply list_elem_of_In|].
    now apply isString_spec.
Qed.

Lemma hashMatches_spec (d : ExistingData) (newHash : jsstring) :
  hashMatches d newHash = true <-> hash d = Some newHash.
Proof.
  unfold hashMatches. destruct (hash d) as [recorded|]; [|split; discriminate].
  rewrite eqStr_eq. split; congruence.
Qed.

Lemma voicesMatch_spec (d : ExistingData) (requested : list jsstring) :
  voicesMatch d requested = true <->
  length (voiceIds d) = length requested /\
  forall id, id ∈ requested -> stringValue id ∈ voiceIds d.
Proof.
  unfold voicesMatch. rewrite andb_true_iff, Nat.eqb_eq, forallb_forall.
  split; intros [Hlen Hall]; (split; [exact Hlen|]).
  - intros id Hin. apply includes_id, Hall. now apply list_elem_of_In.
  - intros id Hin. apply includes_id, Hall. now apply list_elem_of_In.
Qed.

(** For duplicate-free lists the check of [voicesMatch] is set identity. *)
Lemma sameIds_set_identity (recorded : list (option Json)) (requested : list jsstring) :
  NoDup requested -> NoDup recorded ->
  (length recorded = length requested /\
   (forall id, id ∈ requested -> stringValue id ∈ recorded)) <->
  (forall value, value ∈ recorded <-> value ∈ map stringValue requested).
Proof.
  intros Hreq Hrec.
  assert (Hvalues : NoDup (map stringValue requested)).
  { assert (Hinj : Inj eq eq stringValue) by (intros a b Hab; now injection Hab).
    now apply (NoDup_fmap_2 stringValue). }
  split.
  - intros [Hlen Hsub].
    assert (Hperm : map stringValue requested ≡ₚ recorded).
    { apply submseteq_length_Permutation; [|rewrite length_map; lia].
      apply NoDup_submseteq; [exact Hvalues|].
      intros value Hin. apply list_elem_of_fmap in Hin as [id [-> Hid]]. now apply Hsub. }
    intros value. now rewrite Hperm.
  - intros Hset.
    assert (Hperm : recorded ≡ₚ map stringValue requested)
      by now apply NoDup_Permutation.
    split.
    + rewrite Hperm. apply length_map.
    + intros id Hin. apply Hset. apply list_elem_of_fmap. now exists id.
Qed.

(** C1, as stated, fails: the voice check compares lengths and looks up
    each requested id; with a repeated id it accepts lists that differ as
    sets.  The sample document records the ids a and b; with the ids a, a
    requested and the fingerprint matching, both checks pass and the run
    reports the content as unchanged, although [{a, b}] and [{a}] are
    different sets (the requested set is a strict subset of the recorded
    one). *)
Lemma voicesMatch_not_set_identity :
  @extractExistingAudioData sampleLibraries docTwoVoices (cfg_componentName configRepeated)
    = Returns (Some {| hash := Some (js "0a1b");
                       voiceIds := [stringValue (js "a"); stringValue (js "b")];
                       voices := map voiceJson voicesAB |}) /\
  cfg_voiceIds configRepeated = [js "a"; js "a"] /\
  @processFile sampleLibraries configRepeated (js "docs/intro.mdx") docTwoVoices
    = ContentUnchanged (map voiceJson voicesAB) /\
  list_to_set [js "a"; js "b"] ≠@{gset jsstring} list_to_set (cfg_voiceIds configRepeated).
Proof.
  split; [vm_compute; reflexivity|]. split; [reflexivity|].
  split; [vm_compute; reflexivity|].
  intros Heq.
  assert (Hb : js "b" ∈@{gset jsstring} list_to_set [js "a"; js "b"]) by set_solver.
  rewrite Heq in Hb. apply elem_of_list_to_set in Hb.
  apply list_elem_of_In in Hb. vm_compute in Hb. intuition discriminate.
Qed.

Section ChangeDetector.
Context `{Libraries}.
Variable config : ResolvedConfig.

Lemma imap_voice_ids (names : nat -> jsstring) (urls : jsstring -> option jsstring)
  (ids : list jsstring) :
  map voice_id
    (imap (fun idx id => {| voice_id := id; voice_name := names idx; voice_url := urls id |}) ids)
  = ids.
Proof.
  revert names. induction ids as [|id rest IH]; intros names; [reflexivity|].
  simpl. f_equal. apply (IH (fun idx => names (S idx))).
Qed.

Lemma mockVoicesFor_ids (file : jsstring) :
  map voice_id (mockVoicesFor config file) = cfg_voiceIds config.
Proof. unfold mockVoicesFor. apply imap_voice_ids. Qed.

Lemma voicesFrom_ids (audioUrls : gmap jsstring jsstring) :
  map voice_id (voicesFrom config audioUrls) = cfg_voiceIds config.
Proof.
  unfold voicesFrom.
  apply (imap_voice_ids (voiceNameAt config) (fun id => Some (orElse (audioUrls !! id) []))).
Qed.

(** C1, amended.  For a document with non-blank canonical text whose
    narration block is located, the run reports "content unchanged" exactly
    when (a) the recorded fingerprint is the fingerprint of the canonical
    text and (b) the recorded and the requested id lists have the same
    length and every requested id occurs among the recorded ids; otherwise
    the run goes on to regeneration (a preview under dry run) with one
    descriptor per requested id, in order, or fails.  When neither list
    repeats an id, (b) says that the two lists are equal as sets. *)
Theorem unchanged_iff (file content cleanText : jsstring) (d : ExistingData) :
  extractCleanText content = Returns cleanText ->
  trim cleanText <> [] ->
  extractExistingAudioData content (cfg_componentName config) = Returns (Some d) ->
  let requested := cfg_voiceIds config in
  let sameIds :=
    length (voiceIds d) = length requested /\
    (forall id, id ∈ requested -> stringValue id ∈ voiceIds d) in
  (processFile config file content = ContentUnchanged (voices d) <->
     hash d = Some (generateHash cleanText) /\ sameIds) /\
  (~ (hash d = Some (generateHash cleanText) /\ sameIds) ->
     match processFile config file content with
     | DryRunPreview newVoices _ => cfg_dryRun config = true /\ map voice_id newVoices = requested
     | Generated newVoices _ => cfg_dryRun config = false /\ map voice_id newVoices = requested
     | Failed => True
     | NoExtractableText | ContentUnchanged _ => False
     end) /\
  (NoDup requested -> NoDup (voiceIds d) ->
     (sameIds <-> forall value, value ∈ voiceIds d <-> value ∈ map stringValue requested)).
Proof.
  intros Htext Hblank Hfound requested sameIds.
  assert (Hcheck : hashMatches d (generateHash cleanText) && voicesMatch d requested = true
                   <-> hash d = Some (generateHash cleanText) /\ sameIds).
  { rewrite andb_true_iff, hashMatches_spec, voicesMatch_spec. reflexivity. }
  assert (Hnonblank : eqStr (trim cleanText) [] = false).
  { destruct (eqStr (trim cleanText) []) eqn:He; [|reflexivity].
    apply eqStr_eq in He. contradiction. }
  unfold processFile, processFileBody.
  rewrite Htext. cbn [mbind Result_bind]. rewrite Hnonblank, Hfound.
  cbn [mbind Result_bind]. fold requested.
  destruct (hashMatches d (generateHash cleanText) && voicesMatch d requested) eqn:Hm.
  - split; [|split].
    + split; [intros _; now apply Hcheck|reflexivity].
    + intros Hnot. apply Hnot, Hcheck. reflexivity.
    + intros Hreq Hrec. now apply sameIds_set_identity.
  - split; [|split].
    + split.
      * intros Hout. exfalso.
        destruct (cfg_dryRun config).
        -- destruct (injectAudioComponent _ _ _ _); discriminate.
        -- destruct (synthesizeAll _ _ _ _ _) as [audioUrls|];
             cbn [mbind Result_bind] in Hout; [|discriminate].
           destruct (injectAudioComponent _ _ _ _); discriminate.
      * intros Hyes. apply Hcheck in Hyes. congruence.
    + intros _. destruct (cfg_dryRun config).
      * destruct (injectAudioComponent _ _ _ _); cbn; [|exact I].
        split; [reflexivity|apply mockVoicesFor_ids].
      * destruct (synthesizeAll _ _ _ _ _) as [audioUrls|];
          cbn [mbind Result_bind]; [|exact I].
        destruct (injectAudioComponent _ _ _ _); cbn; [|exact I].
        split; [reflexivity|apply voicesFrom_ids].
    + intros Hreq Hrec. now apply sameIds_set_identity.
Qed.
End ChangeDetector.

(** The amended C1 at the sample document that carries its narration
    block. *)
Lemma unchanged_iff_sample :
  @extractCleanText sampleLibraries docNarrated = Returns (trim sampleText) /\
  trim (trim sampleText) <> [] /\
  @extractExistingAudioData sampleLibraries docNarrated (cfg_componentName sampleConfig)
    = Returns (Some sampleData) /\
  @processFile sampleLibraries sampleConfig (js "docs/intro.mdx") docNarrated
    = ContentUnchanged (map voiceJson sampleVoices).
Proof.
  assert (Htext : @extractCleanText sampleLibraries docNarrated = Returns (trim sampleText))
    by (vm_compute; reflexivity).
  assert (Hblank : trim (trim sampleText) <> []) by (vm_compute; discriminate).
  assert (Hfound : @extractExistingAudioData sampleLibraries docNarrated
                     (cfg_componentName sampleConfig) = Returns (Some sampleData))
    by (vm_compute; reflexivity).
  split; [exact Htext|]. split; [exact Hblank|]. split; [exact Hfound|].
  destruct (@unchanged_iff sampleLibraries sampleConfig (js "docs/intro.mdx") docNarrated
              (trim sampleText) sampleData Htext Hblank Hfound) as [[_ Hskip] _].
  apply Hskip. split; [vm_compute; reflexivity|].
  split; [reflexivity|]. intros id Hin.
  apply list_elem_of_singleton in Hin as ->.
  change (stringValue (js "v1") ∈ [stringValue (js "v1")]). left.
Defined.

(* ===================================================================== *)
(** * Properties of the orphan reconciliation                              *)
(* ===================================================================== *)






Section Reconciliation.
Context `{Libraries}.
Variable config : ResolvedConfig.




Lemma truthyValue_string (u : jsstring) :
  truthyValue (Some (JString u)) = true <-> u <> [].
Proof.
  cbn [truthyValue]. rewrite negb_true_iff.
  destruct (eqStr u []) eqn:He.
  - apply eqStr_eq in He. split; [discriminate|contradiction].
  - split; [|reflexivity]. intros _ Hu. apply eqStr_eq in Hu. congruence.
Qed.

Lemma addVoiceKeys_elem (found : list Json) :
  forall (expectedKeys result : gset jsstring),
    addVoiceKeys config found expectedKeys = Returns result ->
    forall k, k ∈ result <->
      k ∈ expectedKeys \/
      exists voice u,
        voice ∈ found /\ getMember voice (js "url") = Returns (Some (JString u)) /\
        u <> [] /\ k = keyOfUrl config u.
Proof.
  induction found as [|voice later IH]; intros expectedKeys result Hadd k.
  - injection Hadd as <-. split; [now left|].
    intros [Hk|(voice & u & Hin & _)]; [exact Hk|]. now apply elem_of_nil in Hin.
  - cbn [addVoiceKeys] in Hadd.
    destruct (getMember voice (js "url")) as [url|] eqn:Hurl; [|discriminate].
    cbn [mbind Result_bind] in Hadd.
    destruct (truthyValue url) eqn:Htruthy.
    + destruct url as [[| | |u| |]|]; try discriminate.
      apply truthyValue_string in Htruthy.
      rewrite (IH _ _ Hadd k). split.
      * intros [Hk|(v & w & Hin & Hw & Hne & Hkey)].
        -- apply elem_of_union in Hk as [Hk|Hk]; [|now left].
           apply elem_of_singleton in Hk. right. exists voice, u.
           repeat split; [left|assumption|assumption|exact Hk].
        -- right. exists v, w. repeat split; try assumption. now right.
      * intros [Hk|(v & w & Hin & Hw & Hne & Hkey)].
        -- left. apply elem_of_union. now right.
        -- apply elem_of_cons in Hin as [->|Hin].
           ++ left. rewrite Hurl in Hw. injection Hw as <-.
              apply elem_of_union. left. now apply elem_of_singleton.
           ++ right. now exists v, w.
    + rewrite (IH _ _ Hadd k). split.
      * intros [Hk|(v & w & Hin & Hrest)]; [now left|].
        right. exists v, w. split; [now right|exact Hrest].
      * intros [Hk|(v & w & Hin & Hw & Hne & Hkey)]; [now left|].
        apply elem_of_cons in Hin as [->|Hin]; [|right; now exists v, w].
        rewrite Hurl in Hw. injection Hw as ->.
        apply truthyValue_string in Hne. congruence.
Qed.

Lemma voiceJson_url (v : Voice) :
  getMember (voiceJson v) (js "url") = Returns (option_map JString (voice_url v)).
Proof. destruct v as [id name [u|]]; reflexivity. Qed.

(** On voice objects of the program the loop never throws. *)
Lemma addVoiceKeys_voices (found : list Voice) :
  forall expectedKeys,
    exists keys, addVoiceKeys config (map voiceJson found) expectedKeys = Returns keys.
Proof.
  induction found as [|v later IH]; intros expectedKeys; [now eexists|].
  cbn [map addVoiceKeys]. rewrite voiceJson_url. cbn [mbind Result_bind].
  destruct (voice_url v) as [u|]; cbn [option_map]; [|apply IH].
  destruct (truthyValue (Some (JString u))); apply IH.
Qed.

End Reconciliation.

Section OrphanSet.
Context `{Libraries}.
Variable config : ResolvedConfig.

End OrphanSet.

(** The example of C7: storage keys a, b, c and referenced keys
    b, c leave the orphan a; once a is deleted no orphan is left. *)
Example orphans_abc :
  let expectedKeys : gset jsstring := {[js "b"; js "c"]} in
  let allS3Keys := [js "a"; js "b"; js "c"] in
  orphansOf allS3Keys expectedKeys = [js "a"] /\
  deleteMultiple [js "a"] = [[js "a"]] /\
  applyRequests allS3Keys (deleteMultiple [js "a"]) = [js "b"; js "c"] /\
  orphansOf [js "b"; js "c"] expectedKeys = [].
Proof. vm_compute. repeat split. Qed.


(* ===================================================================== *)
(** * The tree walks, as folds over the nodes in document order            *)
(* ===================================================================== *)

Section NodeInduction.
Variable P : Node -> Prop.
Hypothesis step : forall type value name attributes children position,
  Forall P children -> P (MkNode type value name attributes children position).

Lemma Node_children_ind : forall node, P node.
Proof.
  fix IH 1. intros [type value name attributes children position].
  apply step. induction children as [|child later IHl]; constructor.
  - apply IH.
  - exact IHl.
Qed.
End NodeInduction.

Section Walks.
Context {S : Type}.
Variable visit : Node -> S -> S.
Variable walk : Node -> S -> S.
Hypothesis walk_eq : forall node st,
  walk node st =
  (fix visitChildren (cs : list Node) (st : S) : S :=
     match cs with
     | [] => st
     | child :: later => visitChildren later (walk child st)
     end) (node_children node) (visit node st).

(** A walk that visits a node and then its children from left to right
    visits the nodes in document order. *)
Lemma walk_preorder (node : Node) :
  forall st, walk node st = fold_left (fun st n => visit n st) (preorder node) st.
Proof.
  induction node as [type value name attributes children position IH]
    using Node_children_ind.
  intros st. rewrite walk_eq.
  change (preorder (MkNode type value name attributes children position))
    with (MkNode type value name attributes children position
            :: concat (map preorder children)).
  cbn [fold_left node_children].
  generalize (visit (MkNode type value name attributes children position) st).
  clear st. induction IH as [|child later Hchild _ IHl]; intros st; [reflexivity|].
  cbn [map concat]. rewrite fold_left_app, <- Hchild. apply IHl.
Qed.
End Walks.

Section TreeFacts.
Context `{Libraries}.

Lemma walkExisting_preorder (componentName : jsstring) (node : Node) (st : Found) :
  walkExisting componentName node st
  = fold_left (fun st n => visitExisting componentName n st) (preorder node) st.
Proof.
  apply (walk_preorder (visitExisting componentName) (walkExisting componentName)).
  intros [type value name attributes children position] st'. reflexivity.
Qed.


Lemma visitExisting_voices (componentName : jsstring) (node : Node) (st : Found) :
  foundVoices (visitExisting componentName node st)
  = default (foundVoices st) (carriesVoices componentName node).
Proof.
  unfold visitExisting, carriesVoices.
  set (st1 := if isExpressionNode (node_type node) then _ else st).
  assert (Hst1 : foundVoices st1 = foundVoices st).
  { subst st1. destruct (isExpressionNode (node_type node)); [|reflexivity].
    now destruct (hashMatch _). }
  destruct (isJsxElement (node_type node) && nameIs (node_name node) componentName);
    [|exact Hst1].
  destruct (List.find _ (node_attributes node)) as [voicesAttr|]; [|exact Hst1].
  destruct (valueTruthy (attr_value voicesAttr)); [|exact Hst1].
  destruct (JSON_parse _); [reflexivity|exact Hst1].
Qed.

End TreeFacts.

(* ===================================================================== *)
(** * Properties of [extractExistingAudioData]                             *)
(* ===================================================================== *)


Section ExistingData.
Context `{Libraries}.

End ExistingData.


(** The same holds of the document with the annotation and no component. *)
Example annotation_without_component :
  @extractExistingAudioData sampleLibraries docAnnotated defaultComponentName
    = Returns None.
Proof. vm_compute. reflexivity. Qed.

(** The annotation alone is read, and dropped with the missing voices. *)
Example annotation_is_read :
  foundHash (@walkExisting sampleLibraries defaultComponentName astAnnotated
               {| foundHash := None; foundVoices := JArray [] |}) = Some (js "0a1b").
Proof. vm_compute. reflexivity. Qed.

(* ===================================================================== *)
(** * Properties of the insertion points                                   *)
(* ===================================================================== *)





Lemma splice_insert {A} (l : list A) (start : nat) (items : list A) :
  splice l (Z.of_nat start) 0 items = take start l ++ items ++ drop start l.
Proof.
  unfold splice.
  destruct (Z.ltb_spec (Z.of_nat start) 0) as [Hneg|_]; [lia|].
  replace (Z.min (Z.max 0 0) _) with 0%Z by lia.
  rewrite Z.add_0_r.
  destruct (Nat.le_gt_cases start (length l)) as [Hin|Hout].
  - replace (Z.to_nat (Z.min (Z.of_nat start) (Z.of_nat (length l)))) with start by lia.
    reflexivity.
  - replace (Z.to_nat (Z.min (Z.of_nat start) (Z.of_nat (length l)))) with (length l) by lia.
    rewrite !take_ge, !drop_ge by lia. reflexivity.
Qed.

Section InsertionPointFacts.
Context `{Libraries}.

End InsertionPointFacts.

(** A document with front matter and two imports: the import line is the
    end line of the last import, the component line the one before the
    heading. *)
Example insertion_points_frontmatter :
  let ast :=
    MkNode root None None []
      [leaf yaml 1 3; leaf mdxjsEsm 4 4; leaf mdxjsEsm 5 6; leaf heading 8 8;
       leaf paragraph 10 11] (spanOf 1 12) in
  pointsOf (walkInsertion ast
              {| frontmatterEndLine := 0; lastImportEndLine := 0; firstContentLine := 0 |})
  = {| importPos := 6; componentPos := 7 |}.
Proof. vm_compute. reflexivity. Qed.

(* ===================================================================== *)
(** * Where the block lands                                                *)
(* ===================================================================== *)

Lemma at_index_app_before (before after : list jsstring) :
  at_index (before ++ after) (Z.of_nat (length before) - 1) = last before.
Proof.
  unfold at_index. destruct before as [|b before' _] using rev_ind.
  - reflexivity.
  - rewrite length_app. simpl length.
    destruct (Z.ltb_spec (Z.of_nat (length before' + 1) - 1) 0) as [Hneg|_]; [lia|].
    replace (Z.to_nat (Z.of_nat (length before' + 1) - 1)) with (length before') by lia.
    rewrite <- app_assoc, last_snoc. simpl app.
    now rewrite list_lookup_middle.
Qed.

Lemma at_index_app_after (before after : list jsstring) (k : nat) :
  at_index (before ++ after) (Z.of_nat (length before) + Z.of_nat k) = after !! k.
Proof.
  unfold at_index.
  destruct (Z.ltb_spec (Z.of_nat (length before) + Z.of_nat k) 0) as [Hneg|_]; [lia|].
  replace (Z.to_nat (Z.of_nat (length before) + Z.of_nat k)) with (length before + k)%nat by lia.
  now rewrite lookup_app_r, Nat.add_sub' by lia.
Qed.

Lemma splice_insert_app {A} (before after items : list A) :
  splice (before ++ after) (Z.of_nat (length before)) 0 items = before ++ items ++ after.
Proof.
  rewrite splice_insert. now rewrite take_app_length, drop_app_length.
Qed.

(** The splices of [placeBlock] in closed form: the annotation and the
    component go between the line before and the line after the position;
    the one blank line that may be added always follows the component. *)
Lemma placeBlock_closed_form (before after : list jsstring) (hashComment componentCode : jsstring) :
  placeBlock (before ++ after) (Z.of_nat (length before)) hashComment componentCode
  = before ++ [hashComment; componentCode]
    ++ (if lineNotBlank (last before) || lineNotBlank (head after) then [[]] else [])
    ++ after.
Proof.
  unfold placeBlock, notBlankAt.
  rewrite at_index_app_before.
  assert (Hthird : forall tail : list jsstring,
            at_index (before ++ [hashComment] ++ [componentCode] ++ tail)
              (Z.of_nat (length before) + 2) = head tail).
  { intros tail.
    replace (before ++ [hashComment] ++ [componentCode] ++ tail)
      with ((before ++ [hashComment; componentCode]) ++ tail) by now rewrite <- app_assoc.
    replace (Z.of_nat (length before) + 2)%Z
      with (Z.of_nat (length (before ++ [hashComment; componentCode])) + Z.of_nat 0)%Z
      by (rewrite length_app; simpl; lia).
    rewrite at_index_app_after. now destruct tail. }
  assert (Hsecond : forall tail : list jsstring,
            splice (before ++ [hashComment] ++ tail) (Z.of_nat (length before) + 1) 0
              [componentCode]
            = before ++ [hashComment] ++ [componentCode] ++ tail).
  { intros tail.
    replace (before ++ [hashComment] ++ tail) with ((before ++ [hashComment]) ++ tail)
      by now rewrite <- app_assoc.
    replace (Z.of_nat (length before) + 1)%Z with (Z.of_nat (length (before ++ [hashComment])))
      by (rewrite length_app; simpl; lia).
    rewrite splice_insert_app. now rewrite <- app_assoc. }
  assert (Hfourth : forall tail : list jsstring,
            splice (before ++ [hashComment] ++ [componentCode] ++ tail)
              (Z.of_nat (length before) + 2) 0 [[]]
            = before ++ [hashComment] ++ [componentCode] ++ [[]] ++ tail).
  { intros tail.
    replace (before ++ [hashComment] ++ [componentCode] ++ tail)
      with ((before ++ [hashComment; componentCode]) ++ tail) by now rewrite <- app_assoc.
    replace (Z.of_nat (length before) + 2)%Z
      with (Z.of_nat (length (before ++ [hashComment; componentCode])))
      by (rewrite length_app; simpl; lia).
    rewrite splice_insert_app. now rewrite <- app_assoc. }
  destruct (lineNotBlank (last before)); cbn [orb].
  - rewrite !splice_insert_app, Hsecond, Hthird. reflexivity.
  - rewrite !splice_insert_app, Hsecond, Hthird.
    destruct (lineNotBlank (head after)); [|reflexivity].
    now rewrite Hfourth.
Qed.

Lemma skipWhile_stops (p : char -> bool) (s : jsstring) (c : char) :
  p c = false -> skipWhile p (s ++ [c]) <> [].
Proof.
  intros Hc. induction s as [|a s IH]; simpl.
  - now rewrite Hc.
  - destruct (p a); [exact IH|discriminate].
Qed.

Lemma importStatement_notBlank (name importPath : jsstring) :
  lineNotBlank (Some (importStatementOf name importPath)) = true.
Proof.
  unfold lineNotBlank, importStatementOf, importHead.
  change (js "import { " ++ name ++ js " }") with (105 :: (js "mport { " ++ name ++ js " }")).
  set (rest := (js "mport { " ++ name ++ js " }") ++ js " from '" ++ importPath ++ js "';").
  change ((105 :: (js "mport { " ++ name ++ js " }")) ++ js " from '" ++ importPath ++ js "';")
    with (105 :: rest).
  apply negb_true_iff.
  destruct (eqStr (trim (105 :: rest)) []) eqn:Hempty; [|reflexivity].
  apply eqStr_eq in Hempty. unfold trim, trimStart, trimEnd in Hempty.
  change (skipWhile isWhiteSpace (105 :: rest)) with (105 :: rest) in Hempty.
  simpl rev in Hempty.
  apply (f_equal (@rev N)) in Hempty. rewrite rev_involutive in Hempty.
  now apply skipWhile_stops in Hempty.
Qed.





Section InsertionPoints.
Context `{Libraries}.

End InsertionPoints.



(** Where the last import ends below the first content node, the block
    is placed above the import line: here directly under the heading,
    with the inserted import statement further down. *)
Example block_above_import_line :
  @findInsertionPoints sampleLibraries docHeadingFirst
    = Returns {| importPos := 3; componentPos := 0 |} /\
  @injectAudioComponent sampleLibraries docHeadingFirst [] (js "0a1b")
    {| componentImport := None; componentName := None |}
  = Returns
      (join [LF]
         [js "# Title";
          hashCommentOf (js "0a1b");
          js "<AudioTranscript voices={[]} />";
          []; [];
          js "import a from 'a'";
          js "import { AudioTranscript } from '/snippets/audio-transcript.jsx';";
          []; js "Text"; []]).
Proof. vm_compute. split; reflexivity. Qed.

Section BlockAfterImport.
Context `{Libraries}.

(** The fresh insertion when the import statement is added and the first
    content node starts right at the import line. *)
Lemma insertFresh_after_import (content : jsstring) (newVoices : list Voice)
  (newHash name importPath : jsstring) (p : nat) :
  existsb (fun line => includes line (importHead name)) (split LF content) = false ->
  findInsertionPoints content = Returns {| importPos := p; componentPos := p |} ->
  (p <= length (split LF content))%nat ->
  insertFresh content newVoices newHash name importPath
  = Returns
      (join [LF]
         (take p (split LF content)
          ++ [importStatementOf name importPath; hashCommentOf newHash;
              componentCodeOf name newVoices; []]
          ++ drop p (split LF content))).
Proof.
  intros Hnoimport Hpoints Hp. unfold insertFresh.
  rewrite Hpoints, Hnoimport. cbn [mbind Result_bind mret Result_ret importPos componentPos].
  rewrite splice_insert. do 2 f_equal.
  set (lines := split LF content) in *.
  set (before := take p lines ++ [importStatementOf name importPath]).
  replace (take p lines ++ [importStatementOf name importPath] ++ drop p lines)
    with (before ++ drop p lines) by (subst before; now rewrite <- app_assoc).
  replace (Z.of_nat p + 1)%Z with (Z.of_nat (length before))
    by (subst before; rewrite length_app, length_take; simpl; lia).
  rewrite placeBlock_closed_form.
  subst before. rewrite last_snoc, importStatement_notBlank. cbn [orb].
  now rewrite <- !app_assoc.
Qed.

(** C2, the code at the failing inputs.  For a document without a
    narration component and without an import line, whose first content
    node starts right at the import line, [injectAudioComponent] returns a
    text in which the annotation stands on the line directly after the
    import statement; the blank line that was to precede the block follows
    the component.  The MDX grammar reads an import block up to the next
    blank line, so locating the block in this text does not give back the
    injected fingerprint and ids. *)
Theorem inject_block_follows_import (content : jsstring) (newVoices : list Voice)
  (newHash name importPath : jsstring) (p : nat) :
  hasAudioComponent content name = Returns false ->
  existsb (fun line => includes line (importHead name)) (split LF content) = false ->
  findInsertionPoints content = Returns {| importPos := p; componentPos := p |} ->
  (p <= length (split LF content))%nat ->
  injectAudioComponent content newVoices newHash
    {| componentImport := Some importPath; componentName := Some name |}
  = Returns
      (join [LF]
         (take p (split LF content)
          ++ [importStatementOf name importPath; hashCommentOf newHash;
              componentCodeOf name newVoices; []]
          ++ drop p (split LF content))).
Proof.
  intros Habsent Hnoimport Hpoints Hp. unfold injectAudioComponent.
  cbn [default from_option id componentName componentImport].
  rewrite Habsent. now apply insertFresh_after_import.
Qed.

(** C3, the code at the failing inputs.  For such a document a first,
    successful run of the generate command writes the import statement
    directly followed by the annotation and the component, with no blank
    line between them; this is the text the second run has to parse. *)
Theorem first_run_writes_block_after_import (config : ResolvedConfig)
  (file content cleanText : jsstring) (audioUrls : gmap jsstring jsstring) (p : nat) :
  extractCleanText content = Returns cleanText ->
  trim cleanText <> [] ->
  extractExistingAudioData content (cfg_componentName config) = Returns None ->
  cfg_dryRun config = false ->
  synthesizeAll config cleanText file (cfg_voiceIds config) ∅ = Returns audioUrls ->
  hasAudioComponent content (cfg_componentName config) = Returns false ->
  existsb (fun line => includes line (importHead (cfg_componentName config)))
    (split LF content) = false ->
  findInsertionPoints content = Returns {| importPos := p; componentPos := p |} ->
  (p <= length (split LF content))%nat ->
  processFile config file content
  = Generated (voicesFrom config audioUrls)
      (join [LF]
         (take p (split LF content)
          ++ [importStatementOf (cfg_componentName config) (cfg_componentImport config);
              hashCommentOf (generateHash cleanText);
              componentCodeOf (cfg_componentName config) (voicesFrom config audioUrls); []]
          ++ drop p (split LF content))).
Proof.
  intros Htext Hblank Hfound Hwet Hsynth Habsent Hnoimport Hpoints Hp.
  assert (Hnonblank : eqStr (trim cleanText) [] = false).
  { destruct (eqStr (trim cleanText) []) eqn:He; [|reflexivity].
    apply eqStr_eq in He. contradiction. }
  unfold processFile, processFileBody.
  rewrite Htext. cbn [mbind Result_bind]. rewrite Hnonblank, Hfound.
  cbn [mbind Result_bind]. rewrite Hwet, Hsynth. cbn [mbind Result_bind].
  unfold injectAudioComponent, injectOptionsOf.
  cbn [default from_option id componentName componentImport].
  rewrite Habsent.
  rewrite (insertFresh_after_import content _ _ _ _ p Hnoimport Hpoints Hp).
  reflexivity.
Qed.
End BlockAfterImport.

(** The failing input of C2: the sample document that starts with its
    heading. *)
Lemma inject_block_follows_import_sample :
  @hasAudioComponent sampleLibraries docFresh defaultComponentName = Returns false /\
  existsb (fun line => includes line (importHead defaultComponentName)) (split LF docFresh)
    = false /\
  @findInsertionPoints sampleLibraries docFresh
    = Returns {| importPos := 0; componentPos := 0 |} /\
  (0 <= length (split LF docFresh))%nat /\
  @injectAudioComponent sampleLibraries docFresh sampleVoices (js "0a1b")
    {| componentImport := Some defaultComponentImport;
       componentName := Some defaultComponentName |}
  = Returns
      (join [LF]
         ([importStatementOf defaultComponentName defaultComponentImport;
           hashCommentOf (js "0a1b");
           componentCodeOf defaultComponentName sampleVoices; []]
          ++ split LF docFresh)).
Proof.
  assert (Habsent : @hasAudioComponent sampleLibraries docFresh defaultComponentName = Returns false)
    by (vm_compute; reflexivity).
  assert (Hnoimport : existsb (fun line => includes line (importHead defaultComponentName))
                        (split LF docFresh) = false) by (vm_compute; reflexivity).
  assert (Hpoints : @findInsertionPoints sampleLibraries docFresh
                    = Returns {| importPos := 0; componentPos := 0 |})
    by (vm_compute; reflexivity).
  assert (Hp : (0 <= length (split LF docFresh))%nat) by lia.
  split; [exact Habsent|]. split; [exact Hnoimport|]. split; [exact Hpoints|].
  split; [exact Hp|].
  exact (@inject_block_follows_import sampleLibraries docFresh sampleVoices (js "0a1b")
           defaultComponentName defaultComponentImport 0 Habsent Hnoimport Hpoints Hp).
Defined.

(** The failing input of C3: the first run on the same document. *)
Lemma first_run_writes_block_after_import_sample :
  @extractCleanText sampleLibraries docFresh = Returns (trim sampleText) /\
  trim (trim sampleText) <> [] /\
  @extractExistingAudioData sampleLibraries docFresh (cfg_componentName sampleConfig)
    = Returns None /\
  cfg_dryRun sampleConfig = false /\
  @synthesizeAll sampleLibraries sampleConfig (trim sampleText) (js "docs/intro.mdx")
    (cfg_voiceIds sampleConfig) ∅
    = Returns {[ js "v1" := js "https://cdn.example.com/audio/docs-intro/v1.mp3" ]} /\
  @processFile sampleLibraries sampleConfig (js "docs/intro.mdx") docFresh
  = Generated sampleVoices
      (join [LF]
         ([importStatementOf defaultComponentName defaultComponentImport;
           hashCommentOf (js "0a1b");
           componentCodeOf defaultComponentName sampleVoices; []]
          ++ split LF docFresh)).
Proof.
  assert (Htext : @extractCleanText sampleLibraries docFresh = Returns (trim sampleText))
    by (vm_compute; reflexivity).
  assert (Hblank : trim (trim sampleText) <> []) by (vm_compute; discriminate).
  assert (Hfound : @extractExistingAudioData sampleLibraries docFresh
                     (cfg_componentName sampleConfig) = Returns None)
    by (vm_compute; reflexivity).
  assert (Hwet : cfg_dryRun sampleConfig = false) by reflexivity.
  assert (Hsynth : @synthesizeAll sampleLibraries sampleConfig (trim sampleText)
                     (js "docs/intro.mdx") (cfg_voiceIds sampleConfig) ∅
                   = Returns {[ js "v1" := js "https://cdn.example.com/audio/docs-intro/v1.mp3" ]}).
  { reflexivity. }
  assert (Habsent : @hasAudioComponent sampleLibraries docFresh (cfg_componentName sampleConfig)
                    = Returns false)
    by (vm_compute; reflexivity).
  assert (Hnoimport : existsb (fun line => includes line
                                 (importHead (cfg_componentName sampleConfig)))
                        (split LF docFresh) = false) by (vm_compute; reflexivity).
  assert (Hpoints : @findInsertionPoints sampleLibraries docFresh
                    = Returns {| importPos := 0; componentPos := 0 |})
    by (vm_compute; reflexivity).
  assert (Hp : (0 <= length (split LF docFresh))%nat) by lia.
  split; [exact Htext|]. split; [exact Hblank|]. split; [exact Hfound|].
  split; [exact Hwet|]. split; [exact Hsynth|].
  rewrite (@first_run_writes_block_after_import sampleLibraries sampleConfig
             (js "docs/intro.mdx") docFresh (trim sampleText) _ 0
             Htext Hblank Hfound Hwet Hsynth Habsent Hnoimport Hpoints Hp).
  f_equal.
Defined.

(* ===================================================================== *)
(** * The scan of a global replace: leftmost matches, one after another    *)
(* ===================================================================== *)

Lemma replaceAll_passes_over (m : matcher) (k : nat) :
  forall s, (k <= length s)%nat -> replaceAll m k s = replaceAll m 0 (drop k s).
Proof.
  induction k as [|k IH]; intros s Hk; [reflexivity|].
  destruct s as [|c t]; [simpl in Hk; lia|].
  rewrite replaceAll_skip. simpl drop. apply IH. simpl in Hk. lia.
Qed.

(** Where the pattern matches nowhere, the text is returned as it is. *)
Lemma replaceGlobal_no_match (m : matcher) (s : jsstring) :
  (forall i, (i < length s)%nat -> m (drop i s) = None) -> replaceGlobal m s = s.
Proof.
  unfold replaceGlobal. induction s as [|c t IH]; intros Hnone; [reflexivity|].
  rewrite replaceAll_copy by (apply (Hnone 0%nat); simpl; lia).
  f_equal. apply IH. intros i Hi. apply (Hnone (S i)). simpl. lia.
Qed.

(** The text before the leftmost match is copied, the match is replaced,
    and the scan resumes behind it. *)
Lemma replaceGlobal_leftmost (m : matcher) (before rest replacement : jsstring) (n : nat) :
  (forall i, (i < length before)%nat -> m (drop i (before ++ rest)) = None) ->
  m rest = Some (replacement, n) ->
  (1 <= n <= length rest)%nat ->
  replaceGlobal m (before ++ rest)
  = before ++ replacement ++ replaceGlobal m (drop n rest).
Proof.
  unfold replaceGlobal. induction before as [|c before IH]; intros Hnone Hmatch Hn.
  - destruct rest as [|c t]; [simpl in Hn; lia|].
    simpl app. rewrite (replaceAll_match _ _ _ _ _ Hmatch).
    rewrite replaceAll_passes_over by (simpl in Hn; lia).
    destruct n as [|n]; [lia|]. reflexivity.
  - simpl app. rewrite replaceAll_copy by (apply (Hnone 0%nat); simpl; lia).
    f_equal. apply IH; [|assumption|assumption].
    intros i Hi. apply (Hnone (S i)). simpl. lia.
Qed.

(** A run of newlines between two other code units: three or more become
    exactly two. *)
Example blank_run_collapses :
  forall n, (3 <= n)%nat ->
  replaceGlobal rxBlankLines (js "a" ++ repeat LF n ++ js "b") = js "a" ++ [LF; LF] ++ js "b".
Proof.
  intros n Hn.
  assert (Hrun : leadingLF (repeat LF n ++ js "b") = n).
  { clear Hn. induction n as [|n IH]; [reflexivity|].
    simpl repeat. simpl app. rewrite leadingLF_cons_LF. now rewrite IH. }
  rewrite (replaceGlobal_leftmost rxBlankLines (js "a") (repeat LF n ++ js "b") [LF; LF] n).
  - rewrite drop_app_length' by (symmetry; apply repeat_length). reflexivity.
  - intros i Hi. destruct i as [|i]; [reflexivity|simpl in Hi; lia].
  - rewrite rxBlankLines_eq, Hrun.
    destruct (Nat.leb_spec 3 n); [reflexivity|lia].
  - rewrite length_app, repeat_length. lia.
Qed.

(** The head of the text the first run writes for the sample document:
    the annotation stands directly under the import statement. *)
Example first_run_first_lines :
  match @processFile sampleLibraries sampleConfig (js "docs/intro.mdx") docFresh with
  | Generated _ writtenContent => take 3 (split LF writtenContent)
  | _ => []
  end
  = [js "import { AudioTranscript } from '/snippets/audio-transcript.jsx';";
     js "{/* speak-mintlify-hash: 0a1b */}";
     js "<AudioTranscript voices={["].
Proof. vm_compute. reflexivity. Qed.

(** With a blank line before the heading, the block is set off from the
    import statement. *)
Example inject_with_blank_line :
  placeBlock
    [js "import { AudioTranscript } from '/snippets/audio-transcript.jsx';"; [];
     js "# Title"]
    2 (js "{/* speak-mintlify-hash: 0a1b */}") (js "<AudioTranscript voices={[]} />")
  = [js "import { AudioTranscript } from '/snippets/audio-transcript.jsx';"; [];
     js "{/* speak-mintlify-hash: 0a1b */}"; js "<AudioTranscript voices={[]} />"; [];
     js "# Title"].
Proof. vm_compute. reflexivity. Qed.

(* ===================================================================== *)
(** * Properties of [remarkRemoveJSX]                                      *)
(* ===================================================================== *)

Lemma remarkRemoveJSX_children (tree : Node) :
  node_children (remarkRemoveJSX tree)
  = map remarkRemoveJSX
      (List.filter (fun child => negb (isJSX (node_type child))) (node_children tree)).
Proof.
  destruct tree as [type value name attributes children position].
  cbn [remarkRemoveJSX node_children].
  induction children as [|child later IH]; [reflexivity|].
  cbn [List.filter]. destruct (isJSX (node_type child)); cbn [negb map]; now rewrite IH.
Qed.

Lemma remarkRemoveJSX_type (tree : Node) :
  node_type (remarkRemoveJSX tree) = node_type tree.
Proof. now destruct tree. Qed.

Lemma preorder_unfold (node : Node) :
  preorder node = node :: concat (map preorder (node_children node)).
Proof. now destruct node. Qed.

(** X12.  After [remarkRemoveJSX] no JSX element and no expression, of
    the flow or of the text kind, is left anywhere below the root of the
    tree. *)
Lemma remarkRemoveJSX_clean (tree : Node) :
  Forall (fun node => isJSX (node_type node) = false)
    (concat (map preorder (node_children (remarkRemoveJSX tree)))).
Proof.
  induction tree as [type value name attributes children position IH]
    using Node_children_ind.
  rewrite remarkRemoveJSX_children. cbn [node_children].
  induction IH as [|child later Hchild _ IHl]; [constructor|].
  cbn [List.filter]. destruct (isJSX (node_type child)) eqn:Hkind; cbn [negb]; [exact IHl|].
  cbn [map concat]. apply Forall_app. split; [|exact IHl].
  rewrite preorder_unfold. constructor; [|exact Hchild].
  now rewrite remarkRemoveJSX_type.
Qed.

(** Components and expressions among the children of the root -- such as
    the annotation and the component of a narration block -- leave no
    trace in the tree that is rendered. *)
Lemma remarkRemoveJSX_drops_block (type : NodeType) (value name : option jsstring)
  (attributes : list Attribute) (before inserted after : list Node)
  (position : option Position) :
  Forall (fun node => isJSX (node_type node) = true) inserted ->
  remarkRemoveJSX (MkNode type value name attributes (before ++ inserted ++ after) position)
  = remarkRemoveJSX (MkNode type value name attributes (before ++ after) position).
Proof.
  intros Hblock. cbn [remarkRemoveJSX]. f_equal.
  induction before as [|child later IH].
  - cbn [app]. induction Hblock as [|node rest Hnode _ IHb]; [reflexivity|].
    cbn [app]. now rewrite Hnode.
  - cbn [app]. now rewrite IH.
Qed.

(** With the stand-in libraries the sample document and its narrated
    version have the same canonical text. *)
Example same_text_with_block :
  @extractCleanText sampleLibraries docNarrated = @extractCleanText sampleLibraries docFresh /\
  @extractCleanText sampleLibraries docFresh = Returns (js "Title" ++ [LF; LF] ++ js "Hello.").
Proof. vm_compute. split; reflexivity. Qed.

(* ===================================================================== *)
(** * Uploaded objects, their URLs and their keys                          *)
(* ===================================================================== *)

Lemma startsWith_prefix (p rest : jsstring) : startsWith (p ++ rest) p = true.
Proof. apply startsWith_app. now exists rest. Qed.

Lemma orElse_same (s : jsstring) : orElse (Some s) s = s.
Proof. now destruct s. Qed.

Lemma orElse_empty (s : jsstring) : orElse (Some s) [] = s.
Proof. now destruct s. Qed.

Section KeyRoundTrip.
Context `{Libraries}.
Variable config : S3Config.

Lemma extractKeyFromUrl_under_base (key : jsstring) (publicUrlArg : option jsstring) :
  publicUrlArg = None \/ publicUrlArg = Some (publicUrl config) ->
  extractKeyFromUrl config (dropTrailingSlash (publicUrl config) ++ js "/" ++ key) publicUrlArg
  = key.
Proof.
  intros Harg. unfold extractKeyFromUrl.
  assert (Hbase : orElse publicUrlArg (publicUrl config) = publicUrl config).
  { destruct Harg as [->| ->]; [reflexivity|apply orElse_same]. }
  rewrite Hbase, startsWith_prefix.
  rewrite <- drop_drop, drop_app_length. reflexivity.
Qed.

(** X1.  The key [extractKeyFromUrl] reads from the public URL that
    [uploadAudio] returns for an object is the key [generateKey] stored
    the object under, with the base URL passed explicitly (as the cleanup
    command does) or left out, and whether or not the configured public
    URL ends in a slash. *)
Theorem extractKeyFromUrl_uploadedUrl (filePath voiceId : jsstring) :
  extractKeyFromUrl config (uploadedUrl config filePath voiceId) (Some (publicUrl config))
    = generateKey config filePath voiceId /\
  extractKeyFromUrl config (uploadedUrl config filePath voiceId) None
    = generateKey config filePath voiceId.
Proof.
  unfold uploadedUrl. split; apply extractKeyFromUrl_under_base; auto.
Qed.
End KeyRoundTrip.

(* ===================================================================== *)
(** * Properties of a generating run                                       *)
(* ===================================================================== *)

Section GeneratedRun.
Context `{Libraries}.
Variable config : ResolvedConfig.

Lemma synthesizeAll_returns (cleanText file : jsstring) (ids : list jsstring) :
  forall audioUrls result,
    synthesizeAll config cleanText file ids audioUrls = Returns result ->
    (forall id, id ∈ ids ->
       exists buffer, textToSpeech cleanText id = Returns buffer /\
         putObject (generateKey (uploaderConfig config) file id) buffer = Returns tt) /\
    (forall id, id ∈ ids ->
       result !! id = Some (uploadedUrl (uploaderConfig config) file id)) /\
    (forall id, id ∉ ids -> result !! id = audioUrls !! id).
Proof.
  induction ids as [|voiceId later IH]; intros audioUrls result Hrun.
  - injection Hrun as <-.
    split; [|split]; intros id Hin; solve [inversion Hin | reflexivity].
  - cbn [synthesizeAll] in Hrun.
    destruct (textToSpeech cleanText voiceId) as [buffer|] eqn:Htts;
      cbn [mbind Result_bind] in Hrun; [|discriminate].
    destruct (putObject _ buffer) as [[]|] eqn:Hput;
      cbn [mbind Result_bind] in Hrun; [|discriminate].
    apply IH in Hrun as (Hcalls & Hin & Hout).
    split; [|split].
    + intros id [->|Hid]%elem_of_cons; [eauto|auto].
    + intros id Hid. destruct (decide (id ∈ later)) as [Hlater|Hlater]; [auto|].
      rewrite (Hout id Hlater).
      apply elem_of_cons in Hid as [->|Hid]; [|contradiction].
      apply lookup_insert_eq.
    + intros id Hid. apply not_elem_of_cons in Hid as [Hne Hid].
      rewrite (Hout id Hid). now apply lookup_insert_ne.
Qed.

Lemma synthesizeAll_throws (cleanText file : jsstring) (ids : list jsstring) :
  forall audioUrls,
    synthesizeAll config cleanText file ids audioUrls = Throws <->
    exists id, id ∈ ids /\
      (textToSpeech cleanText id = Throws \/
       exists buffer, textToSpeech cleanText id = Returns buffer /\
         putObject (generateKey (uploaderConfig config) file id) buffer = Throws).
Proof.
  induction ids as [|voiceId later IH]; intros audioUrls.
  - split; [discriminate|]. intros (id & Hin & _). inversion Hin.
  - cbn [synthesizeAll].
    destruct (textToSpeech cleanText voiceId) as [buffer|] eqn:Htts;
      cbn [mbind Result_bind].
    + destruct (putObject _ buffer) as [[]|] eqn:Hput; cbn [mbind Result_bind].
      * rewrite IH. split.
        -- intros (id & Hin & Hfail). exists id. split; [now apply elem_of_cons; right|exact Hfail].
        -- intros (id & Hin & Hfail). apply elem_of_cons in Hin as [->|Hin].
           ++ destruct Hfail as [Hfail|(b & Hb & Hfail)]; [congruence|].
              rewrite Htts in Hb. injection Hb as <-. congruence.
           ++ exists id. split; [exact Hin|exact Hfail].
      * split; [intros _|reflexivity].
        exists voiceId. split; [apply elem_of_cons; now left|]. right. eauto.
    + split; [intros _|reflexivity].
      exists voiceId. split; [apply elem_of_cons; now left|]. now left.
Qed.

Lemma voicesFrom_uploaded (cleanText file : jsstring) (result : gmap jsstring jsstring) :
  synthesizeAll config cleanText file (cfg_voiceIds config) ∅ = Returns result ->
  voicesFrom config result = uploadedVoices config file.
Proof.
  intros Hrun. apply synthesizeAll_returns in Hrun as (_ & Hin & _).
  unfold voicesFrom, uploadedVoices. apply imap_ext. intros idx id Hid.
  rewrite (Hin id) by (eapply list_elem_of_lookup_2; exact Hid).
  now rewrite orElse_empty.
Qed.

Lemma mockVoicesFor_uploaded (file : jsstring) :
  cfg_s3PathPrefix config <> [] ->
  mockVoicesFor config file = uploadedVoices config file.
Proof.
  intros Hprefix. unfold mockVoicesFor, uploadedVoices. apply imap_ext. intros idx id _.
  f_equal. f_equal. unfold uploadedUrl, generateKey.
  cbn [uploaderConfig publicUrl pathPrefix].
  destruct (cfg_s3PathPrefix config) as [|c prefix]; [contradiction|].
  reflexivity.
Qed.
End GeneratedRun.

Section DryAndRealRun.
Context `{Libraries}.
Variable config : ResolvedConfig.

Lemma generated_inv (file content : jsstring) (newVoices : list Voice) (written : jsstring) :
  processFile config file content = Generated newVoices written ->
  cfg_dryRun config = false /\
  exists cleanText audioUrls,
    extractCleanText content = Returns cleanText /\
    synthesizeAll config cleanText file (cfg_voiceIds config) ∅ = Returns audioUrls /\
    newVoices = voicesFrom config audioUrls /\
    injectAudioComponent content newVoices (generateHash cleanText) (injectOptionsOf config)
      = Returns written.
Proof.
  unfold processFile, processFileBody.
  destruct (extractCleanText content) as [cleanText|]; cbn [mbind Result_bind];
    [|discriminate].
  destruct (eqStr (trim cleanText) []); [discriminate|].
  destruct (extractExistingAudioData content (cfg_componentName config)) as [existing|];
    cbn [mbind Result_bind]; [|discriminate].
  destruct (match existing with
            | Some d => if hashMatches d (generateHash cleanText)
                           && voicesMatch d (cfg_voiceIds config)
                        then Some (voices d) else None
            | None => None
            end); [discriminate|].
  destruct (cfg_dryRun config).
  { destruct (injectAudioComponent _ _ _ _); discriminate. }
  destruct (synthesizeAll config cleanText file (cfg_voiceIds config) ∅) as [audioUrls|] eqn:Hrun;
    cbn [mbind Result_bind]; [|discriminate].
  destruct (injectAudioComponent _ _ _ _) as [updated|] eqn:Hinject;
    cbn [mbind Result_bind mret Result_ret]; [|discriminate].
  intros Hout. injection Hout as <- <-.
  split; [reflexivity|]. exists cleanText, audioUrls. auto.
Qed.

Lemma uploadedUrl_not_empty (file id : jsstring) :
  uploadedUrl (uploaderConfig config) file id <> [].
Proof.
  unfold uploadedUrl. intros Heq. apply app_eq_nil in Heq as [_ Heq]. discriminate.
Qed.

(** X2.  A run reports a document as generated only if every requested
    voice was synthesised from the canonical text and stored under its
    key; the voices it records are then the requested ids in order, each
    with its display name and the public URL of its object, and the text
    it writes is the injection of exactly these voices with the
    fingerprint of the canonical text. *)
Theorem generated_voices_uploaded (file content : jsstring)
  (newVoices : list Voice) (written : jsstring) :
  processFile config file content = Generated newVoices written ->
  cfg_dryRun config = false /\
  newVoices = uploadedVoices config file /\
  exists cleanText,
    extractCleanText content = Returns cleanText /\
    (forall id, id ∈ cfg_voiceIds config ->
       exists buffer, textToSpeech cleanText id = Returns buffer /\
         putObject (generateKey (uploaderConfig config) file id) buffer = Returns tt) /\
    injectAudioComponent content newVoices (generateHash cleanText) (injectOptionsOf config)
      = Returns written.
Proof.
  intros Hout.
  apply generated_inv in Hout as (Hwet & cleanText & audioUrls & Htext & Hrun & -> & Hinject).
  split; [exact Hwet|]. split; [now apply voicesFrom_uploaded with cleanText|].
  exists cleanText. split; [exact Htext|]. split; [|exact Hinject].
  now apply synthesizeAll_returns in Hrun as (Hcalls & _).
Qed.

(** X4.  The keys the cleanup command derives from the voices a
    generating run records, read back as the values their serialisation
    parses to, are exactly the keys under which that run stored its
    objects: one per requested voice id. *)
Theorem recorded_voices_reference_uploads (file content : jsstring)
  (newVoices : list Voice) (written : jsstring) :
  processFile config file content = Generated newVoices written ->
  exists keys,
    addVoiceKeys config (map voiceJson newVoices) ∅ = Returns keys /\
    forall k, k ∈ keys <->
              exists id, id ∈ cfg_voiceIds config /\
                         k = generateKey (uploaderConfig config) file id.
Proof.
  intros Hout.
  apply generated_inv in Hout as (_ & cleanText & audioUrls & _ & Hrun & -> & _).
  rewrite (voicesFrom_uploaded config cleanText file audioUrls Hrun).
  destruct (addVoiceKeys_voices config (uploadedVoices config file) ∅) as [keys Hkeys].
  exists keys. split; [exact Hkeys|]. intros k.
  rewrite (addVoiceKeys_elem config _ _ _ Hkeys k). unfold uploadedVoices, keyOfUrl. split.
  - intros [Hempty|(voice & u & Hin & Hurl & _ & ->)]; [set_solver|].
    apply list_elem_of_fmap in Hin as (v & -> & Hin).
    apply elem_of_lookup_imap in Hin as (idx & id & -> & Hid).
    rewrite voiceJson_url in Hurl. cbn [voice_url option_map] in Hurl.
    injection Hurl as <-.
    exists id. split; [eapply list_elem_of_lookup_2; exact Hid|].
    unfold uploadedUrl.
    now apply (extractKeyFromUrl_under_base (uploaderConfig config)); right.
  - intros (id & Hid & ->). right.
    apply list_elem_of_lookup in Hid as [idx Hid].
    eexists _, (uploadedUrl (uploaderConfig config) file id).
    split; [apply list_elem_of_fmap; eexists; split;
            [reflexivity|eapply elem_of_lookup_imap_2; exact Hid]|].
    split; [now rewrite voiceJson_url|]. split; [apply uploadedUrl_not_empty|].
    unfold uploadedUrl. symmetry.
    now apply (extractKeyFromUrl_under_base (uploaderConfig config)); right.
Qed.

(** X3.  With a non-empty path prefix a dry run previews the real run:
    whatever text and voices the real run writes are the ones the dry run
    shows, a dry-run preview is what the real run writes unless a speech
    or upload call fails, and every other outcome (no extractable text,
    content unchanged, failure) is the same in both. *)
Theorem dry_run_previews_real_run (file content : jsstring) :
  cfg_s3PathPrefix config <> [] ->
  (forall newVoices written,
     processFile (withDryRun false config) file content = Generated newVoices written ->
     processFile (withDryRun true config) file content = DryRunPreview newVoices written) /\
  match processFile (withDryRun true config) file content with
  | DryRunPreview mockVoices updatedContent =>
      processFile (withDryRun false config) file content = Generated mockVoices updatedContent \/
      processFile (withDryRun false config) file content = Failed
  | outcome => processFile (withDryRun false config) file content = outcome
  end.
Proof.
  intros Hprefix.
  unfold processFile, processFileBody.
  change (cfg_componentName (withDryRun true config)) with (cfg_componentName config).
  change (cfg_componentName (withDryRun false config)) with (cfg_componentName config).
  change (cfg_voiceIds (withDryRun true config)) with (cfg_voiceIds config).
  change (cfg_voiceIds (withDryRun false config)) with (cfg_voiceIds config).
  change (cfg_dryRun (withDryRun true config)) with true.
  change (cfg_dryRun (withDryRun false config)) with false.
  change (injectOptionsOf (withDryRun true config)) with (injectOptionsOf config).
  change (injectOptionsOf (withDryRun false config)) with (injectOptionsOf config).
  change (mockVoicesFor (withDryRun true config) file) with (mockVoicesFor config file).
  change (synthesizeAll (withDryRun false config)) with (synthesizeAll config).
  change (voicesFrom (withDryRun false config)) with (voicesFrom config).
  cbv iota.
  destruct (extractCleanText content) as [cleanText|]; cbn [mbind Result_bind];
    [|split; [discriminate|reflexivity]].
  destruct (eqStr (trim cleanText) []); [split; [discriminate|reflexivity]|].
  destruct (extractExistingAudioData content (cfg_componentName config)) as [existing|];
    cbn [mbind Result_bind]; [|split; [discriminate|reflexivity]].
  destruct (match existing with
            | Some d => if hashMatches d (generateHash cleanText)
                           && voicesMatch d (cfg_voiceIds config)
                        then Some (voices d) else None
            | None => None
            end); [split; [discriminate|reflexivity]|].
  rewrite (mockVoicesFor_uploaded config file Hprefix).
  destruct (synthesizeAll config cleanText file (cfg_voiceIds config) ∅) as [audioUrls|] eqn:Hrun;
    cbn [mbind Result_bind].
  - rewrite (voicesFrom_uploaded config cleanText file audioUrls Hrun).
    destruct (injectAudioComponent _ _ _ _) as [updated|];
      cbn [mbind Result_bind mret Result_ret].
    + split; [intros ? ? Hout; injection Hout as <- <-; reflexivity|now left].
    + split; [discriminate|reflexivity].
  - split; [discriminate|].
    destruct (injectAudioComponent _ _ _ _) as [updated|];
      cbn [mbind Result_bind mret Result_ret]; [now right|reflexivity].
Qed.
End DryAndRealRun.

(** The first run on the sample document, for X2. *)
Lemma generated_voices_uploaded_sample :
  @processFile sampleLibraries sampleConfig (js "docs/intro.mdx") docFresh
    = Generated sampleVoices docFirstRun /\
  sampleVoices = @uploadedVoices sampleLibraries sampleConfig (js "docs/intro.mdx").
Proof.
  assert (Hrun : @processFile sampleLibraries sampleConfig (js "docs/intro.mdx") docFresh
                 = Generated sampleVoices docFirstRun) by (vm_compute; reflexivity).
  split; [exact Hrun|].
  exact (proj1 (proj2 (@generated_voices_uploaded sampleLibraries sampleConfig _ _ _ _ Hrun))).
Defined.

(** The dry run on the sample document shows what the first run writes. *)
Lemma dry_run_previews_real_run_sample :
  cfg_s3PathPrefix sampleConfig <> [] /\
  @processFile sampleLibraries (withDryRun true sampleConfig) (js "docs/intro.mdx") docFresh
    = DryRunPreview sampleVoices docFirstRun.
Proof.
  assert (Hprefix : cfg_s3PathPrefix sampleConfig <> []) by discriminate.
  split; [exact Hprefix|].
  apply (proj1 (@dry_run_previews_real_run sampleLibraries sampleConfig
                  (js "docs/intro.mdx") docFresh Hprefix)).
  vm_compute. reflexivity.
Defined.

(** The one object of the first run on the sample document is the one its
    recorded voice refers to. *)
Lemma recorded_voices_reference_uploads_sample :
  @processFile sampleLibraries sampleConfig (js "docs/intro.mdx") docFresh
    = Generated sampleVoices docFirstRun /\
  exists keys,
    @addVoiceKeys sampleLibraries sampleConfig (map voiceJson sampleVoices) ∅ = Returns keys /\
    js "audio/docs-intro/v1.mp3" ∈ keys.
Proof.
  assert (Hrun : @processFile sampleLibraries sampleConfig (js "docs/intro.mdx") docFresh
                 = Generated sampleVoices docFirstRun) by (vm_compute; reflexivity).
  split; [exact Hrun|].
  destruct (@recorded_voices_reference_uploads sampleLibraries sampleConfig _ _ _ _ Hrun)
    as (keys & Hkeys & Hin).
  exists keys. split; [exact Hkeys|]. apply Hin.
  exists (js "v1"). split; [apply list_elem_of_In; now left|vm_compute; reflexivity].
Defined.

(* ===================================================================== *)
(** * What an injection keeps and what it adds                             *)
(* ===================================================================== *)

Lemma includes_spec (s sub : jsstring) :
  includes s sub = true <-> exists pre post, s = pre ++ sub ++ post.
Proof.
  split.
  - induction s as [|c t IH]; cbn [includes]; rewrite orb_true_iff.
    + intros [Hstart|Hno]; [|discriminate].
      apply startsWith_app in Hstart as [rest ->]. now exists [], rest.
    + intros [Hstart|Hlater].
      * apply startsWith_app in Hstart as [rest ->]. now exists [], rest.
      * destruct (IH Hlater) as (pre & post & ->). now exists (c :: pre), post.
  - intros (pre & post & ->). induction pre as [|c pre IH].
    + destruct (sub ++ post) eqn:Heq; cbn [includes app]; rewrite <- ?Heq;
        apply orb_true_iff; left; apply startsWith_prefix.
    + cbn [includes app]. rewrite IH. apply orb_true_r.
Qed.

Lemma join_elem (sep : jsstring) (parts : list jsstring) (x : jsstring) :
  x ∈ parts -> exists pre post, join sep parts = pre ++ x ++ post.
Proof.
  induction parts as [|p rest IH]; intros Hin; [inversion Hin|].
  apply elem_of_cons in Hin as [->|Hin].
  - destruct rest as [|q rest]; cbn [join].
    + exists [], []. now rewrite app_nil_r.
    + now exists [], (sep ++ join sep (q :: rest)).
  - destruct (IH Hin) as (pre & post & Heq).
    destruct rest as [|q rest]; [inversion Hin|].
    cbn [join] in *. rewrite Heq. exists (p ++ sep ++ pre), post.
    now rewrite <- !app_assoc.
Qed.

Lemma includes_join (sep : jsstring) (parts : list jsstring) (x : jsstring) :
  x ∈ parts -> includes (join sep parts) x = true.
Proof. intros Hin. apply includes_spec. now apply join_elem. Qed.

Lemma includes_prefix_of (s x rest : jsstring) :
  includes s (x ++ rest) = true -> includes s x = true.
Proof.
  rewrite !includes_spec. intros (pre & post & ->).
  exists pre, (rest ++ post). now rewrite <- app_assoc.
Qed.

(** A splice that deletes nothing inserts its items at some position. *)
Lemma splice_zero {A} (l : list A) (start : Z) (items : list A) :
  exists a, splice l start 0 items = take a l ++ items ++ drop a l.
Proof.
  unfold splice.
  set (len := Z.of_nat (length l)).
  set (actualStart := if (start <? 0)%Z then Z.max (len + start) 0 else Z.min start len).
  assert (Hle : (actualStart <= len)%Z).
  { subst actualStart len. destruct (Z.ltb_spec start 0); lia. }
  exists (Z.to_nat actualStart).
  replace (Z.min (Z.max 0 0) (len - actualStart)) with 0%Z by lia.
  now rewrite Z.add_0_r.
Qed.

Lemma splice_zero_sublist {A} (l : list A) (start : Z) (items : list A) :
  l `sublist_of` splice l start 0 items.
Proof.
  destruct (splice_zero l start items) as [a ->].
  rewrite <- (take_drop a l) at 1.
  apply sublist_app; [reflexivity|]. now apply sublist_inserts_l.
Qed.

Lemma splice_zero_length {A} (l : list A) (start : Z) (items : list A) :
  length (splice l start 0 items) = (length l + length items)%nat.
Proof.
  destruct (splice_zero l start items) as [a ->].
  rewrite !length_app. rewrite <- (take_drop a l) at 3. rewrite length_app. lia.
Qed.

Lemma splice_zero_items {A} (l : list A) (start : Z) (items : list A) (x : A) :
  x ∈ items -> x ∈ splice l start 0 items.
Proof.
  intros Hin. destruct (splice_zero l start items) as [a ->].
  apply elem_of_app. right. apply elem_of_app. now left.
Qed.

Lemma splice_zero_keeps {A} (l : list A) (start : Z) (items : list A) (x : A) :
  x ∈ l -> x ∈ splice l start 0 items.
Proof.
  intros Hin. eapply elem_of_sublist; [exact Hin|apply splice_zero_sublist].
Qed.

Lemma placeBlock_facts (lines : list jsstring) (pos : Z) (hashComment componentCode : jsstring) :
  lines `sublist_of` placeBlock lines pos hashComment componentCode /\
  (length lines + 2 <= length (placeBlock lines pos hashComment componentCode)
     <= length lines + 4)%nat /\
  hashComment ∈ placeBlock lines pos hashComment componentCode /\
  componentCode ∈ placeBlock lines pos hashComment componentCode.
Proof.
  unfold placeBlock.
  set (l1 := if notBlankAt lines (pos - 1) then splice lines pos 0 [[]] else lines).
  set (l2 := splice l1 pos 0 [hashComment]).
  set (l3 := splice l2 (pos + 1) 0 [componentCode]).
  assert (H1 : lines `sublist_of` l1 /\ (length lines <= length l1 <= length lines + 1)%nat).
  { subst l1. destruct (notBlankAt lines (pos - 1)).
    - split; [apply splice_zero_sublist|rewrite splice_zero_length; simpl; lia].
    - split; [reflexivity|lia]. }
  assert (H2 : l1 `sublist_of` l2 /\ length l2 = (length l1 + 1)%nat /\ hashComment ∈ l2).
  { subst l2. split; [apply splice_zero_sublist|].
    split; [now rewrite splice_zero_length|].
    apply splice_zero_items. now apply list_elem_of_In; left. }
  assert (H3 : l2 `sublist_of` l3 /\ length l3 = (length l2 + 1)%nat /\ componentCode ∈ l3).
  { subst l3. split; [apply splice_zero_sublist|].
    split; [now rewrite splice_zero_length|].
    apply splice_zero_items. now apply list_elem_of_In; left. }
  destruct H1 as [S1 L1], H2 as (S2 & L2 & E2), H3 as (S3 & L3 & E3).
  assert (S13 : lines `sublist_of` l3) by (etrans; [exact S1|]; etrans; [exact S2|exact S3]).
  assert (E23 : hashComment ∈ l3) by (eapply elem_of_sublist; [exact E2|exact S3]).
  destruct (notBlankAt l3 (pos + 2)).
  - split; [etrans; [exact S13|apply splice_zero_sublist]|].
    split; [rewrite splice_zero_length; simpl; lia|].
    split; now apply splice_zero_keeps.
  - split; [exact S13|]. split; [lia|]. now split.
Qed.

Section InjectionFacts.
Context `{Libraries}.

Lemma insertFresh_lines (mdxContent : jsstring) (voices : list Voice)
  (hash name import result : jsstring) :
  insertFresh mdxContent voices hash name import = Returns result ->
  exists lines,
    result = join [LF] lines /\
    split LF mdxContent `sublist_of` lines /\
    (length (split LF mdxContent) + 2 <= length lines <= length (split LF mdxContent) + 5)%nat /\
    hashCommentOf hash ∈ lines /\ componentCodeOf name voices ∈ lines.
Proof.
  unfold insertFresh.
  destruct (findInsertionPoints mdxContent) as [points|]; cbn [mbind Result_bind];
    [|discriminate].
  intros Hout. injection Hout as <-.
  match goal with
  | |- context [placeBlock ?l ?p ?h ?c] =>
      exists (placeBlock l p h c); split; [reflexivity|];
      destruct (placeBlock_facts l p h c) as (Hsub & Hlen & Hh & Hc);
      assert (Hfirst : split LF mdxContent `sublist_of` l /\
                       (length (split LF mdxContent) <= length l
                          <= length (split LF mdxContent) + 1)%nat)
  end.
  { destruct (existsb _ _).
    - split; [reflexivity|lia].
    - split; [apply splice_zero_sublist|rewrite splice_zero_length; simpl; lia]. }
  destruct Hfirst as [Hkeep Hone].
  split; [etrans; [exact Hkeep|exact Hsub]|]. split; [lia|]. now split.
Qed.

Lemma relocate_lines (mdxContent : jsstring) (voices : list Voice)
  (hash name result : jsstring) :
  relocate mdxContent voices hash name = Some result ->
  exists lines,
    result = join [LF] lines /\
    hashCommentOf hash ∈ lines /\ componentCodeOf name voices ∈ lines.
Proof.
  unfold relocate. destruct (_ && _); [|discriminate].
  intros Hout. injection Hout as <-.
  eexists. split; [reflexivity|].
  split; apply splice_zero_items, list_elem_of_In; cbn; auto.
Qed.

(** X5.  Whatever the document looks like, the text [injectAudioComponent]
    returns holds the annotation with the given fingerprint and the
    component with the given voices; for a component name without pattern
    syntax [hasAudioComponent] is therefore true of it. *)
Theorem inject_contains_block (mdxContent : jsstring) (voices : list Voice)
  (hash : jsstring) (options : InjectOptions) (result : jsstring) :
  injectAudioComponent mdxContent voices hash options = Returns result ->
  let name := default defaultComponentName (componentName options) in
  includes result (hashCommentOf hash) = true /\
  includes result (componentCodeOf name voices) = true /\
  (literalPattern name = true -> hasAudioComponent result name = Returns true).
Proof.
  intros Hout name.
  assert (Hlines : exists lines, result = join [LF] lines /\
            hashCommentOf hash ∈ lines /\ componentCodeOf name voices ∈ lines).
  { unfold injectAudioComponent in Hout. fold name in Hout.
    destruct (hasAudioComponent mdxContent name) as [present|]; [|discriminate].
    cbn [mbind Result_bind] in Hout.
    destruct (if present then relocate mdxContent voices hash name else None)
      as [updated|] eqn:Hmoved.
    - injection Hout as <-.
      destruct present; [|discriminate].
      now apply relocate_lines with mdxContent.
    - apply insertFresh_lines in Hout as (lines & Hjoin & _ & _ & Hh & Hc). eauto. }
  destruct Hlines as (lines & -> & Hh & Hc).
  assert (Hcomponent : includes (join [LF] lines) (componentCodeOf name voices) = true)
    by now apply includes_join.
  split; [now apply includes_join|]. split; [exact Hcomponent|].
  intros Hliteral. unfold hasAudioComponent. rewrite Hliteral.
  unfold componentCodeOf in Hcomponent.
  rewrite (app_assoc (js "<") name) in Hcomponent.
  cbn [mret Result_ret]. f_equal.
  exact (includes_prefix_of _ _ _ Hcomponent).
Qed.
End InjectionFacts.

(** X5 at the sample document. *)
Lemma inject_contains_block_sample :
  @injectAudioComponent sampleLibraries docFresh sampleVoices (js "0a1b")
    {| componentImport := None; componentName := None |} = Returns docFirstRun /\
  @hasAudioComponent sampleLibraries docFirstRun defaultComponentName = Returns true.
Proof.
  assert (Hrun : @injectAudioComponent sampleLibraries docFresh sampleVoices (js "0a1b")
                   {| componentImport := None; componentName := None |} = Returns docFirstRun)
    by (vm_compute; reflexivity).
  split; [exact Hrun|].
  apply (proj2 (proj2 (@inject_contains_block sampleLibraries _ _ _ _ _ Hrun))).
  reflexivity.
Defined.

(* ===================================================================== *)
(** * When the cleanup command deletes nothing                             *)
(* ===================================================================== *)

Section CleanupSafety.
Context `{Libraries}.
Variable config : ResolvedConfig.

Lemma scanFiles_throws (contents : list jsstring) :
  (exists content, content ∈ contents /\
     extractExistingAudioData content (cfg_componentName config) = Throws) ->
  forall expectedKeys, scanFiles config contents expectedKeys = Throws.
Proof.
  induction contents as [|content later IH]; intros (c & Hin & Hfail) expectedKeys.
  - inversion Hin.
  - cbn [scanFiles].
    apply elem_of_cons in Hin as [->|Hin]; [now rewrite Hfail|].
    destruct (extractExistingAudioData content (cfg_componentName config)) as [existing|];
      cbn [mbind Result_bind]; [|reflexivity].
    match goal with
    | |- context [mbind _ ?keys] => destruct keys as [keysHere|]
    end; cbn [mbind Result_bind]; [|reflexivity].
    apply IH. now exists c.
Qed.

(** X7.  In a dry run, when no document is found, and when the scan of
    some document throws, the cleanup command sends no delete request:
    the bucket stays as it is.  In particular a document that fails to
    parse never turns the audio of the other documents into orphans. *)
Theorem cleanup_sends_no_delete (contents : list jsstring)
  (responses : list ListObjectsV2Output) :
  cfg_dryRun config = true \/ contents = [] \/
  (exists content, content ∈ contents /\
     extractExistingAudioData content (cfg_componentName config) = Throws) ->
  (forall orphanedKeys requests,
     cleanupCommand config contents responses <> Deleted orphanedKeys requests) /\
  (forall objects, bucketAfter objects (cleanupCommand config contents responses) = objects).
Proof.
  intros Hcase.
  assert (Hnone : forall orphanedKeys requests,
            cleanupCommand config contents responses <> Deleted orphanedKeys requests).
  { intros orphanedKeys requests. unfold cleanupCommand.
    destruct (length contents =? 0)%nat eqn:Hfiles; [discriminate|].
    destruct Hcase as [Hdry|[->|Hthrows]].
    - destruct (scanFiles config contents ∅); [|discriminate].
      destruct (length (orphansOf _ _) =? 0)%nat; [discriminate|].
      rewrite Hdry. discriminate.
    - discriminate.
    - rewrite (scanFiles_throws contents Hthrows ∅). discriminate. }
  split; [exact Hnone|]. intros objects.
  destruct (cleanupCommand config contents responses) eqn:Hout; try reflexivity.
  now elim (Hnone orphanedKeys requests).
Qed.

(** X8.  A dry run of the cleanup command reports the orphans the real
    run reports (and deletes); the two differ only in the delete
    requests. *)
Theorem cleanup_dry_run_reports_same (contents : list jsstring)
  (responses : list ListObjectsV2Output) :
  reportedOrphans (cleanupCommand (withDryRun true config) contents responses)
  = reportedOrphans (cleanupCommand (withDryRun false config) contents responses) /\
  (forall orphanedKeys requests,
     cleanupCommand (withDryRun false config) contents responses = Deleted orphanedKeys requests ->
     cleanupCommand (withDryRun true config) contents responses = DryRunReport orphanedKeys /\
     requests = deleteMultiple orphanedKeys /\ orphanedKeys <> []).
Proof.
  unfold cleanupCommand.
  change (scanFiles (withDryRun true config)) with (scanFiles config).
  change (scanFiles (withDryRun false config)) with (scanFiles config).
  change (cfg_dryRun (withDryRun true config)) with true.
  change (cfg_dryRun (withDryRun false config)) with false.
  cbv iota.
  destruct (length contents =? 0)%nat; [split; [reflexivity|intros ? ? Hout; discriminate Hout]|].
  destruct (scanFiles config contents ∅) as [expectedKeys|];
    [|split; [reflexivity|intros ? ? Hout; discriminate Hout]].
  destruct (length (orphansOf (listAllAudioFiles responses) expectedKeys) =? 0)%nat eqn:Hnone;
    [split; [reflexivity|intros ? ? Hout; discriminate Hout]|].
  split; [reflexivity|].
  intros orphanedKeys requests Hout. injection Hout as <- <-.
  split; [reflexivity|]. split; [reflexivity|].
  intros Hempty. rewrite Hempty in Hnone. discriminate.
Qed.
End CleanupSafety.

(** X7 at a malformed document next to the narrated sample document. *)
Lemma cleanup_sends_no_delete_sample :
  @extractExistingAudioData sampleLibraries (js "<Card>") (cfg_componentName sampleConfig)
    = Throws /\
  @cleanupCommand sampleLibraries sampleConfig [docNarrated; js "<Card>"]
    (sampleListing sampleObjects) = CleanupFailed /\
  bucketAfter sampleObjects
    (@cleanupCommand sampleLibraries sampleConfig [docNarrated; js "<Card>"]
       (sampleListing sampleObjects)) = sampleObjects.
Proof.
  assert (Hthrows : @extractExistingAudioData sampleLibraries (js "<Card>")
                      (cfg_componentName sampleConfig) = Throws) by (vm_compute; reflexivity).
  split; [exact Hthrows|]. split; [vm_compute; reflexivity|].
  apply (@cleanup_sends_no_delete sampleLibraries sampleConfig [docNarrated; js "<Card>"]
           (sampleListing sampleObjects)).
  right. right. exists (js "<Card>"). split; [|exact Hthrows].
  apply list_elem_of_In. right. now left.
Defined.

(* ===================================================================== *)
(** * The annotation is read back                                          *)
(* ===================================================================== *)

Lemma countWhile_app_stop (p : char -> bool) (pre : jsstring) (c : char) (rest : jsstring) :
  Forall (fun x => p x = true) pre -> p c = false ->
  countWhile p (pre ++ c :: rest) = length pre.
Proof.
  intros Hpre Hc. induction Hpre as [|x pre Hx _ IH]; cbn [countWhile app length].
  - now rewrite Hc.
  - now rewrite Hx, IH.
Qed.

Lemma skipWhile_app_stop (p : char -> bool) (pre : jsstring) (c : char) (rest : jsstring) :
  Forall (fun x => p x = true) pre -> p c = false ->
  skipWhile p (pre ++ c :: rest) = c :: rest.
Proof.
  intros Hpre Hc. induction Hpre as [|x pre Hx _ IH]; cbn [skipWhile app].
  - now rewrite Hc.
  - now rewrite Hx, IH.
Qed.

Lemma isHex_not_whiteSpace (c : char) : isHex c = true -> isWhiteSpace c = false.
Proof.
  unfold isHex. rewrite orb_true_iff, !andb_true_iff, !N.leb_le. intros Hrange.
  unfold isWhiteSpace, whiteSpaceCodes. cbn [existsb].
  repeat match goal with
         | |- context [N.eqb c ?k] => rewrite (proj2 (N.eqb_neq c k)) by lia
         end.
  reflexivity.
Qed.

Lemma hashMatch_unfold (value : jsstring) :
  hashMatch value =
  match hashMatchAt value with
  | Some digits => Some digits
  | None => match value with [] => None | _ :: t => hashMatch t end
  end.
Proof. now destruct value. Qed.

Lemma hashMatchAt_annotation (h rest : jsstring) :
  h <> [] -> Forall (fun c => isHex c = true) h ->
  hashMatchAt (js "/* speak-mintlify-hash: " ++ h ++ js " */" ++ rest) = Some h.
Proof.
  intros Hne Hhex. unfold hashMatchAt.
  change (js "/* speak-mintlify-hash: " ++ h ++ js " */" ++ rest)
    with (js "/*" ++ [32] ++ hashMarker ++ [32] ++ h ++ 32 :: js "*/" ++ rest).
  rewrite startsWith_prefix.
  change (drop 2 (js "/*" ++ [32] ++ hashMarker ++ [32] ++ h ++ 32 :: js "*/" ++ rest))
    with ([32] ++ 115 :: js "peak-mintlify-hash:" ++ [32] ++ h ++ 32 :: js "*/" ++ rest).
  rewrite skipWhile_app_stop by (repeat constructor).
  change (115 :: js "peak-mintlify-hash:" ++ [32] ++ h ++ 32 :: js "*/" ++ rest)
    with (hashMarker ++ [32] ++ h ++ 32 :: js "*/" ++ rest).
  rewrite startsWith_prefix, drop_app_length.
  destruct h as [|c h']; [contradiction|].
  assert (Hc : isHex c = true) by now inversion Hhex.
  change ([32] ++ (c :: h') ++ 32 :: js "*/" ++ rest)
    with ([32] ++ c :: (h' ++ 32 :: js "*/" ++ rest)).
  rewrite skipWhile_app_stop by (repeat constructor; now apply isHex_not_whiteSpace).
  change (c :: h' ++ 32 :: js "*/" ++ rest) with ((c :: h') ++ 32 :: js "*/" ++ rest).
  rewrite countWhile_app_stop, take_app_length by (assumption || reflexivity).
  rewrite skipWhile_app_stop by (assumption || reflexivity).
  change (32 :: js "*/" ++ rest) with ([32] ++ 42 :: 47 :: rest).
  rewrite skipWhile_app_stop by (repeat constructor).
  reflexivity.
Qed.

(** X9.  The fingerprint written by [injectAudioComponent] is read back by
    [extractExistingAudioData]: for every non-empty string of lower-case
    hexadecimal digits, the pattern of the reader finds exactly this
    string in the annotation, both in the annotation with its braces and
    in the text between them, which is the value of the expression
    node. *)
Theorem hashMatch_reads_annotation (h : jsstring) :
  h <> [] -> Forall (fun c => isHex c = true) h ->
  hashMatch (hashCommentOf h) = Some h /\
  hashMatch (js "/* speak-mintlify-hash: " ++ h ++ js " */") = Some h.
Proof.
  intros Hne Hhex.
  pose proof (hashMatchAt_annotation h (js "}") Hne Hhex) as Hbraced.
  pose proof (hashMatchAt_annotation h [] Hne Hhex) as Hinner.
  rewrite app_nil_r in Hinner.
  split.
  - unfold hashCommentOf.
    change (js "{/* speak-mintlify-hash: " ++ h ++ js " */}")
      with (123 :: js "/* speak-mintlify-hash: " ++ h ++ js " */" ++ js "}").
    rewrite hashMatch_unfold.
    change (hashMatchAt (123 :: js "/* speak-mintlify-hash: " ++ h ++ js " */" ++ js "}"))
      with (@None jsstring).
    cbv iota. rewrite hashMatch_unfold. now rewrite Hbraced.
  - rewrite hashMatch_unfold. now rewrite Hinner.
Qed.

(** X9 at the fingerprint of the sample documents. *)
Lemma hashMatch_reads_annotation_sample :
  js "0a1b" <> [] /\ Forall (fun c => isHex c = true) (js "0a1b") /\
  hashMatch (hashCommentOf (js "0a1b")) = Some (js "0a1b").
Proof.
  assert (Hne : js "0a1b" <> []) by discriminate.
  assert (Hhex : Forall (fun c => isHex c = true) (js "0a1b")) by (repeat constructor).
  split; [exact Hne|]. split; [exact Hhex|].
  exact (proj1 (hashMatch_reads_annotation (js "0a1b") Hne Hhex)).
Defined.

(* ===================================================================== *)
(** * The post-processing never adds text                                  *)
(* ===================================================================== *)

Lemma countWhile_le (p : char -> bool) (s : jsstring) : (countWhile p s <= length s)%nat.
Proof.
  induction s as [|c t IH]; cbn [countWhile length]; [lia|].
  destruct (p c); lia.
Qed.

Lemma commaGroups_le (s : jsstring) :
  forall pending done, (commaGroups s pending done <= done + pending + length s)%nat.
Proof.
  induction s as [|c t IH]; intros pending done; cbn [commaGroups length]; [lia|].
  destruct (c =? COMMA).
  - specialize (IH 0%nat (done + pending + 1)%nat). lia.
  - destruct (isWhiteSpace c); [specialize (IH (S pending) done)|]; lia.
Qed.

Lemma drop_cons_lt {A} (n : nat) (l : list A) (x : A) (rest : list A) :
  drop n l = x :: rest -> (n < length l)%nat.
Proof.
  intros Heq. destruct (Nat.lt_ge_cases n (length l)) as [Hlt|Hge]; [exact Hlt|].
  rewrite drop_ge in Heq by lia. discriminate.
Qed.

(** A match lies within the text and its replacement is not longer than
    the match. *)
Lemma replaceAll_length (m : matcher) :
  (forall u replacement n, m u = Some (replacement, n) ->
     (1 <= n <= length u)%nat /\ (length replacement <= n)%nat) ->
  forall s skip, (length (replaceAll m skip s) <= length s - skip)%nat.
Proof.
  intros Hm. induction s as [|c t IH]; intros skip; [simpl; lia|].
  destruct skip as [|k].
  - destruct (m (c :: t)) as [[replacement n]|] eqn:Hmatch.
    + rewrite (replaceAll_match m c t replacement n Hmatch).
      destruct (Hm _ _ _ Hmatch) as [Hn Hr]. specialize (IH (pred n)).
      rewrite length_app. simpl length in *. lia.
    + rewrite (replaceAll_copy m c t Hmatch). specialize (IH 0%nat). simpl length. lia.
  - rewrite replaceAll_skip. specialize (IH k). simpl length. lia.
Qed.

Lemma rxEscape_shrinks (u replacement : jsstring) (n : nat) :
  rxEscape u = Some (replacement, n) ->
  (1 <= n <= length u)%nat /\ (length replacement <= n)%nat.
Proof.
  unfold rxEscape. destruct u as [|b [|c u]]; try discriminate.
  destruct (_ && _); [|discriminate]. intros Heq. injection Heq as <- <-. simpl. lia.
Qed.

Lemma rxOrphanComma_shrinks (u replacement : jsstring) (n : nat) :
  rxOrphanComma u = Some (replacement, n) ->
  (1 <= n <= length u)%nat /\ (length replacement <= n)%nat.
Proof.
  unfold rxOrphanComma. destruct u as [|c t]; [discriminate|].
  destruct (_ || _); [|discriminate].
  destruct (drop (countWhile isWhiteSpace t) t) as [|d rest] eqn:Hdrop; [discriminate|].
  destruct (d =? COMMA); [|discriminate]. intros Heq. injection Heq as <- <-.
  apply drop_cons_lt in Hdrop. simpl. lia.
Qed.

Lemma rxCommaRun_shrinks (u replacement : jsstring) (n : nat) :
  rxCommaRun u = Some (replacement, n) ->
  (1 <= n <= length u)%nat /\ (length replacement <= n)%nat.
Proof.
  unfold rxCommaRun. destruct u as [|c t]; [discriminate|].
  destruct (c =? COMMA); [|discriminate].
  pose proof (commaGroups_le t 0 0) as Hle.
  destruct (commaGroups t 0 0) as [|g]; [discriminate|].
  intros Heq. injection Heq as <- <-. simpl. lia.
Qed.

Lemma rxColonComma_shrinks (u replacement : jsstring) (n : nat) :
  rxColonComma u = Some (replacement, n) ->
  (1 <= n <= length u)%nat /\ (length replacement <= n)%nat.
Proof.
  unfold rxColonComma. destruct u as [|c t]; [discriminate|].
  destruct (c =? COLON); [|discriminate]. cbv zeta.
  set (w1 := countWhile isWhiteSpace t).
  pose proof (countWhile_le isWhiteSpace t) as Hw1. fold w1 in Hw1.
  pose proof (countWhile_le (N.eqb COMMA) (drop w1 t)) as Hk.
  pose proof (countWhile_le isWhiteSpace
                (drop (countWhile (N.eqb COMMA) (drop w1 t)) (drop w1 t))) as Hw2.
  rewrite !length_drop in Hw2. rewrite length_drop in Hk.
  destruct (countWhile (N.eqb COMMA) (drop w1 t)) as [|k] eqn:Hcommas; [discriminate|].
  intros Heq. injection Heq as <- <-. simpl length. lia.
Qed.

Lemma rxColonDot_shrinks (u replacement : jsstring) (n : nat) :
  rxColonDot u = Some (replacement, n) ->
  (1 <= n <= length u)%nat /\ (length replacement <= n)%nat.
Proof.
  unfold rxColonDot. destruct u as [|c t]; [discriminate|].
  destruct (c =? COLON); [|discriminate].
  destruct (drop (countWhile isWhiteSpace t) t) as [|d rest] eqn:Hdrop; [discriminate|].
  destruct (d =? DOT); [|discriminate]. intros Heq. injection Heq as <- <-.
  apply drop_cons_lt in Hdrop. simpl. lia.
Qed.

Lemma rxBlankLines_shrinks (u replacement : jsstring) (n : nat) :
  rxBlankLines u = Some (replacement, n) ->
  (1 <= n <= length u)%nat /\ (length replacement <= n)%nat.
Proof.
  unfold rxBlankLines. pose proof (countWhile_le (N.eqb LF) u) as Hle.
  destruct (Nat.leb_spec 3 (countWhile (N.eqb LF) u)) as [Hthree|_]; [|discriminate].
  intros Heq. injection Heq as <- <-. simpl. lia.
Qed.

Lemma replaceGlobal_shrinks (m : matcher) (s : jsstring) :
  (forall u replacement n, m u = Some (replacement, n) ->
     (1 <= n <= length u)%nat /\ (length replacement <= n)%nat) ->
  (length (replaceGlobal m s) <= length s)%nat.
Proof.
  intros Hm. pose proof (replaceAll_length m Hm s 0). unfold replaceGlobal. lia.
Qed.

Lemma trim_length (s : jsstring) : (length (trim s) <= length s)%nat.
Proof.
  destruct (trim_infix s) as (before & after & Heq).
  rewrite Heq at 2. rewrite !length_app. lia.
Qed.

(** X10.  The text [extractCleanText] computes from the rendered tree is
    never longer than the rendering: each of the six rewrites replaces a
    match by a text that is not longer, and trimming only removes. *)
Theorem postProcess_never_longer (result : jsstring) :
  (length (postProcess result) <= length result)%nat.
Proof.
  unfold postProcess.
  pose proof (replaceGlobal_shrinks rxEscape result rxEscape_shrinks) as H1.
  set (t1 := replaceGlobal rxEscape result) in *.
  pose proof (replaceGlobal_shrinks rxOrphanComma t1 rxOrphanComma_shrinks) as H2.
  set (t2 := replaceGlobal rxOrphanComma t1) in *.
  pose proof (replaceGlobal_shrinks rxCommaRun t2 rxCommaRun_shrinks) as H3.
  set (t3 := replaceGlobal rxCommaRun t2) in *.
  pose proof (replaceGlobal_shrinks rxColonComma t3 rxColonComma_shrinks) as H4.
  set (t4 := replaceGlobal rxColonComma t3) in *.
  pose proof (replaceGlobal_shrinks rxColonDot t4 rxColonDot_shrinks) as H5.
  set (t5 := replaceGlobal rxColonDot t4) in *.
  pose proof (replaceGlobal_shrinks rxBlankLines t5 rxBlankLines_shrinks) as H6.
  set (t6 := replaceGlobal rxBlankLines t5) in *.
  pose proof (trim_length t6). lia.
Qed.

Lemma tripleFree_complete (s : jsstring) : ~ hasTripleLF s -> tripleFree s = true.
Proof.
  induction s as [|c t IH]; intros Hfree; [reflexivity|].
  cbn [tripleFree]. apply andb_true_iff. split.
  - destruct (startsWith (c :: t) [LF; LF; LF]) eqn:Hstart; [|reflexivity].
    apply startsWith_app in Hstart as [rest Heq].
    elim Hfree. exists [], rest. exact Heq.
  - apply IH. intros (pre & post & ->). apply Hfree. now exists (c :: pre), post.
Qed.

Lemma rxBlankLines_none (s : jsstring) :
  startsWith s [LF; LF; LF] = false -> rxBlankLines s = None.
Proof.
  intros Hstart. rewrite rxBlankLines_eq.
  destruct (Nat.leb_spec 3 (leadingLF s)) as [Hthree|_]; [|reflexivity].
  exfalso. unfold leadingLF in Hthree.
  destruct s as [|a [|b [|c s]]]; cbn [countWhile] in Hthree;
    repeat match type of Hthree with
           | context [N.eqb LF ?x] =>
               destruct (N.eqb_spec LF x) as [<-|]; cbn [countWhile] in Hthree
           end;
    solve [lia | discriminate Hstart].
Qed.

Lemma blankLines_untouched (s : jsstring) :
  tripleFree s = true -> replaceAll rxBlankLines 0 s = s.
Proof.
  induction s as [|c t IH]; intros Hfree; [reflexivity|].
  cbn [tripleFree] in Hfree. apply andb_true_iff in Hfree as [Hstart Hrest].
  apply negb_true_iff in Hstart.
  rewrite replaceAll_copy by now apply rxBlankLines_none.
  now rewrite IH.
Qed.

(** X11.  A rendering without backslash, colon and comma and without a
    run of three newlines is only trimmed: none of the six rewrites
    touches it. *)
Theorem postProcess_plain_text (result : jsstring) :
  Forall (fun c => c <> BACKSLASH /\ c <> COLON /\ c <> COMMA) result ->
  ~ hasTripleLF result ->
  postProcess result = trim result.
Proof.
  intros Hplain Hfree. unfold postProcess, replaceGlobal.
  set (P := fun c : char => c <> BACKSLASH /\ c <> COLON /\ c <> COMMA) in *.
  assert (Hne : forall c k, c <> k -> (c =? k) = false) by (intros; now apply N.eqb_neq).
  rewrite (replaceAll_untouched rxEscape P result); [|
    intros c t (Hb & _ & _); unfold rxEscape; destruct t; [reflexivity|];
    now rewrite (Hne c BACKSLASH Hb)|exact Hplain].
  rewrite (replaceAll_untouched rxOrphanComma P result); [|
    intros c t (_ & Hc & Hm); unfold rxOrphanComma;
    now rewrite (Hne c COLON Hc), (Hne c COMMA Hm)|exact Hplain].
  rewrite (replaceAll_untouched rxCommaRun P result); [|
    intros c t (_ & _ & Hm); unfold rxCommaRun; now rewrite (Hne c COMMA Hm)|exact Hplain].
  rewrite (replaceAll_untouched rxColonComma P result); [|
    intros c t (_ & Hc & _); unfold rxColonComma; now rewrite (Hne c COLON Hc)|exact Hplain].
  rewrite (replaceAll_untouched rxColonDot P result); [|
    intros c t (_ & Hc & _); unfold rxColonDot; now rewrite (Hne c COLON Hc)|exact Hplain].
  now rewrite blankLines_untouched by now apply tripleFree_complete.
Qed.

(** X11 at the rendering of the sample document. *)
Lemma postProcess_plain_text_sample :
  postProcess sampleText = js "Title" ++ [LF; LF] ++ js "Hello.".
Proof.
  rewrite (postProcess_plain_text sampleText).
  - vm_compute. reflexivity.
  - unfold sampleText. repeat constructor; discriminate.
  - apply tripleFree_sound. vm_compute. reflexivity.
Defined.

(* ===================================================================== *)
(** * [remarkRemoveJSX] once is enough                                     *)
(* ===================================================================== *)

Lemma remarkRemoveJSX_eq (type : NodeType) (value name : option jsstring)
  (attributes : list Attribute) (children : list Node) (position : option Position) :
  remarkRemoveJSX (MkNode type value name attributes children position)
  = MkNode type value name attributes
      (map remarkRemoveJSX
         (List.filter (fun child => negb (isJSX (node_type child))) children))
      position.
Proof.
  pose proof (remarkRemoveJSX_children
                (MkNode type value name attributes children position)) as Hchildren.
  cbn [remarkRemoveJSX node_children] in *. now rewrite Hchildren.
Qed.

Lemma filter_kept_map (children : list Node) :
  List.filter (fun child => negb (isJSX (node_type child)))
    (map remarkRemoveJSX
       (List.filter (fun child => negb (isJSX (node_type child))) children))
  = map remarkRemoveJSX
      (List.filter (fun child => negb (isJSX (node_type child))) children).
Proof.
  induction children as [|child later IH]; [reflexivity|].
  cbn [List.filter]. destruct (isJSX (node_type child)) eqn:Hkind; cbn [negb]; [exact IH|].
  cbn [map List.filter]. rewrite remarkRemoveJSX_type, Hkind. cbn [negb]. now rewrite IH.
Qed.

(** X13.  [remarkRemoveJSX] is idempotent, and a tree that holds no JSX
    element and no expression below its root is returned as it is. *)
Theorem remarkRemoveJSX_idempotent (tree : Node) :
  remarkRemoveJSX (remarkRemoveJSX tree) = remarkRemoveJSX tree /\
  (Forall (fun node => isJSX (node_type node) = false)
     (concat (map preorder (node_children tree))) ->
   remarkRemoveJSX tree = tree).
Proof.
  induction tree as [type value name attributes children position IH]
    using Node_children_ind.
  rewrite !remarkRemoveJSX_eq. split.
  - f_equal. rewrite filter_kept_map, map_map.
    induction IH as [|child later [Hchild _] _ IHl]; [reflexivity|].
    cbn [List.filter]. destruct (isJSX (node_type child)); cbn [negb map]; [exact IHl|].
    now rewrite Hchild, IHl.
  - cbn [node_children]. intros Hclean. f_equal.
    induction IH as [|child later [_ Hchild] _ IHl]; [reflexivity|].
    cbn [map concat] in Hclean. apply Forall_app in Hclean as [Hhere Hlater].
    rewrite preorder_unfold in Hhere. inversion Hhere as [|? ? Hkind Hbelow]; subst.
    cbn [List.filter]. rewrite Hkind. cbn [negb map].
    now rewrite (Hchild Hbelow), (IHl Hlater).
Qed.

(** The tree of the narrated sample document: after the import has been
    removed, the annotation and the component are the two nodes
    [remarkRemoveJSX] drops. *)
Example remarkRemoveJSX_narrated :
  remarkRemoveJSX (sampleRemoveEsm astNarrated)
  = MkNode root None None [] [block heading (js "Title") 12; block paragraph (js "Hello.") 14]
      (spanOf 1 15).
Proof. reflexivity. Qed.

(* ===================================================================== *)
(** * Documents that share a storage key                                   *)
(* ===================================================================== *)

Section KeyCollisions.
Context `{Libraries}.
Variable config : S3Config.

(** X14.  The storage key depends on the last two path segments only:
    two documents in different directories whose parent directory and
    file name agree get the same key, and so the same public URL, for
    every voice. *)
Theorem generateKey_last_two_segments (dirs1 dirs2 : list jsstring) (a b voiceId : jsstring) :
  Forall slashFree (dirs1 ++ [a; b]) -> Forall slashFree (dirs2 ++ [a; b]) ->
  let file1 := join (js "/") (dirs1 ++ [a; b ++ js ".mdx"]) in
  let file2 := join (js "/") (dirs2 ++ [a; b ++ js ".mdx"]) in
  generateKey config file1 voiceId = generateKey config file2 voiceId /\
  uploadedUrl config file1 voiceId = uploadedUrl config file2 voiceId.
Proof.
  intros Hfirst Hsecond file1 file2.
  assert (Hkey : generateKey config file1 voiceId = generateKey config file2 voiceId).
  { unfold generateKey, file1, file2. now rewrite !slugOf_path. }
  split; [exact Hkey|]. unfold uploadedUrl. now rewrite Hkey.
Qed.
End KeyCollisions.

(** X14 at two documents named [auth/intro.mdx], one below [guides] and
    one below [api]. *)
Lemma generateKey_last_two_segments_sample :
  @generateKey sampleLibraries (uploaderConfig sampleConfig) (js "guides/auth/intro.mdx") (js "v1")
  = @generateKey sampleLibraries (uploaderConfig sampleConfig) (js "api/auth/intro.mdx") (js "v1").
Proof.
  refine (proj1 (@generateKey_last_two_segments sampleLibraries (uploaderConfig sampleConfig)
                   [js "guides"] [js "api"] (js "auth") (js "intro") (js "v1") _ _));
    repeat constructor; unfold slashFree; intros Hin; apply list_elem_of_In in Hin;
    vm_compute in Hin; intuition discriminate.
Defined.

(* ===================================================================== *)
(** * The end of the front matter                                          *)
(* ===================================================================== *)

Lemma indexOf_unfold (s sub : jsstring) :
  indexOf s sub =
  if startsWith s sub then Some 0%nat
  else match s with [] => None | _ :: t => option_map S (indexOf t sub) end.
Proof. now destruct s. Qed.

Lemma indexOf_spec (sub : jsstring) (s : jsstring) :
  forall j,
    indexOf s sub = Some j <->
    (j <= length s)%nat /\ startsWith (drop j s) sub = true /\
    forall i, (i < j)%nat -> startsWith (drop i s) sub = false.
Proof.
  induction s as [|c t IH]; intros j; rewrite indexOf_unfold.
  - destruct (startsWith [] sub) eqn:Hstart.
    + split.
      * intros Heq. injection Heq as <-. split; [simpl; lia|]. split; [exact Hstart|]. lia.
      * intros (Hle & _ & _). simpl in Hle. f_equal. lia.
    + split; [discriminate|]. intros (Hle & Hat & _). simpl in Hle.
      replace j with 0%nat in Hat by lia. simpl in Hat. congruence.
  - destruct (startsWith (c :: t) sub) eqn:Hstart.
    + split.
      * intros Heq. injection Heq as <-. split; [simpl; lia|]. split; [exact Hstart|]. lia.
      * intros (_ & _ & Hmin). destruct j as [|j]; [reflexivity|].
        specialize (Hmin 0%nat). simpl in Hmin. rewrite Hmin in Hstart by lia. discriminate.
    + destruct j as [|j].
      * split.
        -- destruct (indexOf t sub); discriminate.
        -- intros (_ & Hat & _). simpl in Hat. congruence.
      * specialize (IH j). split.
        -- intros Heq. destruct (indexOf t sub) as [k|]; [|discriminate].
           injection Heq as ->. destruct (proj1 IH eq_refl) as (Hle & Hat & Hmin).
           split; [simpl; lia|]. split; [exact Hat|].
           intros [|i] Hi; [exact Hstart|]. apply Hmin. lia.
        -- intros (Hle & Hat & Hmin).
           rewrite (proj2 IH); [reflexivity|].
           split; [simpl in Hle; lia|]. split; [exact Hat|].
           intros i Hi. apply (Hmin (S i)). lia.
Qed.

(** X15.  [findFrontmatterEnd] returns a positive number exactly when the
    text starts with the line [---] and a line [---] that ends in a
    newline follows the newline of the opening line at some distance;
    the result is then the length of the text up to and including the
    first such closing line.  In every case it is [0] or lies between 9
    and the length of the text. *)
Theorem findFrontmatterEnd_spec (content : jsstring) (n : nat) :
  (findFrontmatterEnd content = S n <->
   exists body rest,
     content = fenceOpen ++ body ++ fenceClose ++ rest /\
     S n = (length fenceOpen + length body + length fenceClose)%nat /\
     forall i, (i < length body)%nat ->
       startsWith (drop i (body ++ fenceClose ++ rest)) fenceClose = false) /\
  (findFrontmatterEnd content = 0%nat \/
   (9 <= findFrontmatterEnd content <= length content)%nat).
Proof.
  unfold findFrontmatterEnd.
  destruct (startsWith content fenceOpen) eqn:Hopen.
  - apply startsWith_app in Hopen as [tail ->].
    rewrite drop_app_length.
    destruct (indexOf tail fenceClose) as [j|] eqn:Hfound.
    + apply indexOf_spec in Hfound as (Hle & Hat & Hmin).
      apply startsWith_app in Hat as [rest Hrest].
      assert (Htail : tail = take j tail ++ fenceClose ++ rest)
        by (rewrite <- Hrest; symmetry; apply take_drop).
      assert (Hbody : length (take j tail) = j) by (rewrite length_take; lia).
      split.
      * split.
        -- intros Hn. exists (take j tail), rest.
           split; [now rewrite <- Htail|]. split; [rewrite Hbody; lia|].
           intros i Hi. rewrite <- Htail. apply Hmin. lia.
        -- intros (body & rest' & Hcontent & Hn & Hmin').
           apply app_inv_head in Hcontent.
           assert (Hj : indexOf tail fenceClose = Some (length body)).
           { apply indexOf_spec. rewrite Hcontent.
             split; [rewrite length_app; lia|].
             split; [rewrite drop_app_length; apply startsWith_prefix|exact Hmin']. }
           assert (Hj' : indexOf tail fenceClose = Some j).
           { apply indexOf_spec. split; [exact Hle|]. split; [|exact Hmin].
             apply startsWith_app. now exists rest. }
           rewrite Hj in Hj'. injection Hj' as <-. lia.
      * right. rewrite length_app.
        assert (Hlen : length tail = (j + (length fenceClose + length rest))%nat).
        { rewrite Htail at 1. now rewrite !length_app, Hbody. }
        rewrite Hlen.
        change (length fenceOpen) with 4%nat. change (length fenceClose) with 5%nat. lia.
    + split; [|now left]. split; [discriminate|].
      intros (body & rest & Hcontent & _ & Hmin). exfalso.
      apply app_inv_head in Hcontent.
      assert (Hj : indexOf tail fenceClose = Some (length body)).
      { apply indexOf_spec. rewrite Hcontent.
        split; [rewrite length_app; lia|].
        split; [rewrite drop_app_length; apply startsWith_prefix|exact Hmin]. }
      congruence.
  - split; [|now left]. split; [discriminate|].
    intros (body & rest & -> & _). rewrite startsWith_prefix in Hopen. discriminate.
Qed.

(** A front matter with one field, and the empty front matter, whose
    closing line shares its newline with the opening line and is not
    found. *)
Example findFrontmatterEnd_samples :
  findFrontmatterEnd (js "---" ++ [LF] ++ js "title: X" ++ [LF] ++ js "---" ++ [LF] ++ js "## Hi")
    = 17%nat /\
  findFrontmatterEnd (js "---" ++ [LF] ++ js "---" ++ [LF] ++ js "## Hi") = 0%nat /\
  findFrontmatterEnd (js "## Hi") = 0%nat.
Proof. vm_compute. auto. Qed.

(* ===================================================================== *)
(** * The metadata file                                                    *)
(* ===================================================================== *)

(** X16.  After [updateMetadata] has recorded a fingerprint for a file,
    [hasContentChanged] answers [false] for that file exactly at the
    recorded fingerprint; its answer for every other file is what it was
    before; [getFileMetadata] returns the recorded entry; and in an empty
    metadata file every file counts as changed. *)
Theorem updateMetadata_recorded (now : jsstring) (metadata : MetadataFile)
  (filePath hash newHash : jsstring) (voices : list Voice) :
  let updated := updateMetadata now metadata filePath hash voices in
  (hasContentChanged filePath newHash updated = false <-> newHash = hash) /\
  (forall other, other <> filePath ->
     hasContentChanged other newHash updated = hasContentChanged other newHash metadata) /\
  (exists entry, getFileMetadata updated filePath = Some entry /\
     meta_hash entry = hash /\ meta_lastUpdated entry = now /\ meta_voices entry = voices) /\
  hasContentChanged filePath newHash ∅ = true.
Proof.
  intros updated. subst updated. unfold hasContentChanged, getFileMetadata, updateMetadata.
  split; [|split; [|split]].
  - rewrite lookup_insert_eq. cbn [meta_hash].
    destruct (eqStr hash newHash) eqn:Heq; cbn [negb].
    + apply eqStr_eq in Heq. split; [intros _; now symmetry|reflexivity].
    + split; [discriminate|]. intros ->. rewrite eqStr_refl in Heq. discriminate.
  - intros other Hother. now rewrite lookup_insert_ne by congruence.
  - rewrite lookup_insert_eq. eexists. split; [reflexivity|].
    cbn [meta_hash meta_lastUpdated meta_voices]. split; [reflexivity|]. split; [reflexivity|].
    induction voices as [|[id name url] rest IH]; [reflexivity|].
    cbn [map voice_id voice_name voice_url]. now rewrite IH.
  - now rewrite lookup_empty.
Qed.

(* ===================================================================== *)
(** * The branch name and the ignore patterns                              *)
(* ===================================================================== *)

Lemma skipWhile_fixed (p : char -> bool) (s : jsstring) :
  (forall c, head s = Some c -> p c = false) -> skipWhile p s = s.
Proof.
  destruct s as [|c t]; [reflexivity|]. intros Hhead. cbn [skipWhile].
  now rewrite (Hhead c eq_refl).
Qed.

Lemma trim_fixed (s : jsstring) :
  (forall c, head s = Some c -> isWhiteSpace c = false) ->
  (forall c, last s = Some c -> isWhiteSpace c = false) ->
  trim s = s.
Proof.
  intros Hhead Hlast. unfold trim, trimStart, trimEnd.
  rewrite (skipWhile_fixed isWhiteSpace s Hhead).
  rewrite skipWhile_fixed; [apply rev_involutive|].
  intros c Hc. apply Hlast. rewrite <- Hc, <- (rev_involutive s) at 1. apply last_rev.
Qed.

Lemma trim_idempotent (s : jsstring) : trim (trim s) = trim s.
Proof. apply trim_fixed; [apply trim_head|apply trim_last]. Qed.

(** X17.  [getCurrentBranch] never fails and never returns an empty or a
    padded name: it is the trimmed output of git, and [main] when git
    fails or prints nothing but white space. *)
Theorem getCurrentBranch_name (revparse : Result jsstring) :
  getCurrentBranch revparse <> [] /\
  trim (getCurrentBranch revparse) = getCurrentBranch revparse /\
  (forall branch, revparse = Returns branch -> trim branch <> [] ->
     getCurrentBranch revparse = trim branch) /\
  (revparse = Throws \/ (exists branch, revparse = Returns branch /\ trim branch = []) ->
   getCurrentBranch revparse = js "main").
Proof.
  unfold getCurrentBranch. destruct revparse as [branch|].
  - destruct (trim branch) as [|c t] eqn:Htrim; cbn [orElse].
    + split; [discriminate|]. split; [vm_compute; reflexivity|].
      split; [intros b Hb Hne; injection Hb as <-; contradiction|reflexivity].
    + split; [discriminate|]. split; [rewrite <- Htrim; apply trim_idempotent|].
      split; [intros b Hb _; injection Hb as <-; now symmetry|].
      intros [Hthrows|(b & Hb & Hblank)]; [discriminate|].
      injection Hb as <-. congruence.
  - split; [discriminate|]. split; [vm_compute; reflexivity|].
    split; [discriminate|reflexivity].
Qed.

Lemma split_pieces (sep : char) (s : jsstring) :
  Forall (fun piece => sep ∉ piece) (split sep s).
Proof.
  induction s as [|c t IH]; cbn [split].
  - repeat constructor. apply not_elem_of_nil.
  - destruct (N.eqb_spec c sep) as [->|Hne].
    + constructor; [apply not_elem_of_nil|exact IH].
    + destruct (split sep t) as [|piece rest].
      { repeat constructor. apply not_elem_of_cons. split; [congruence|apply not_elem_of_nil]. }
      apply Forall_cons in IH as [Hpiece Hrest]. constructor; [|exact Hrest].
      apply not_elem_of_cons. split; [congruence|exact Hpiece].
Qed.

Lemma trim_keeps_free (sep : char) (s : jsstring) : sep ∉ s -> sep ∉ trim s.
Proof.
  intros Hfree Hin. apply Hfree. destruct (trim_infix s) as (before & after & Heq).
  rewrite Heq. apply elem_of_app. right. apply elem_of_app. now left.
Qed.

(** X18.  The patterns read from [.speakignore] are the trimmed lines of
    the file that are neither empty nor comments: each pattern is
    non-empty, does not start with [#], holds no newline and has no white
    space at either end.  Writing them out one per line and reading the
    file again gives the same patterns; a file that cannot be read gives
    none, so that only the four default patterns are ignored. *)
Theorem loadSpeakIgnore_patterns (file : Result jsstring) :
  Forall (fun pattern =>
            pattern <> [] /\ startsWith pattern (js "#") = false /\
            (LF ∉ pattern) /\ trim pattern = pattern)
    (loadSpeakIgnore file) /\
  loadSpeakIgnore (Returns (join [LF] (loadSpeakIgnore file))) = loadSpeakIgnore file /\
  ignorePatterns Throws = DEFAULT_IGNORE_PATTERNS.
Proof.
  assert (Hall : Forall (fun pattern =>
                    pattern <> [] /\ startsWith pattern (js "#") = false /\
                    (LF ∉ pattern) /\ trim pattern = pattern) (loadSpeakIgnore file)).
  { destruct file as [content|]; [|constructor]. cbn [loadSpeakIgnore].
    apply Forall_forall. intros pattern Hin.
    apply list_elem_of_In, filter_In in Hin as [Hin Hkeep].
    apply andb_true_iff in Hkeep as [Hne Hcomment].
    apply negb_true_iff in Hne, Hcomment.
    apply in_map_iff in Hin as (line & <- & Hline).
    split; [intros Heq; rewrite Heq in Hne; discriminate|]. split; [exact Hcomment|].
    split; [|apply trim_idempotent].
    apply trim_keeps_free.
    pose proof (split_pieces LF content) as Hpieces.
    rewrite Forall_forall in Hpieces. apply Hpieces. now apply list_elem_of_In. }
  split; [exact Hall|]. split; [|reflexivity].
  destruct (loadSpeakIgnore file) as [|first others] eqn:Hpatterns; [reflexivity|].
  cbn [loadSpeakIgnore].
  rewrite split_join; [|discriminate|
    eapply Forall_impl; [exact Hall|]; now intros p (_ & _ & Hfree & _)].
  clear Hpatterns. induction Hall as [|p rest (Hne & Hcomment & _ & Htrim) _ IH]; [reflexivity|].
  cbn [map List.filter]. rewrite Htrim, Hcomment.
  destruct (eqStr p []) eqn:Hempty; [apply eqStr_eq in Hempty; contradiction|].
  cbn [negb andb]. now rewrite IH.
Qed.

(** A [.speakignore] with a comment, a blank line, a padded pattern and
    Windows line ends. *)
Example loadSpeakIgnore_sample :
  loadSpeakIgnore
    (Returns (js "# drafts" ++ [13; LF] ++ [13; LF] ++ js "  drafts/**  " ++ [13; LF]
              ++ js "api-reference/**"))
  = [js "drafts/**"; js "api-reference/**"].
Proof. vm_compute. reflexivity. Qed.

(* ===================================================================== *)
(** * The resolved configuration                                           *)
(* ===================================================================== *)

Lemma truthy_spec (o : option jsstring) :
  truthy o = true <-> exists c s, o = Some (c :: s).
Proof.
  destruct o as [[|c s]|]; cbn [truthy]; split; try discriminate; eauto;
    intros (c' & s' & Heq); discriminate.
Qed.

Lemma truthy_default (o : option jsstring) :
  truthy o = true -> default [] o <> [] /\ o = Some (default [] o).
Proof.
  intros (c & s & ->)%truthy_spec. cbn [default from_option id]. split; [discriminate|reflexivity].
Qed.

Lemma orUndefined_cli (a b : option jsstring) :
  truthy a = true -> orUndefined a b = a.
Proof. now intros (c & s & ->)%truthy_spec. Qed.

Lemma orUndefined_fallback (a b : option jsstring) :
  truthy a = false -> orUndefined a b = b.
Proof. destruct a as [[|c s]|]; [reflexivity|discriminate|reflexivity]. Qed.

Lemma orElse_not_empty (a : option jsstring) (b : jsstring) : b <> [] -> orElse a b <> [].
Proof. destruct a as [[|c s]|]; cbn [orElse]; [auto|discriminate|auto]. Qed.

Lemma missingSettings_none (options : GenerateOptions) (env : Environment) :
  (0 <? length (missingSettings options env))%nat = false <->
  truthy (orUndefined (opt_s3Bucket options) (S3_BUCKET env)) = true /\
  truthy (orUndefined (opt_s3AccessKeyId options) (S3_ACCESS_KEY_ID env)) = true /\
  truthy (orUndefined (opt_s3SecretAccessKey options) (S3_SECRET_ACCESS_KEY env)) = true /\
  truthy (orUndefined (opt_s3PublicUrl options) (S3_PUBLIC_URL env)) = true.
Proof.
  unfold missingSettings. cbv zeta.
  destruct (truthy (orUndefined (opt_s3Bucket options) (S3_BUCKET env)));
    destruct (truthy (orUndefined (opt_s3AccessKeyId options) (S3_ACCESS_KEY_ID env)));
    destruct (truthy (orUndefined (opt_s3SecretAccessKey options) (S3_SECRET_ACCESS_KEY env)));
    destruct (truthy (orUndefined (opt_s3PublicUrl options) (S3_PUBLIC_URL env)));
    cbn; intuition discriminate.
Qed.

Lemma resolveConfig_returns (options : GenerateOptions) (env : Environment)
  (yamlConfig : SpeakerConfig) (config : Resolved) :
  resolveConfig options env yamlConfig = Returns config ->
  (0 <? length (missingSettings options env))%nat = false /\
  r_s3Bucket config = default [] (orUndefined (opt_s3Bucket options) (S3_BUCKET env)) /\
  r_s3AccessKeyId config
    = default [] (orUndefined (opt_s3AccessKeyId options) (S3_ACCESS_KEY_ID env)) /\
  r_s3SecretAccessKey config
    = default [] (orUndefined (opt_s3SecretAccessKey options) (S3_SECRET_ACCESS_KEY env)) /\
  r_s3PublicUrl config
    = default [] (orUndefined (opt_s3PublicUrl options) (S3_PUBLIC_URL env)) /\
  r_s3Region config
    = orElse (orUndefined (opt_s3Region options) (S3_REGION env)) (js "us-east-1") /\
  r_s3PathPrefix config = orElse (opt_s3PathPrefix options) (js "audio") /\
  r_componentImport config
    = orElse (orUndefined (opt_componentImport options)
                (c ← yaml_component yamlConfig; component_import c)) defaultComponentImport /\
  r_componentName config
    = orElse (orUndefined (opt_componentName options)
                (c ← yaml_component yamlConfig; component_name c)) defaultComponentName /\
  r_pattern config = orElse (opt_pattern options) (js "**/*.mdx") /\
  r_fishApiKey config = orUndefined (opt_apiKey options) (FISH_API_KEY env) /\
  r_dryRun config = default false (opt_dryRun options).
Proof.
  unfold resolveConfig.
  destruct (if truthy (opt_voices options) then _ else _) as [voiceIds voiceNames].
  destruct (0 <? length (missingSettings options env))%nat; [discriminate|].
  intros Heq. injection Heq as <-. cbn. repeat split.
Qed.

(** X19.  [resolveConfig] throws exactly when the bucket, the access key
    id, the secret access key or the public URL is given neither on the
    command line nor in the environment (an empty value counts as not
    given).  When it returns, each of these four is the non-empty command
    line value if there is one and the environment value otherwise, and
    the region, the path prefix, the component import, the component name
    and the file pattern are non-empty. *)
Theorem resolveConfig_outcome (options : GenerateOptions) (env : Environment)
  (yamlConfig : SpeakerConfig) :
  (resolveConfig options env yamlConfig = Throws <->
   truthy (orUndefined (opt_s3Bucket options) (S3_BUCKET env)) = false \/
   truthy (orUndefined (opt_s3AccessKeyId options) (S3_ACCESS_KEY_ID env)) = false \/
   truthy (orUndefined (opt_s3SecretAccessKey options) (S3_SECRET_ACCESS_KEY env)) = false \/
   truthy (orUndefined (opt_s3PublicUrl options) (S3_PUBLIC_URL env)) = false) /\
  (forall config, resolveConfig options env yamlConfig = Returns config ->
     (r_s3Bucket config <> [] /\
      Some (r_s3Bucket config) = orUndefined (opt_s3Bucket options) (S3_BUCKET env)) /\
     (r_s3AccessKeyId config <> [] /\
      Some (r_s3AccessKeyId config)
        = orUndefined (opt_s3AccessKeyId options) (S3_ACCESS_KEY_ID env)) /\
     (r_s3SecretAccessKey config <> [] /\
      Some (r_s3SecretAccessKey config)
        = orUndefined (opt_s3SecretAccessKey options) (S3_SECRET_ACCESS_KEY env)) /\
     (r_s3PublicUrl config <> [] /\
      Some (r_s3PublicUrl config) = orUndefined (opt_s3PublicUrl options) (S3_PUBLIC_URL env)) /\
     r_s3Region config <> [] /\ r_s3PathPrefix config <> [] /\
     r_componentImport config <> [] /\ r_componentName config <> [] /\
     r_pattern config <> []) /\
  (forall (cli : jsstring) (var : option jsstring),
     cli <> [] -> orUndefined (Some cli) var = Some cli) /\
  (forall var : option jsstring,
     orUndefined None var = var /\ orUndefined (Some []) var = var).
Proof.
  split; [|split; [|split]].
  - pose proof (missingSettings_none options env) as Hnone.
    unfold resolveConfig.
    destruct (if truthy (opt_voices options) then _ else _) as [voiceIds voiceNames].
    destruct (0 <? length (missingSettings options env))%nat.
    + split; [intros _|reflexivity].
      destruct (truthy (orUndefined (opt_s3Bucket options) (S3_BUCKET env))); [|now left].
      destruct (truthy (orUndefined (opt_s3AccessKeyId options) (S3_ACCESS_KEY_ID env)));
        [|now right; left].
      destruct (truthy (orUndefined (opt_s3SecretAccessKey options) (S3_SECRET_ACCESS_KEY env)));
        [|now right; right; left].
      destruct (truthy (orUndefined (opt_s3PublicUrl options) (S3_PUBLIC_URL env)));
        [|now right; right; right].
      destruct Hnone as [_ Hnone]. discriminate Hnone. auto.
    + split; [discriminate|]. destruct (proj1 Hnone eq_refl) as (H1 & H2 & H3 & H4).
      rewrite H1, H2, H3, H4. intuition discriminate.
  - intros config Hconfig.
    apply resolveConfig_returns in Hconfig
      as (Hnone & -> & -> & -> & -> & -> & -> & -> & -> & -> & _).
    apply missingSettings_none in Hnone as (H1 & H2 & H3 & H4).
    apply truthy_default in H1 as [? ?], H2 as [? ?], H3 as [? ?], H4 as [? ?].
    repeat split; try assumption; try (symmetry; assumption);
      apply orElse_not_empty; discriminate.
  - intros [|c s] var Hne; [contradiction|reflexivity].
  - intros var. split; reflexivity.
Qed.

Lemma split_length (sep : char) (s : jsstring) :
  length (split sep s) = S (length (List.filter (fun c => c =? sep) s)).
Proof.
  induction s as [|c t IH]; [reflexivity|].
  cbn [split List.filter]. destruct (c =? sep); cbn [length]; [now rewrite IH|].
  destruct (split sep t) as [|piece rest]; [discriminate IH|exact IH].
Qed.

Lemma defaultVoiceNames_length (voiceIds : list jsstring) :
  length (defaultVoiceNames voiceIds) = length voiceIds.
Proof. unfold defaultVoiceNames. apply length_imap. Qed.

Lemma defaultVoiceNames_lookup (voiceIds : list jsstring) (i : nat) :
  (i < length voiceIds)%nat ->
  defaultVoiceNames voiceIds !! i = Some (js "Voice " ++ digitsOf (i + 1)).
Proof.
  intros Hi. unfold defaultVoiceNames. rewrite list_lookup_imap.
  destruct (lookup_lt_is_Some_2 voiceIds i Hi) as [id ->]. reflexivity.
Qed.

(** X20.  The voices of a resolved configuration.  With [--voices] the
    ids are the comma-separated pieces of the option, each trimmed, one
    more than there are commas (an empty piece gives an empty id) and
    whatever the YAML file lists; the names are the trimmed pieces of
    [--voice-names] or, without that option, [Voice 1], [Voice 2], ... one
    per id.  Without [--voices] the ids and names are the keys and values
    of the voices of the YAML file, equally many; with neither, both are
    left undefined. *)
Theorem resolveConfig_voices (options : GenerateOptions) (env : Environment)
  (yamlConfig : SpeakerConfig) (config : Resolved) :
  resolveConfig options env yamlConfig = Returns config ->
  (forall given, opt_voices options = Some given -> given <> [] ->
     exists ids names,
       r_voiceIds config = Some ids /\ r_voiceNames config = Some names /\
       ids = map trim (split COMMA given) /\
       length ids = S (length (List.filter (fun c => c =? COMMA) given)) /\
       Forall (fun id => trim id = id) ids /\
       (forall givenNames, opt_voiceNames options = Some givenNames -> givenNames <> [] ->
          names = map trim (split COMMA givenNames)) /\
       (truthy (opt_voiceNames options) = false ->
          length names = length ids /\
          forall i, (i < length ids)%nat -> names !! i = Some (js "Voice " ++ digitsOf (i + 1)))) /\
  (truthy (opt_voices options) = false ->
   match yaml_voices yamlConfig with
   | Some voices =>
       r_voiceIds config = Some (map fst voices) /\
       r_voiceNames config = Some (map snd voices) /\
       length (map fst voices) = length (map snd voices)
   | None => r_voiceIds config = None /\ r_voiceNames config = None
   end).
Proof.
  unfold resolveConfig. intros Hconfig. split.
  - intros given Hgiven Hne. rewrite Hgiven in Hconfig.
    destruct given as [|c given]; [contradiction|].
    cbn [truthy default from_option id] in Hconfig.
    destruct (0 <? length (missingSettings options env))%nat; [discriminate|].
    injection Hconfig as <-. cbn [r_voiceIds r_voiceNames].
    eexists _, _. split; [reflexivity|]. split; [reflexivity|].
    unfold voiceList. split; [reflexivity|].
    split; [rewrite length_map; apply split_length|].
    split; [apply Forall_forall; intros id (piece & -> & _)%list_elem_of_fmap;
            apply trim_idempotent|].
    split.
    + intros givenNames -> Hnames. destruct givenNames; [contradiction|reflexivity].
    + intros ->. split; [apply defaultVoiceNames_length|].
      intros i Hi. now apply defaultVoiceNames_lookup.
  - intros Hnone. rewrite Hnone in Hconfig.
    destruct (yaml_voices yamlConfig) as [voices|];
      (destruct (0 <? length (missingSettings options env))%nat; [discriminate|]);
      injection Hconfig as <-; cbn [r_voiceIds r_voiceNames].
    + split; [reflexivity|]. split; [reflexivity|]. now rewrite !length_map.
    + split; reflexivity.
Qed.

Lemma generateConfigErrors_none (config : Resolved) :
  (0 <? length (generateConfigErrors config))%nat = false <->
  truthy (r_fishApiKey config) = true /\
  exists ids names,
    r_voiceIds config = Some ids /\ r_voiceNames config = Some names /\
    ids <> [] /\ length ids = length names.
Proof.
  unfold generateConfigErrors.
  destruct (truthy (r_fishApiKey config)); cbn [app length Nat.ltb Nat.leb].
  2:{ split; [discriminate|]. now intros [Hkey _]. }
  destruct (r_voiceIds config) as [[|id ids]|].
  - cbn. split; [discriminate|]. intros [_ (i & n & Hi & _ & Hne & _)].
    injection Hi as <-. contradiction.
  - destruct (r_voiceNames config) as [[|name names]|].
    + cbn. split; [discriminate|]. intros [_ (i & n & Hi & Hn & _ & Hlen)].
      injection Hi as <-. injection Hn as <-. discriminate Hlen.
    + cbn [app]. destruct (Nat.eqb_spec (length (id :: ids)) (length (name :: names)))
        as [Hlen|Hlen]; cbn [negb app length Nat.ltb Nat.leb].
      * split; [intros _|reflexivity]. split; [reflexivity|].
        eexists _, _. split; [reflexivity|]. split; [reflexivity|]. split; [discriminate|exact Hlen].
      * split; [discriminate|]. intros [_ (i & n & Hi & Hn & _ & Heq)].
        injection Hi as <-. injection Hn as <-. contradiction.
    + cbn. split; [discriminate|]. intros [_ (i & n & _ & Hn & _)]. discriminate.
  - cbn. split.
    + destruct (r_voiceNames config) as [[|? ?]|]; discriminate.
    + intros [_ (i & n & Hi & _)]. discriminate.
Qed.

(** X21.  [validateGenerateConfig] of validators.ts accepts a
    configuration exactly when the API key is non-empty, voice ids and
    voice names are both given, there is at least one id, and there are
    as many names as ids.  The check the generate command runs itself
    asks for the API key and at least one id only, so it accepts every
    configuration the validator accepts. *)
Theorem validateGenerateConfig_accepts (config : Resolved) :
  (validateGenerateConfig config = Returns tt <->
   truthy (r_fishApiKey config) = true /\
   exists ids names,
     r_voiceIds config = Some ids /\ r_voiceNames config = Some names /\
     ids <> [] /\ length ids = length names) /\
  (validateGenerateConfig_local config = Returns tt <->
   truthy (r_fishApiKey config) = true /\
   exists ids, r_voiceIds config = Some ids /\ ids <> []) /\
  (validateGenerateConfig config = Returns tt ->
   validateGenerateConfig_local config = Returns tt).
Proof.
  assert (Hfull : validateGenerateConfig config = Returns tt <->
                  truthy (r_fishApiKey config) = true /\
                  exists ids names,
                    r_voiceIds config = Some ids /\ r_voiceNames config = Some names /\
                    ids <> [] /\ length ids = length names).
  { rewrite <- generateConfigErrors_none. unfold validateGenerateConfig.
    destruct (0 <? length (generateConfigErrors config))%nat;
      split; (reflexivity || discriminate). }
  assert (Hlocal : validateGenerateConfig_local config = Returns tt <->
                   truthy (r_fishApiKey config) = true /\
                   exists ids, r_voiceIds config = Some ids /\ ids <> []).
  { unfold validateGenerateConfig_local.
    destruct (truthy (r_fishApiKey config)); cbn [app].
    - destruct (r_voiceIds config) as [[|id ids]|]; cbn.
      + split; [discriminate|]. intros [_ (i & Hi & Hne)]. injection Hi as <-. contradiction.
      + split; [intros _|reflexivity]. split; [reflexivity|]. eexists. split; [reflexivity|discriminate].
      + split; [discriminate|]. intros [_ (i & Hi & _)]. discriminate.
    - split; [|now intros [Hkey _]].
      destruct (r_voiceIds config) as [[|id ids]|]; discriminate. }
  split; [exact Hfull|]. split; [exact Hlocal|].
  intros Hok. apply Hlocal. apply Hfull in Hok as (Hkey & ids & names & Hids & _ & Hne & _).
  split; [exact Hkey|]. now exists ids.
Qed.

(* ===================================================================== *)
(** * The summary of the generate command                                  *)
(* ===================================================================== *)

Lemma resultOf_flags (file : jsstring) (outcome : FileOutcome) :
  pr_file (resultOf file outcome) = file /\
  (pr_skipped (resultOf file outcome) = true -> pr_success (resultOf file outcome) = true) /\
  (pr_success (resultOf file outcome) && negb (pr_skipped (resultOf file outcome)) = true <->
   exists newVoices written, outcome = Generated newVoices written) /\
  (pr_success (resultOf file outcome) = false <-> outcome = Failed).
Proof.
  destruct outcome; cbn [resultOf pr_file pr_success pr_skipped andb negb];
    (split; [reflexivity|]);
    (split; [first [intros _; reflexivity | intros Hx; discriminate Hx]|]);
    split; split;
    first [discriminate | reflexivity
          | intros (v & w & Heq); discriminate Heq | intros Heq; discriminate Heq
          | intros _; eauto].
Qed.

Lemma summaryOf_partition (results : list ProcessingResult) :
  Forall (fun r => pr_skipped r = true -> pr_success r = true) results ->
  (successful (summaryOf results) + skipped (summaryOf results) + failed (summaryOf results)
   = length results)%nat.
Proof.
  unfold summaryOf. cbn [successful skipped failed].
  induction 1 as [|r rest Hr _ IH]; [reflexivity|].
  cbn [List.filter length].
  destruct (pr_success r), (pr_skipped r); cbn [andb negb length];
    first [lia | discriminate (Hr eq_refl)].
Qed.

Lemma summaryOf_counts (outcome : FileAccess -> FileOutcome) (files : list FileAccess) :
  let results := map (fun access => resultOf (fa_file access) (outcome access)) files in
  successful (summaryOf results)
    = length (List.filter (fun access => match outcome access with
                                         | Generated _ _ => true
                                         | _ => false
                                         end) files) /\
  failed (summaryOf results)
    = length (List.filter (fun access => match outcome access with
                                         | Failed => true
                                         | _ => false
                                         end) files).
Proof.
  unfold summaryOf. cbn [successful failed].
  induction files as [|access rest [IHs IHf]]; [split; reflexivity|].
  cbn [map List.filter].
  destruct (outcome access); cbn [resultOf pr_success pr_skipped andb negb length];
    now rewrite IHs, IHf.
Qed.

Section GenerateCommand.
Context `{Libraries}.

Lemma processAccess_generated (config : ResolvedConfig) (access : FileAccess)
  (newVoices : list Voice) (written : jsstring) :
  fst (processAccess config access) = Generated newVoices written ->
  cfg_dryRun config = false /\
  snd (processAccess config access) = [(fa_file access, written)] /\
  exists content,
    fa_read access = Returns content /\
    processFile config (fa_file access) content = Generated newVoices written /\
    fa_write access written = Returns tt.
Proof.
  unfold processAccess. destruct (fa_read access) as [content|]; [|discriminate].
  destruct (processFile config (fa_file access) content) as [|v|v u|v u|] eqn:Hout;
    try discriminate.
  destruct (fa_write access u) as [[]|] eqn:Hwrite; [|discriminate].
  cbn [fst snd]. intros Heq. injection Heq as <- <-.
  split; [now apply generated_inv in Hout as [Hwet _]|]. split; [reflexivity|].
  exists content. auto.
Qed.

Lemma processAccess_no_write (config : ResolvedConfig) (access : FileAccess) :
  cfg_dryRun config = true -> snd (processAccess config access) = [].
Proof.
  intros Hdry. unfold processAccess. destruct (fa_read access) as [content|]; [|reflexivity].
  destruct (processFile config (fa_file access) content) as [|v|v u|v u|] eqn:Hout;
    try reflexivity.
  apply generated_inv in Hout as [Hwet _]. congruence.
Qed.

(** X22.  When the generate command reaches its summary, the results list
    holds one entry per file found, in the order of the files, and the
    three counts of the summary (successfully processed, skipped, failed)
    add up to the number of files: every file is counted exactly once.
    The files counted as successfully processed are those that were
    generated and written, the files counted as failed those whose
    processing threw. *)
Theorem generateCommand_summary (options : GenerateOptions) (env : Environment)
  (yamlConfig : SpeakerConfig) (found : Result (list FileAccess))
  (results : list ProcessingResult) (summary : Summary) (writes : list (jsstring * jsstring)) :
  generateCommand options env yamlConfig found = Report results summary writes ->
  exists config files,
    resolveConfig options env yamlConfig = Returns config /\
    found = Returns files /\ files <> [] /\
    map pr_file results = map fa_file files /\
    (successful summary + skipped summary + failed summary = length files)%nat /\
    successful summary
      = length (List.filter
                  (fun access =>
                     match fst (processAccess (commandConfig config) access) with
                     | Generated _ _ => true
                     | _ => false
                     end) files) /\
    failed summary
      = length (List.filter
                  (fun access =>
                     match fst (processAccess (commandConfig config) access) with
                     | Failed => true
                     | _ => false
                     end) files).
Proof.
  unfold generateCommand.
  destruct (resolveConfig options env yamlConfig) as [config|]; [|discriminate].
  destruct (validateGenerateConfig_local config); [|discriminate].
  destruct found as [files|]; [|discriminate].
  destruct (length files =? 0)%nat eqn:Hfiles; [discriminate|].
  intros Heq. injection Heq as <- <- <-.
  exists config, files. split; [reflexivity|]. split; [reflexivity|].
  split; [intros ->; discriminate|].
  set (outcome := fun access => fst (processAccess (commandConfig config) access)).
  split; [|split; [|split]].
  - rewrite map_map. apply map_ext. intros access. apply resultOf_flags.
  - rewrite summaryOf_partition; [now rewrite length_map|].
    apply Forall_forall. intros r (access & -> & _)%list_elem_of_fmap. apply resultOf_flags.
  - exact (proj1 (summaryOf_counts outcome files)).
  - exact (proj2 (summaryOf_counts outcome files)).
Qed.
End GenerateCommand.

Lemma elem_of_concat {A} (x : A) (batches : list (list A)) :
  x ∈ concat batches <-> exists batch, x ∈ batch /\ batch ∈ batches.
Proof.
  rewrite list_elem_of_In, in_concat. split.
  - intros (batch & Hbatch & Hx). exists batch. now rewrite !list_elem_of_In.
  - intros (batch & Hx & Hbatch). exists batch. now rewrite <- !list_elem_of_In.
Qed.

Section GenerateWrites.
Context `{Libraries}.

(** X23.  The generate command calls [writeFile] only with the text
    [processFile] generated for that file, once per such file; in a dry
    run it writes nothing and counts no file as successfully
    processed. *)
Theorem generateCommand_writes (options : GenerateOptions) (env : Environment)
  (yamlConfig : SpeakerConfig) (found : Result (list FileAccess))
  (results : list ProcessingResult) (summary : Summary) (writes : list (jsstring * jsstring)) :
  generateCommand options env yamlConfig found = Report results summary writes ->
  (opt_dryRun options = Some true -> writes = [] /\ successful summary = 0%nat) /\
  (forall file text, (file, text) ∈ writes ->
     opt_dryRun options <> Some true /\
     exists config files access content newVoices,
       resolveConfig options env yamlConfig = Returns config /\
       found = Returns files /\ access ∈ files /\ fa_file access = file /\
       fa_read access = Returns content /\
       processFile (commandConfig config) file content = Generated newVoices text).
Proof.
  unfold generateCommand.
  destruct (resolveConfig options env yamlConfig) as [config|] eqn:Hconfig; [|discriminate].
  destruct (validateGenerateConfig_local config); [|discriminate].
  destruct found as [files|]; [|discriminate].
  destruct (length files =? 0)%nat; [discriminate|].
  intros Heq. injection Heq as <- <- <-.
  apply resolveConfig_returns in Hconfig as Hfields.
  assert (Hflag : cfg_dryRun (commandConfig config) = default false (opt_dryRun options)).
  { cbn [commandConfig cfg_dryRun]. apply Hfields. }
  assert (Hdry : opt_dryRun options = Some true ->
                 forall access, snd (processAccess (commandConfig config) access) = []).
  { intros Hopt access. apply processAccess_no_write. now rewrite Hflag, Hopt. }
  split.
  - intros Hopt. split.
    + induction files as [|access rest IH]; [reflexivity|].
      cbn [map concat]. now rewrite (Hdry Hopt access), IH.
    + rewrite (proj1 (summaryOf_counts
                        (fun access => fst (processAccess (commandConfig config) access)) files)).
      induction files as [|access rest IH]; [reflexivity|].
      cbn [List.filter].
      destruct (fst (processAccess (commandConfig config) access)) eqn:Hout; try exact IH.
      apply processAccess_generated in Hout as [Hwet _].
      rewrite Hflag, Hopt in Hwet. discriminate.
  - intros file text Hin.
    apply elem_of_concat in Hin as (batch & Hin & Hbatch).
    apply list_elem_of_fmap in Hbatch as (access & -> & Haccess).
    split.
    + intros Hopt. rewrite (Hdry Hopt access) in Hin. inversion Hin.
    + unfold processAccess in Hin.
      destruct (fa_read access) as [content|] eqn:Hread; [|inversion Hin].
      destruct (processFile (commandConfig config) (fa_file access) content)
        as [|v|v u|v u|] eqn:Hout; try (inversion Hin; fail).
      assert (Hthis : (file, text) = (fa_file access, u)).
      { destruct (fa_write access u); cbn [snd] in Hin;
          now apply list_elem_of_singleton in Hin. }
      injection Hthis as -> ->.
      exists config, files, access, content, v. auto 10.
Qed.
End GenerateWrites.

(** X20 at [--voices "v1, v2"] without [--voice-names], next to a YAML
    file that lists another voice. *)
Lemma resolveConfig_voices_sample :
  exists config,
    resolveConfig optionsTwoVoices sampleEnvironment sampleYaml = Returns config /\
    r_voiceIds config = Some [js "v1"; js "v2"] /\
    r_voiceNames config = Some [js "Voice 1"; js "Voice 2"].
Proof.
  eexists. split; [reflexivity|].
  destruct (proj1 (resolveConfig_voices optionsTwoVoices sampleEnvironment sampleYaml _ eq_refl)
              (js "v1, v2") eq_refl ltac:(discriminate))
    as (ids & names & Hids & Hnames & -> & _).
  split; [exact Hids|]. vm_compute. reflexivity.
Defined.

(** X22 at the three sample files: one generated, one unchanged, one
    failed. *)
Lemma generateCommand_summary_sample :
  exists results summary writes,
    @generateCommand sampleLibraries sampleOptions sampleEnvironment sampleYaml
      (Returns sampleFiles) = Report results summary writes /\
    summary = {| successful := 1; skipped := 1; failed := 1 |} /\
    (successful summary + skipped summary + failed summary = length sampleFiles)%nat.
Proof.
  eexists _, _, _. split; [reflexivity|]. split; [vm_compute; reflexivity|].
  destruct (@generateCommand_summary sampleLibraries sampleOptions sampleEnvironment sampleYaml
              (Returns sampleFiles) _ _ _ eq_refl)
    as (config & files & _ & Hfiles & _ & _ & Hsum & _).
  injection Hfiles as <-. exact Hsum.
Defined.

(** X23 at the three sample files, in a dry run and in a real run. *)
Lemma generateCommand_writes_sample :
  (exists results summary,
     @generateCommand sampleLibraries optionsDryRun sampleEnvironment sampleYaml
       (Returns sampleFiles) = Report results summary []) /\
  (exists results summary,
     @generateCommand sampleLibraries sampleOptions sampleEnvironment sampleYaml
       (Returns sampleFiles) = Report results summary [(js "docs/intro.mdx", docFirstRun)]).
Proof.
  split.
  - eexists _, _.
    assert (Hrun : exists writes,
              @generateCommand sampleLibraries optionsDryRun sampleEnvironment sampleYaml
                (Returns sampleFiles)
              = Report _ _ writes) by (eexists; reflexivity).
    destruct Hrun as [writes Hrun].
    destruct (proj1 (@generateCommand_writes sampleLibraries optionsDryRun sampleEnvironment
                       sampleYaml (Returns sampleFiles) _ _ _ Hrun) eq_refl) as [Hnone _].
    rewrite Hrun. now rewrite Hnone.
  - eexists _, _. vm_compute. reflexivity.
Defined.

(* ===================================================================== *)
(** * Several annotations, several components                              *)
(* ===================================================================== *)

Section LastWins.
Context `{Libraries}.

Lemma visitExisting_hash (componentName : jsstring) (node : Node) (st : Found) :
  foundHash (visitExisting componentName node st)
  = match carriesHash node with
    | Some digits => Some digits
    | None => foundHash st
    end.
Proof.
  unfold visitExisting, carriesHash.
  set (st1 := if isExpressionNode (node_type node) then _ else st).
  assert (Hst1 : foundHash st1
                 = match (if isExpressionNode (node_type node)
                          then hashMatch (default [] (node_value node)) else None) with
                   | Some digits => Some digits
                   | None => foundHash st
                   end).
  { subst st1. destruct (isExpressionNode (node_type node)); [|reflexivity].
    now destruct (hashMatch _). }
  destruct (isJsxElement (node_type node) && nameIs (node_name node) componentName);
    [|exact Hst1].
  destruct (List.find _ (node_attributes node)) as [voicesAttr|]; [|exact Hst1].
  destruct (valueTruthy (attr_value voicesAttr)); [|exact Hst1].
  destruct (JSON_parse _); [exact Hst1|exact Hst1].
Qed.

Lemma fold_visitExisting_last (componentName : jsstring) (nodes : list Node) :
  forall st,
    foundVoices (fold_left (fun st n => visitExisting componentName n st) nodes st)
      = default (foundVoices st) (last (omap (carriesVoices componentName) nodes)) /\
    foundHash (fold_left (fun st n => visitExisting componentName n st) nodes st)
      = match last (omap carriesHash nodes) with
        | Some digits => Some digits
        | None => foundHash st
        end.
Proof.
  induction nodes as [|node later IH]; intros st; [split; reflexivity|].
  cbn [fold_left omap list_omap].
  destruct (IH (visitExisting componentName node st)) as [-> ->].
  rewrite visitExisting_voices, visitExisting_hash. split.
  - destruct (carriesVoices componentName node) as [parsed|]; [|reflexivity].
    cbn [default from_option id].
    destruct (omap (carriesVoices componentName) later) as [|p rest] eqn:Hlater; [reflexivity|].
    change (last (parsed :: p :: rest)) with (last (p :: rest)).
    destruct (last (p :: rest)) eqn:Hlast; [reflexivity|].
    now apply last_None in Hlast.
  - destruct (carriesHash node) as [digits|]; [|reflexivity].
    destruct (omap carriesHash later) as [|d rest] eqn:Hlater; [reflexivity|].
    change (last (digits :: d :: rest)) with (last (d :: rest)).
    destruct (last (d :: rest)) eqn:Hlast; [reflexivity|].
    now apply last_None in Hlast.
Qed.

Lemma mapResult_ids (elements : list Json) :
  mapResult (fun v => getMember v (js "id")) elements
  = if existsb isNull elements then Throws else Returns (map idOf elements).
Proof.
  induction elements as [|v later IH]; [reflexivity|].
  cbn [mapResult existsb map]. rewrite IH.
  destruct v; cbn [getMember isNull orb idOf]; try reflexivity;
    now destruct (existsb isNull later).
Qed.

(** X24.  When a document holds several components of the given name or
    several hash annotations, the last one in document order counts,
    wherever in the document the two stand.  What
    [extractExistingAudioData] does is decided by the last voices payload
    that parses: a non-empty array without [null] gives the recorded
    data, with the digits of the last annotation and the [id] of each
    element; no payload, an empty array, an empty string, a number or a
    boolean give null; [null], a non-empty string and an array that holds
    [null] make the function throw; an object gives null or an exception
    according to whether its [length] compares greater than zero. *)
Theorem extractExisting_last_wins (content componentName : jsstring) (ast : Node) :
  parseMDX content = Returns ast ->
  let recorded := last (omap carriesHash (preorder ast)) in
  extractExistingAudioData content componentName
  = match last (omap (carriesVoices componentName) (preorder ast)) with
    | None | Some (JArray []) | Some (JString []) | Some (JBool _) | Some (JNumber _) =>
        Returns None
    | Some (JArray (voice :: others)) =>
        if existsb isNull (voice :: others) then Throws
        else Returns (Some {| hash := recorded;
                              voiceIds := map idOf (voice :: others);
                              voices := voice :: others |})
    | Some JNull | Some (JString (_ :: _)) => Throws
    | Some (JObject members) =>
        positive ← greaterThanZero (ownProperty members (js "length"));
        if (positive : bool) then Throws else Returns None
    end.
Proof.
  intros Hparse recorded. unfold extractExistingAudioData. rewrite Hparse.
  cbn [mbind Result_bind mret Result_ret].
  unfold existingOf. rewrite walkExisting_preorder.
  destruct (fold_visitExisting_last componentName (preorder ast)
              {| foundHash := None; foundVoices := JArray [] |}) as [-> ->].
  cbn [foundVoices foundHash].
  assert (Hhash : match last (omap carriesHash (preorder ast)) with
                  | Some digits => Some digits
                  | None => None
                  end = recorded) by (subst recorded; now destruct (last _)).
  rewrite Hhash. clear Hhash.
  destruct (last (omap (carriesVoices componentName) (preorder ast)))
    as [[|b|n|[|c s]|[|voice others]|members]|];
    cbn [default from_option id lengthOf mbind Result_bind greaterThanZero length];
    try reflexivity.
  replace (numberPositive (Finite (Z.of_nat (S (length others))) 0)) with true
    by (symmetry; apply Z.ltb_lt; lia).
  rewrite mapResult_ids. now destruct (existsb isNull (voice :: others)).
Qed.
End LastWins.

(** X24 at the narrated sample document. *)
Lemma extractExisting_last_wins_sample :
  @extractExistingAudioData sampleLibraries docNarrated defaultComponentName
  = Returns (Some sampleData).
Proof.
  rewrite (@extractExisting_last_wins sampleLibraries docNarrated defaultComponentName
             astNarrated eq_refl).
  vm_compute. reflexivity.
Defined.

(** A payload that is [null], and a list that holds [null]. *)
Example extractExisting_throws_on_null :
  @existingOf sampleLibraries {| foundHash := Some (js "0a1b"); foundVoices := JNull |}
    = Throws /\
  @existingOf sampleLibraries {| foundHash := Some (js "0a1b"); foundVoices := JArray [JNull] |}
    = Throws.
Proof. split; reflexivity. Qed.

(* ===================================================================== *)
(** * Regeneration: the block that is already there is replaced            *)
(* ===================================================================== *)

Lemma join_split (sep : char) (s : jsstring) : join [sep] (split sep s) = s.
Proof.
  induction s as [|c t IH]; [reflexivity|].
  cbn [split]. destruct (N.eqb_spec c sep) as [->|Hne].
  - destruct (split sep t) as [|piece rest] eqn:Hsplit.
    + pose proof (split_length sep t) as Hlen. rewrite Hsplit in Hlen. discriminate.
    + change (join [sep] ([] :: piece :: rest)) with (sep :: join [sep] (piece :: rest)).
      now rewrite IH.
  - destruct (split sep t) as [|piece rest] eqn:Hsplit.
    + pose proof (split_length sep t) as Hlen. rewrite Hsplit in Hlen. discriminate.
    + rewrite <- IH. destruct rest; reflexivity.
Qed.

Lemma includes_line (content sub : jsstring) (l : jsstring) :
  l ∈ split LF content -> includes l sub = true -> includes content sub = true.
Proof.
  intros Hin Hsub. rewrite <- (join_split LF content).
  apply includes_spec in Hsub as (pre & post & ->).
  destruct (join_elem [LF] _ _ Hin) as (before & after & ->).
  apply includes_spec. exists (before ++ pre), (post ++ after).
  now rewrite <- !app_assoc.
Qed.

Lemma includes_trim (l sub : jsstring) :
  includes (trim l) sub = true -> includes l sub = true.
Proof.
  rewrite !includes_spec. intros (pre & post & Heq).
  destruct (trim_infix l) as (before & after & ->). rewrite Heq.
  exists (before ++ pre), (post ++ after). now rewrite <- !app_assoc.
Qed.

(** One step of the scan: it stops at a line that holds ['/>'] once a
    component start is known, and goes on otherwise. *)
Lemma scanLines_stop (name raw : jsstring) (later : list jsstring) (i : Z) (st : Scan) :
  let startAt := if includes raw (js "<" ++ name) then i else componentStart st in
  (0 <=? startAt)%Z && includes raw (js "/>") = true ->
  exists flag,
    scanLines name (raw :: later) i st
    = {| inOtherComponent := flag; componentStart := startAt; componentEnd := i;
         hashLine := if includes (trim raw) hashMarker then i else hashLine st;
         lastImportLine := if isImportLine raw then i else lastImportLine st |}.
Proof.
  intros startAt Hstop. cbn [scanLines]. fold startAt. rewrite Hstop.
  eexists. reflexivity.
Qed.

Lemma scanLines_continue (name raw : jsstring) (later : list jsstring) (i : Z) (st : Scan) :
  let startAt := if includes raw (js "<" ++ name) then i else componentStart st in
  (0 <=? startAt)%Z && includes raw (js "/>") = false ->
  exists flag,
    scanLines name (raw :: later) i st
    = scanLines name later (i + 1)
        {| inOtherComponent := flag; componentStart := startAt;
           componentEnd := componentEnd st;
           hashLine := if includes (trim raw) hashMarker then i else hashLine st;
           lastImportLine := if isImportLine raw then i else lastImportLine st |}.
Proof.
  intros startAt Hgo. cbn [scanLines]. fold startAt. rewrite Hgo.
  eexists. reflexivity.
Qed.

(** The lines before the first line that names the component: the scan
    passes them and remembers the last import line. *)
Lemma scanLines_head (name : jsstring) (head : list jsstring) :
  forall (rest : list jsstring) (i : Z) (st : Scan),
    Forall (fun l => includes l (js "<" ++ name) = false) head ->
    componentStart st = (-1)%Z ->
    exists st',
      scanLines name (head ++ rest) i st = scanLines name rest (i + Z.of_nat (length head)) st' /\
      componentStart st' = (-1)%Z /\
      componentEnd st' = componentEnd st /\
      lastImportLine st' = match lastImportEnd head with
                           | O => lastImportLine st
                           | S k => (i + Z.of_nat k)%Z
                           end.
Proof.
  induction head as [|l t IH]; intros rest i st Hhead Hstart.
  - exists st. cbn [app length]. rewrite Z.add_0_r. auto.
  - apply Forall_cons in Hhead as [Hl Ht].
    destruct (scanLines_continue name l (t ++ rest) i st) as [flag Hstep].
    { cbv zeta. now rewrite Hl, Hstart. }
    cbv zeta in Hstep. rewrite Hl in Hstep.
    cbn [app]. rewrite Hstep.
    edestruct IH as (st' & Hscan & Hs & He & Hi); [exact Ht| |].
    2:{ exists st'. split; [rewrite Hscan; f_equal; cbn [length]; lia|].
        split; [exact Hs|]. split; [exact He|].
        rewrite Hi. cbn [lastImportLine lastImportEnd].
        destruct (lastImportEnd t) as [|k]; [|lia].
        destruct (isImportLine l); [lia|reflexivity]. }
    exact Hstart.
Qed.

(** The old block: from a state that knows the annotation line, the scan
    finds the start of the component and stops at the first line that
    holds ['/>']. *)
Lemma scanLines_block (name closing : jsstring) (after : list jsstring)
  (middle : list jsstring) :
  forall (i : Z) (st : Scan),
    (0 <= i)%Z -> (hashLine st < i)%Z ->
    componentStart st = (-1)%Z \/ (hashLine st < componentStart st)%Z ->
    (0 <= componentStart st)%Z \/ includes (hd closing middle) (js "<" ++ name) = true ->
    Forall (fun l => includes l (js "/>") = false) middle ->
    includes closing (js "/>") = true ->
    Forall (fun l => includes (trim l) hashMarker = false /\ isImportLine l = false)
      (middle ++ [closing]) ->
    exists st',
      scanLines name (middle ++ closing :: after) i st = st' /\
      componentEnd st' = (i + Z.of_nat (length middle))%Z /\
      hashLine st' = hashLine st /\
      lastImportLine st' = lastImportLine st /\
      (0 <= componentStart st')%Z /\ (hashLine st < componentStart st')%Z.
Proof.
  induction middle as [|l m IH]; intros i st Hi Hh Hs Hfirst Hmid Hclose Hquiet.
  - apply Forall_cons in Hquiet as [[Hmarker Himport] _].
    set (startAt := if includes closing (js "<" ++ name) then i else componentStart st).
    assert (Hstart : (0 <= startAt)%Z /\ (hashLine st < startAt)%Z).
    { subst startAt. cbn [hd] in Hfirst.
      destruct (includes closing (js "<" ++ name)); [lia|].
      destruct Hfirst as [Hknown|Hno]; [|discriminate]. lia. }
    destruct (scanLines_stop name closing after i st) as [flag Hstep].
    { cbv zeta. fold startAt. rewrite Hclose, andb_true_r. apply Z.leb_le. lia. }
    cbv zeta in Hstep. fold startAt in Hstep. rewrite Hmarker, Himport in Hstep.
    eexists. split; [exact Hstep|]. cbn [componentEnd hashLine lastImportLine componentStart length].
    split; [lia|]. repeat split; lia.
  - apply Forall_cons in Hquiet as [[Hmarker Himport] Hquiet].
    apply Forall_cons in Hmid as [Hl Hmid].
    set (startAt := if includes l (js "<" ++ name) then i else componentStart st).
    assert (Hstart : (0 <= startAt)%Z /\ (hashLine st < startAt)%Z).
    { subst startAt. cbn [hd] in Hfirst.
      destruct (includes l (js "<" ++ name)); [lia|].
      destruct Hfirst as [Hknown|Hno]; [|discriminate]. lia. }
    destruct (scanLines_continue name l (m ++ closing :: after) i st) as [flag Hstep].
    { cbv zeta. now rewrite Hl, andb_false_r. }
    cbv zeta in Hstep. fold startAt in Hstep. rewrite Hmarker, Himport in Hstep.
    cbn [app]. rewrite Hstep.
    edestruct (IH (i + 1)%Z) as (st' & Hscan & He & Hhash & Himp & Hs0 & Hs1);
      [| | | |exact Hmid|exact Hclose|exact Hquiet|].
    5:{ exists st'. split; [exact Hscan|].
        cbn [hashLine lastImportLine componentStart componentEnd] in *.
        split; [cbn [length]; lia|]. repeat split; try assumption; lia. }
    + lia.
    + cbn [hashLine]. lia.
    + right. cbn [hashLine componentStart]. lia.
    + left. cbn [componentStart]. lia.
Qed.

Lemma lastImportEnd_le (lines : list jsstring) : (lastImportEnd lines <= length lines)%nat.
Proof.
  induction lines as [|l t IH]; [reflexivity|]. cbn [lastImportEnd length].
  destruct (lastImportEnd t); [destruct (isImportLine l)|]; lia.
Qed.

Lemma splice_delete {A} (before removed after : list A) :
  splice (before ++ removed ++ after) (Z.of_nat (length before))
    (Z.of_nat (length removed)) []
  = before ++ after.
Proof.
  unfold splice. rewrite !length_app.
  destruct (Z.ltb_spec (Z.of_nat (length before)) 0) as [Hneg|_]; [lia|].
  replace (Z.to_nat (Z.min (Z.of_nat (length before))
                       (Z.of_nat (length before + (length removed + length after)))))
    with (length before) by lia.
  replace (Z.to_nat _) with (length before + length removed)%nat by lia.
  rewrite take_app_length. cbn [app]. f_equal.
  rewrite <- drop_drop, drop_app_length. apply drop_app_length.
Qed.

Section Regeneration.
Context `{Libraries}.

Lemma scanLines_quiet (name : jsstring) (between : list jsstring) :
  forall (rest : list jsstring) (i : Z) (st : Scan),
    Forall (fun l => includes l (js "<" ++ name) = false /\
                     includes (trim l) hashMarker = false /\ isImportLine l = false) between ->
    componentStart st = (-1)%Z ->
    exists st',
      scanLines name (between ++ rest) i st
        = scanLines name rest (i + Z.of_nat (length between)) st' /\
      componentStart st' = (-1)%Z /\
      componentEnd st' = componentEnd st /\
      hashLine st' = hashLine st /\
      lastImportLine st' = lastImportLine st.
Proof.
  induction between as [|l t IH]; intros rest i st Hquiet Hstart.
  - exists st. cbn [app length]. rewrite Z.add_0_r. auto.
  - apply Forall_cons in Hquiet as [(Hl & Hmarker & Himport) Ht].
    destruct (scanLines_continue name l (t ++ rest) i st) as [flag Hstep].
    { cbv zeta. now rewrite Hl, Hstart. }
    cbv zeta in Hstep. rewrite Hl, Hmarker, Himport in Hstep.
    cbn [app]. rewrite Hstep.
    edestruct IH as (st' & Hscan & Hs & He & Hh & Hi); [exact Ht| |].
    2:{ exists st'. split; [rewrite Hscan; f_equal; cbn [length]; lia|].
        split; [exact Hs|]. split; [exact He|]. split; [exact Hh|exact Hi]. }
    exact Hstart.
Qed.

(** For a name without pattern syntax the test is a search for [<Name]. *)
Lemma hasAudioComponent_literal (content name : jsstring) :
  literalPattern name = true ->
  hasAudioComponent content name = Returns (includes content (js "<" ++ name)).
Proof. intros Hliteral. unfold hasAudioComponent. now rewrite Hliteral. Qed.

Lemma relocate_block (mdxContent name hash : jsstring) (voices : list Voice)
  (head between middle after : list jsstring) (annotation closing : jsstring) :
  split LF mdxContent = head ++ [annotation] ++ between ++ middle ++ [closing] ++ after ->
  Forall (fun l => includes l (js "<" ++ name) = false) (head ++ [annotation]) ->
  includes (trim annotation) hashMarker = true ->
  isImportLine annotation = false ->
  Forall (fun l => includes l (js "<" ++ name) = false /\
                   includes (trim l) hashMarker = false /\ isImportLine l = false) between ->
  includes (hd closing middle) (js "<" ++ name) = true ->
  Forall (fun l => includes l (js "/>") = false) middle ->
  includes closing (js "/>") = true ->
  Forall (fun l => includes (trim l) hashMarker = false /\ isImportLine l = false)
    (middle ++ [closing]) ->
  includes mdxContent (js "<" ++ name) = true /\
  relocate mdxContent voices hash name
  = Some
      (join [LF]
         (take (lastImportEnd head) head
          ++ [[]; hashCommentOf hash; componentCodeOf name voices]
          ++ drop (lastImportEnd head) head ++ after)).
Proof.
  intros Hlines Hhead Hmarker Hnoimport Hbetween Hfirst Hmid Hclose Hquiet.
  apply Forall_app in Hhead as [Hhead Hannotation].
  apply Forall_cons in Hannotation as [Hannotation _].
  assert (Hpresent : includes mdxContent (js "<" ++ name) = true).
  { apply (includes_line _ _ (hd closing middle)); [|exact Hfirst].
    rewrite Hlines. apply elem_of_app. right. apply elem_of_cons. right.
    apply elem_of_app. right.
    destruct middle as [|l m]; cbn [hd app]; apply elem_of_cons; now left. }
  split; [exact Hpresent|]. unfold relocate. rewrite Hlines.
  destruct (scanLines_head name head
              ([annotation] ++ between ++ middle ++ [closing] ++ after) 0 scanStart
              Hhead eq_refl) as (st1 & -> & Hs1 & He1 & Hi1).
  destruct (scanLines_continue name annotation (between ++ middle ++ [closing] ++ after)
              (0 + Z.of_nat (length head)) st1) as [flag Hstep].
  { cbv zeta. now rewrite Hannotation, Hs1. }
  cbv zeta in Hstep. rewrite Hannotation, Hmarker, Hnoimport in Hstep.
  change ([annotation] ++ between ++ middle ++ [closing] ++ after)
    with (annotation :: between ++ middle ++ [closing] ++ after).
  rewrite Hstep. clear Hstep.
  edestruct (scanLines_quiet name between (middle ++ [closing] ++ after)
               (0 + Z.of_nat (length head) + 1))
    as (st2 & -> & Hs2 & He2 & Hh2 & Hi2); [exact Hbetween|exact Hs1|].
  cbn [hashLine lastImportLine componentEnd] in Hh2, Hi2, He2.
  change (middle ++ [closing] ++ after) with (middle ++ closing :: after).
  edestruct (scanLines_block name closing after middle
               (0 + Z.of_nat (length head) + 1 + Z.of_nat (length between)) st2)
    as (st' & -> & He & Hh & Hi & Hs0 & Hsh);
    [| | | |exact Hmid|exact Hclose|exact Hquiet|].
  5:{ rewrite Hh2 in Hsh. rewrite He, Hh, Hh2, Hi, Hi2, Hi1.
      replace (0 <=? componentStart st')%Z with true by (symmetry; apply Z.leb_le; lia).
      replace (0 <=? 0 + Z.of_nat (length head) + 1 + Z.of_nat (length between)
                     + Z.of_nat (length middle))%Z with true
        by (symmetry; apply Z.leb_le; lia).
      replace (0 <=? 0 + Z.of_nat (length head))%Z with true
        by (symmetry; apply Z.leb_le; lia).
      replace (0 + Z.of_nat (length head) <? componentStart st')%Z with true
        by (symmetry; apply Z.ltb_lt; lia).
      cbn [andb].
      replace (0 + Z.of_nat (length head))%Z with (Z.of_nat (length head)) by lia.
      replace (Z.of_nat (length head) + 1 + Z.of_nat (length between)
               + Z.of_nat (length middle) - Z.of_nat (length head) + 1)%Z
        with (Z.of_nat (length ([annotation] ++ between ++ middle ++ [closing])))
        by (rewrite !length_app; cbn [length]; lia).
      replace (head ++ annotation :: between ++ middle ++ closing :: after)
        with (head ++ ([annotation] ++ between ++ middle ++ [closing]) ++ after)
        by (cbn [app]; now rewrite <- !app_assoc).
      rewrite splice_delete.
      replace (match lastImportEnd head with
               | 0%nat => lastImportLine scanStart
               | S k => (0 + Z.of_nat k)%Z
               end + 1)%Z with (Z.of_nat (lastImportEnd head))
        by (destruct (lastImportEnd head); cbn [lastImportLine scanStart]; lia).
      rewrite splice_insert.
      pose proof (lastImportEnd_le head) as Hle.
      rewrite take_app_le, drop_app_le by exact Hle.
      reflexivity. }
  - lia.
  - rewrite Hh2. lia.
  - left. exact Hs2.
  - right. exact Hfirst.
Qed.

(** X25.  Injection into a document that already holds the component,
    for a component name without pattern syntax.
    Let the lines of the document be: some lines that do not name the
    component, an annotation line, further lines that neither name the
    component nor are annotations or imports, the lines of a component
    up to its first line with ['/>'], and the rest.  Then
    [injectAudioComponent] does not consult the parser.  It returns the
    document with everything from the annotation line to the end of the
    component taken out -- the lines that stood between the two
    included -- and a blank line, the new annotation and the new
    component put in directly behind the last import line of the lines
    above the annotation (at the top when there is none).  The other
    lines stay as they are; those between that import line and the old
    annotation now follow the new block. *)
Theorem regeneration_replaces_block (mdxContent name hash : jsstring) (voices : list Voice)
  (importPath : option jsstring) (head between middle after : list jsstring)
  (annotation closing : jsstring) :
  literalPattern name = true ->
  split LF mdxContent = head ++ [annotation] ++ between ++ middle ++ [closing] ++ after ->
  Forall (fun l => includes l (js "<" ++ name) = false) (head ++ [annotation]) ->
  includes (trim annotation) hashMarker = true ->
  isImportLine annotation = false ->
  Forall (fun l => includes l (js "<" ++ name) = false /\
                   includes (trim l) hashMarker = false /\ isImportLine l = false) between ->
  includes (hd closing middle) (js "<" ++ name) = true ->
  Forall (fun l => includes l (js "/>") = false) middle ->
  includes closing (js "/>") = true ->
  Forall (fun l => includes (trim l) hashMarker = false /\ isImportLine l = false)
    (middle ++ [closing]) ->
  injectAudioComponent mdxContent voices hash
    {| componentImport := importPath; componentName := Some name |}
  = Returns
      (join [LF]
         (take (lastImportEnd head) head
          ++ [[]; hashCommentOf hash; componentCodeOf name voices]
          ++ drop (lastImportEnd head) head ++ after)).
Proof.
  intros Hliteral Hlines Hhead Hmarker Hnoimport Hbetween Hfirst Hmid Hclose Hquiet.
  destruct (relocate_block mdxContent name hash voices head between middle after
              annotation closing Hlines Hhead Hmarker Hnoimport Hbetween Hfirst Hmid Hclose
              Hquiet) as [Hpresent Hmoved].
  unfold injectAudioComponent. cbn [default from_option id componentName].
  rewrite (hasAudioComponent_literal _ _ Hliteral), Hpresent.
  cbn [mbind Result_bind mret Result_ret]. now rewrite Hmoved.
Qed.

Lemma split_app_sep_any (sep : char) (p r : jsstring) :
  split sep (p ++ sep :: r) = split sep p ++ split sep r.
Proof.
  induction p as [|c p IH]; cbn [app split].
  - now rewrite N.eqb_refl.
  - destruct (c =? sep); [now rewrite IH|]. rewrite IH.
    destruct (split sep p) as [|piece pieces] eqn:Hsplit; [|reflexivity].
    pose proof (split_length sep p) as Hlen. rewrite Hsplit in Hlen. discriminate.
Qed.

Lemma split_join_concat (sep : char) (parts : list jsstring) :
  parts <> [] -> split sep (join [sep] parts) = concat (map (split sep) parts).
Proof.
  induction parts as [|p rest IH]; intros Hne; [contradiction|].
  destruct rest as [|q rest].
  - cbn [join map concat]. now rewrite app_nil_r.
  - change (join [sep] (p :: q :: rest)) with (p ++ sep :: join [sep] (q :: rest)).
    rewrite split_app_sep_any, IH by discriminate. reflexivity.
Qed.

Lemma concat_split_free (sep : char) (lines : list jsstring) :
  Forall (fun l => sep ∉ l) lines -> concat (map (split sep) lines) = lines.
Proof.
  induction 1 as [|l rest Hl _ IH]; [reflexivity|].
  cbn [map concat]. now rewrite (split_slashFree sep l Hl), IH.
Qed.

Lemma lastImportEnd_snoc (lines : list jsstring) (line : jsstring) :
  isImportLine line = false -> lastImportEnd (lines ++ [line]) = lastImportEnd lines.
Proof.
  intros Hline. induction lines as [|l t IH]; cbn [app lastImportEnd].
  - now rewrite Hline.
  - now rewrite IH.
Qed.

Lemma hashCommentOf_line (h : jsstring) :
  trim (hashCommentOf h) = hashCommentOf h /\
  includes (hashCommentOf h) hashMarker = true /\
  isImportLine (hashCommentOf h) = false.
Proof.
  assert (Htrim : trim (hashCommentOf h) = hashCommentOf h).
  { apply trim_fixed.
    - intros c Hc. injection Hc as <-. reflexivity.
    - intros c Hc.
      assert (Heq : hashCommentOf h
                    = (js "{/* speak-mintlify-hash: " ++ h ++ js " */") ++ [125])
        by (unfold hashCommentOf; now rewrite <- !app_assoc).
      rewrite Heq, last_snoc in Hc. injection Hc as <-. reflexivity. }
  split; [exact Htrim|]. split.
  - apply includes_spec. exists (js "{/* "), (32 :: h ++ js " */}"). reflexivity.
  - unfold isImportLine. rewrite Htrim. reflexivity.
Qed.

(** X26.  A further regeneration leaves one more blank line behind the
    block.  In a document of the form the tool itself writes -- a blank
    line, the annotation and the component between the lines above and
    the lines below -- [injectAudioComponent] takes out the annotation
    and the component but not the blank line in front of them, and puts
    the new block, again with a blank line in front, behind the last
    import line of the lines above: the blank line that preceded the old
    block now follows the new one, and the document has grown by one
    line.  The component name carries no pattern syntax. *)
Theorem regeneration_adds_blank_line (name hash1 hash2 : jsstring) (voices1 voices2 : list Voice)
  (importPath : option jsstring) (top rest middle : list jsstring) (closing : jsstring) :
  literalPattern name = true ->
  Forall (fun l => (LF ∉ l) /\ includes l (js "<" ++ name) = false) top ->
  Forall (fun l => LF ∉ l) rest ->
  LF ∉ hash1 ->
  includes (hashCommentOf hash1) (js "<" ++ name) = false ->
  split LF (componentCodeOf name voices1) = middle ++ [closing] ->
  includes (hd closing middle) (js "<" ++ name) = true ->
  Forall (fun l => includes l (js "/>") = false) middle ->
  includes closing (js "/>") = true ->
  Forall (fun l => includes (trim l) hashMarker = false /\ isImportLine l = false)
    (middle ++ [closing]) ->
  injectAudioComponent
    (join [LF] (top ++ [[]; hashCommentOf hash1; componentCodeOf name voices1] ++ rest))
    voices2 hash2 {| componentImport := importPath; componentName := Some name |}
  = Returns
      (join [LF]
         (take (lastImportEnd top) top
          ++ [[]; hashCommentOf hash2; componentCodeOf name voices2]
          ++ drop (lastImportEnd top) top ++ [[]] ++ rest)).
Proof.
  intros Hliteral Htop Hrest Hhash Hannotation Hold Hfirst Hmid Hclose Hquiet.
  destruct (hashCommentOf_line hash1) as (Htrim & Hmarker & Hnoimport).
  assert (Htop1 : Forall (fun l => LF ∉ l) top)
    by (eapply Forall_impl; [exact Htop|]; now intros l [Hfree _]).
  assert (Htop2 : Forall (fun l => includes l (js "<" ++ name) = false) top)
    by (eapply Forall_impl; [exact Htop|]; now intros l [_ Hno]).
  assert (Hlines :
            split LF (join [LF]
                        (top ++ [[]; hashCommentOf hash1; componentCodeOf name voices1] ++ rest))
            = (top ++ [[]]) ++ [hashCommentOf hash1] ++ middle ++ [closing] ++ rest).
  { rewrite split_join_concat by (destruct top; discriminate).
    rewrite map_app, concat_app, (concat_split_free LF top Htop1).
    cbn [map concat app]. rewrite (concat_split_free LF rest Hrest), Hold.
    rewrite (split_slashFree LF (hashCommentOf hash1)).
    - cbn [split app]. now rewrite <- !app_assoc.
    - unfold hashCommentOf. intros Hin.
      apply elem_of_app in Hin as [Hin|Hin];
        [apply list_elem_of_In in Hin; vm_compute in Hin; intuition discriminate|].
      apply elem_of_app in Hin as [Hin|Hin]; [contradiction|].
      apply list_elem_of_In in Hin. vm_compute in Hin. intuition discriminate. }
  destruct (relocate_block _ name hash2 voices2 _ [] _ _ _ _ Hlines) as [Hpresent Hmoved];
    try assumption; try (now constructor).
  { apply Forall_app. split; [|repeat constructor; exact Hannotation].
    apply Forall_app. split; [exact Htop2|]. repeat constructor. }
  { now rewrite Htrim. }
  unfold injectAudioComponent. cbn [default from_option id componentName].
  rewrite (hasAudioComponent_literal _ _ Hliteral), Hpresent.
  cbn [mbind Result_bind mret Result_ret]. rewrite Hmoved.
  rewrite lastImportEnd_snoc by reflexivity.
  pose proof (lastImportEnd_le top) as Hle.
  rewrite take_app_le, drop_app_le by exact Hle.
  cbn [mret Result_ret]. now rewrite <- !app_assoc.
Qed.
End Regeneration.

Ltac line_facts :=
  repeat first
    [ apply List.Forall_nil
    | apply List.Forall_cons
    | split
    | vm_compute; reflexivity
    | let Hin := fresh "Hin" in
      intros Hin; apply list_elem_of_In in Hin; vm_compute in Hin; intuition discriminate ].

(** X25 at the narrated sample document, regenerated with two voices. *)
Lemma regeneration_replaces_block_sample :
  @injectAudioComponent sampleLibraries docNarrated voicesAB (js "ffff")
    {| componentImport := None; componentName := Some defaultComponentName |}
  = Returns docRegenerated.
Proof.
  rewrite (@regeneration_replaces_block sampleLibraries docNarrated defaultComponentName
             (js "ffff") voicesAB None
             [importStatementOf defaultComponentName defaultComponentImport; []] []
             (removelast (split LF (componentCodeOf defaultComponentName sampleVoices)))
             [[]; js "# Title"; []; js "Hello."; []]
             (hashCommentOf (js "0a1b")) (js "  ]} />")).
  - vm_compute. reflexivity.
  - reflexivity.
  - vm_compute. reflexivity.
  - vm_compute. line_facts.
  - vm_compute. reflexivity.
  - vm_compute. reflexivity.
  - constructor.
  - vm_compute. reflexivity.
  - vm_compute. line_facts.
  - vm_compute. reflexivity.
  - vm_compute. line_facts.
Defined.

(** X26 at the same document: it is of the form the tool writes. *)
Lemma regeneration_adds_blank_line_sample :
  docNarrated
  = join [LF]
      ([importStatementOf defaultComponentName defaultComponentImport]
       ++ [[]; hashCommentOf (js "0a1b"); componentCodeOf defaultComponentName sampleVoices]
       ++ [[]; js "# Title"; []; js "Hello."; []]) /\
  @injectAudioComponent sampleLibraries docNarrated voicesAB (js "ffff")
    {| componentImport := None; componentName := Some defaultComponentName |}
  = Returns docRegenerated.
Proof.
  split; [reflexivity|].
  change docNarrated
    with (join [LF]
            ([importStatementOf defaultComponentName defaultComponentImport]
             ++ [[]; hashCommentOf (js "0a1b");
                 componentCodeOf defaultComponentName sampleVoices]
             ++ [[]; js "# Title"; []; js "Hello."; []])).
  rewrite (@regeneration_adds_blank_line sampleLibraries defaultComponentName
             (js "0a1b") (js "ffff") sampleVoices voicesAB None
             [importStatementOf defaultComponentName defaultComponentImport]
             [[]; js "# Title"; []; js "Hello."; []]
             (removelast (split LF (componentCodeOf defaultComponentName sampleVoices)))
             (js "  ]} />")).
  - vm_compute. reflexivity.
  - reflexivity.
  - line_facts.
  - line_facts.
  - line_facts.
  - vm_compute. reflexivity.
  - vm_compute. reflexivity.
  - vm_compute. reflexivity.
  - vm_compute. line_facts.
  - vm_compute. reflexivity.
  - vm_compute. line_facts.
Defined.

(** A paragraph between the annotation and the component is taken out
    with them. *)
Example regeneration_drops_lines_between :
  @injectAudioComponent sampleLibraries
    (join [LF] [hashCommentOf (js "0a1b"); js "Intro text.";
                js "<AudioTranscript voices={[]} />"; js "More."])
    [] (js "ffff") {| componentImport := None; componentName := None |}
  = Returns (join [LF] [[]; hashCommentOf (js "ffff");
                        js "<AudioTranscript voices={[]} />"; js "More."]).
Proof. vm_compute. reflexivity. Qed.

(* ===================================================================== *)
(** * Resolved configurations and the preview of a dry run                 *)
(* ===================================================================== *)

Section ResolvedRuns.
Context `{Libraries}.

(** X27.  For every configuration [resolveConfig] returns, the voices a
    dry run shows for a file are the voices a real run records once its
    uploads have succeeded: same ids, names and URLs.  The key the
    cleanup command reads from each of these URLs is the key the upload
    of that voice uses. *)
Theorem resolved_preview_urls (options : GenerateOptions) (env : Environment)
  (yamlConfig : SpeakerConfig) (config : Resolved) (file : jsstring) :
  resolveConfig options env yamlConfig = Returns config ->
  mockVoicesFor (commandConfig config) file = uploadedVoices (commandConfig config) file /\
  Forall2 (fun voice id =>
             exists url,
               voice_url voice = Some url /\
               keyOfUrl (commandConfig config) url
               = generateKey (uploaderConfig (commandConfig config)) file id)
    (mockVoicesFor (commandConfig config) file) (cfg_voiceIds (commandConfig config)).
Proof.
  intros Hconfig.
  apply resolveConfig_returns in Hconfig as (_ & _ & _ & _ & _ & _ & Hprefix & _).
  assert (Hne : cfg_s3PathPrefix (commandConfig config) <> []).
  { cbn [commandConfig cfg_s3PathPrefix]. rewrite Hprefix.
    apply orElse_not_empty. discriminate. }
  pose proof (mockVoicesFor_uploaded (commandConfig config) file Hne) as Hsame.
  split; [exact Hsame|]. rewrite Hsame. unfold uploadedVoices.
  generalize (voiceNameAt (commandConfig config)). intros nameAt.
  generalize (cfg_voiceIds (commandConfig config)). intros ids. revert nameAt.
  induction ids as [|id rest IH]; intros nameAt; [constructor|].
  cbn [imap]. constructor; [|apply (IH (fun idx => nameAt (S idx)))].
  eexists. split; [reflexivity|]. unfold keyOfUrl, uploadedUrl.
  now apply (extractKeyFromUrl_under_base (uploaderConfig (commandConfig config))); right.
Qed.
End ResolvedRuns.

(** X27 at the sample options. *)
Lemma resolved_preview_urls_sample :
  exists config,
    resolveConfig sampleOptions sampleEnvironment sampleYaml = Returns config /\
    @mockVoicesFor sampleLibraries (commandConfig config) (js "docs/intro.mdx")
    = @uploadedVoices sampleLibraries (commandConfig config) (js "docs/intro.mdx").
Proof.
  eexists. split; [reflexivity|].
  exact (proj1 (@resolved_preview_urls sampleLibraries sampleOptions sampleEnvironment
                  sampleYaml _ (js "docs/intro.mdx") eq_refl)).
Defined.

(** With an empty path prefix, which no resolved configuration has, the
    URL of the preview is not the URL of the upload. *)
Example preview_with_empty_prefix :
  map voice_url (@mockVoicesFor sampleLibraries configNoPrefix (js "docs/intro.mdx"))
    = [Some (js "https://cdn.example.com//docs-intro/v1.mp3")] /\
  map voice_url (@uploadedVoices sampleLibraries configNoPrefix (js "docs/intro.mdx"))
    = [Some (js "https://cdn.example.com/audio/docs-intro/v1.mp3")].
Proof. vm_compute. auto. Qed.

(* ===================================================================== *)
(** * The lines of the text after a first injection                        *)
(* ===================================================================== *)

Lemma sublist_concat_map {A B} (f : A -> list B) (l1 l2 : list A) :
  l1 `sublist_of` l2 -> concat (map f l1) `sublist_of` concat (map f l2).
Proof.
  induction 1 as [|x l1 l2 _ IH|x l1 l2 _ IH]; cbn [map concat].
  - constructor.
  - now apply sublist_app.
  - now apply sublist_inserts_l.
Qed.

Lemma textLines_app (a b : list jsstring) :
  textLines (a ++ b) = (textLines a + textLines b)%nat.
Proof. unfold textLines. now rewrite map_app, concat_app, length_app. Qed.

Lemma textLines_splice_zero (l : list jsstring) (start : Z) (items : list jsstring) :
  textLines (splice l start 0 items) = (textLines l + textLines items)%nat.
Proof.
  destruct (splice_zero l start items) as [a ->].
  rewrite <- (take_drop a l) at 3. rewrite !textLines_app. lia.
Qed.

Lemma textLines_one (line : jsstring) : textLines [line] = length (split LF line).
Proof. unfold textLines. cbn [map concat]. now rewrite app_nil_r. Qed.

Lemma textLines_split (s : jsstring) : textLines (split LF s) = length (split LF s).
Proof. unfold textLines. now rewrite (concat_split_free LF _ (split_pieces LF s)). Qed.

Lemma splice_zero_member {A} (l : list A) (start : Z) (items : list A) (x : A) :
  x ∈ splice l start 0 items -> x ∈ l \/ x ∈ items.
Proof.
  destruct (splice_zero l start items) as [a ->]. intros Hin.
  apply elem_of_app in Hin as [Hin|Hin];
    [left; eapply elem_of_sublist; [exact Hin|apply sublist_take]|].
  apply elem_of_app in Hin as [Hin|Hin]; [now right|].
  left. eapply elem_of_sublist; [exact Hin|apply sublist_drop].
Qed.

(** What [placeBlock] adds: the annotation, the component and at most two
    blank lines. *)
Lemma placeBlock_text (lines : list jsstring) (pos : Z) (hashComment componentCode : jsstring) :
  (forall x, x ∈ placeBlock lines pos hashComment componentCode ->
     x ∈ lines \/ x = [] \/ x = hashComment \/ x = componentCode) /\
  exists blanks,
    (blanks <= 2)%nat /\
    textLines (placeBlock lines pos hashComment componentCode)
    = (textLines lines + textLines [hashComment] + textLines [componentCode] + blanks)%nat.
Proof.
  unfold placeBlock.
  set (l1 := if notBlankAt lines (pos - 1) then splice lines pos 0 [[]] else lines).
  set (l2 := splice l1 pos 0 [hashComment]).
  set (l3 := splice l2 (pos + 1) 0 [componentCode]).
  assert (H1 : (forall x, x ∈ l1 -> x ∈ lines \/ x = []) /\
               exists b1, (b1 <= 1)%nat /\ textLines l1 = (textLines lines + b1)%nat).
  { subst l1. destruct (notBlankAt lines (pos - 1)).
    - split.
      + intros x Hx. apply splice_zero_member in Hx as [Hx|Hx]; [now left|].
        right. now apply list_elem_of_singleton in Hx.
      + exists 1%nat. split; [lia|]. now rewrite textLines_splice_zero.
    - split; [now left|]. exists 0%nat. split; lia. }
  destruct H1 as (M1 & b1 & Hb1 & T1).
  assert (M3 : forall x, x ∈ l3 -> x ∈ lines \/ x = [] \/ x = hashComment \/ x = componentCode).
  { intros x Hx. subst l3 l2.
    apply splice_zero_member in Hx as [Hx|Hx];
      [|apply list_elem_of_singleton in Hx; auto].
    apply splice_zero_member in Hx as [Hx|Hx];
      [|apply list_elem_of_singleton in Hx; auto].
    destruct (M1 x Hx); auto. }
  assert (T3 : textLines l3
               = (textLines lines + textLines [hashComment] + textLines [componentCode] + b1)%nat).
  { subst l3 l2. rewrite !textLines_splice_zero. lia. }
  destruct (notBlankAt l3 (pos + 2)).
  - split.
    + intros x Hx. apply splice_zero_member in Hx as [Hx|Hx]; [now apply M3|].
      apply list_elem_of_singleton in Hx. auto.
    + exists (b1 + 1)%nat. split; [lia|]. rewrite textLines_splice_zero, T3.
      change (textLines [[]]) with 1%nat. lia.
  - split; [exact M3|]. exists b1. split; [lia|exact T3].
Qed.

Section FirstInjection.
Context `{Libraries}.

(** X6.  Injection into a document that does not hold the component
    keeps every line of the document, in order and unaltered.  The lines
    of the returned text are those of the document and, added to them, the
    lines of the annotation and of the component (which spans several
    lines when it lists voices), those of the import statement when no
    line holds [import { Name }], and at most two blank lines. *)
Theorem fresh_injection_keeps_lines (mdxContent : jsstring) (voices : list Voice)
  (hash : jsstring) (options : InjectOptions) (result : jsstring) :
  let name := default defaultComponentName (componentName options) in
  let importPath := default defaultComponentImport (componentImport options) in
  hasAudioComponent mdxContent name = Returns false ->
  injectAudioComponent mdxContent voices hash options = Returns result ->
  split LF mdxContent `sublist_of` split LF result /\
  (forall l, l ∈ split LF result ->
     l ∈ split LF mdxContent \/ l = [] \/
     l ∈ split LF (hashCommentOf hash) \/
     l ∈ split LF (componentCodeOf name voices) \/
     l ∈ split LF (importStatementOf name importPath)) /\
  exists blanks,
    (blanks <= 2)%nat /\
    length (split LF result)
    = (length (split LF mdxContent)
       + (if existsb (fun line => includes line (importHead name)) (split LF mdxContent)
          then 0 else length (split LF (importStatementOf name importPath)))
       + length (split LF (hashCommentOf hash))
       + length (split LF (componentCodeOf name voices))
       + blanks)%nat.
Proof.
  intros name importPath Habsent Hout.
  unfold injectAudioComponent in Hout. fold name importPath in Hout.
  rewrite Habsent in Hout. cbn [mbind Result_bind] in Hout.
  unfold insertFresh in Hout.
  destruct (findInsertionPoints mdxContent) as [points|]; cbn [mbind Result_bind] in Hout;
    [|discriminate].
  injection Hout as <-.
  set (lines := split LF mdxContent) in *.
  set (named := existsb (fun line => includes line (importHead name)) lines) in *.
  set (withImport := if named then lines
                     else splice lines (Z.of_nat (importPos points)) 0
                            [importStatementOf name importPath]).
  set (pos := if named then Z.of_nat (componentPos points)
              else (Z.of_nat (componentPos points) + 1)%Z).
  set (placed := placeBlock withImport pos (hashCommentOf hash) (componentCodeOf name voices)).
  assert (Hkeep : lines `sublist_of` withImport).
  { subst withImport. destruct named; [reflexivity|apply splice_zero_sublist]. }
  assert (Hmember : forall x, x ∈ withImport ->
            x ∈ lines \/ x = importStatementOf name importPath).
  { subst withImport. destruct named; [now left|].
    intros x Hx. apply splice_zero_member in Hx as [Hx|Hx]; [now left|].
    right. now apply list_elem_of_singleton in Hx. }
  assert (Hcount : textLines withImport
                   = (textLines lines
                      + if named then 0
                        else length (split LF (importStatementOf name importPath)))%nat).
  { subst withImport. destruct named; [lia|].
    now rewrite textLines_splice_zero, textLines_one. }
  destruct (placeBlock_facts withImport pos (hashCommentOf hash) (componentCodeOf name voices))
    as (Hsub & _ & Hh & _).
  destruct (placeBlock_text withImport pos (hashCommentOf hash) (componentCodeOf name voices))
    as (Hplaced & blanks & Hblanks & Htext).
  fold placed in Hsub, Hh, Hplaced, Htext.
  assert (Hsplit : split LF (join [LF] placed) = concat (map (split LF) placed)).
  { apply split_join_concat. intros Hnil. rewrite Hnil in Hh. now apply elem_of_nil in Hh. }
  assert (Hlines : concat (map (split LF) lines) = lines)
    by apply (concat_split_free LF _ (split_pieces LF mdxContent)).
  rewrite Hsplit. split; [|split].
  - rewrite <- Hlines at 1. apply sublist_concat_map. etrans; [exact Hkeep|exact Hsub].
  - intros l Hl. apply elem_of_concat in Hl as (x & Hl & Hx).
    apply list_elem_of_fmap in Hx as (element & -> & Helement).
    destruct (Hplaced element Helement) as [Hw | [-> | [-> | ->]]]; auto.
    + destruct (Hmember element Hw) as [Hdoc| ->]; auto.
      left. assert (Hfree : LF ∉ element).
      { pose proof (split_pieces LF mdxContent) as Hpieces.
        rewrite Forall_forall in Hpieces. now apply Hpieces. }
      rewrite (split_slashFree LF element Hfree) in Hl.
      now apply list_elem_of_singleton in Hl as ->.
    + right. left. now apply list_elem_of_singleton in Hl.
  - exists blanks. split; [exact Hblanks|].
    change (length (concat (map (split LF) placed))) with (textLines placed).
    rewrite Htext, Hcount, !textLines_one. unfold lines at 1. rewrite textLines_split.
    reflexivity.
Qed.
End FirstInjection.

(** X6 at the sample document: its four lines are kept among the
    fourteen of the text of the first run. *)
Lemma fresh_injection_keeps_lines_sample :
  @hasAudioComponent sampleLibraries docFresh defaultComponentName = Returns false /\
  split LF docFresh `sublist_of` split LF docFirstRun /\
  length (split LF docFresh) = 4%nat /\ length (split LF docFirstRun) = 14%nat.
Proof.
  assert (Habsent : @hasAudioComponent sampleLibraries docFresh defaultComponentName
                    = Returns false) by (vm_compute; reflexivity).
  assert (Hrun : @injectAudioComponent sampleLibraries docFresh sampleVoices (js "0a1b")
                   {| componentImport := None; componentName := None |} = Returns docFirstRun)
    by (vm_compute; reflexivity).
  split; [exact Habsent|].
  split; [|split; vm_compute; reflexivity].
  exact (proj1 (@fresh_injection_keeps_lines sampleLibraries docFresh sampleVoices (js "0a1b")
                  {| componentImport := None; componentName := None |} docFirstRun
                  Habsent Hrun)).
Defined.
